(** * Nanopond-CH: a shallow embedding of [nanopond-ch.c]

    The pond, the Mersenne Twister, the memory window, the access oracle
    and the cell virtual machine of [nanopond-ch.c] as Rocq functions over
    an explicit machine state, followed by the properties of the engine
    that the specification states.

    Conventions.
    - Every C integer is a [Z]; the width of its type is written out at
      each operation that can leave the type's range ([wrap] for
      [uintptr_t], [u64] for [uint64_t], [u8] for [uint8_t]).
    - A C array is a [list]; an access is checked against the length of
      the list and an access outside it has no result ([None]), which is
      how undefined behaviour of the C program shows up in the model.
    - A pointer to a cell ([pptr], [tmpptr], [c], [c2]) is the position
      [(x, y)] of that cell in [pond]; two pointers are aliases exactly
      when the positions are equal.
    - The source is modelled as it is compiled by default:
      [DIRECTIONS == 6], [TOTAL_ENERGY_CAP] and [STOP_AT] undefined,
      [INFLOW_RATE_VARIATION] defined, [CLEAR_RAM] and [DECAY_RAM] 0,
      [TEST_NEIGHBOR] 0.  The numeric tunables are fields of [Config].
      The block that [main] compiles under [#if TEST_NEIGHBOR] is
      modelled apart from the engine, as the value it returns.
    - The observers only read the pond, apart from the per-report
      counters that [doReport] clears; the engine is modelled without
      them.  [doReport], [doDump], [dumpCell] and [getColor] are modelled
      apart, over the same pond, with what they print as their result;
      the SDL refresh is not modelled.  [instructionExecutions] and
      [cellExecutions] are [double] counters in the source and are kept
      here as the integer count they hold. *)

From Stdlib Require Import ZArith Lia List Bool.
From stdpp Require Import base tactics option list.

Local Open Scope Z_scope.

(** ** Tunable parameters *)

Class Config := {
  POND_SIZE_X : Z;
  POND_SIZE_Y : Z;
  POND_DEPTH : Z;
  MUTATION_RATE : Z;
  INFLOW_FREQUENCY : Z;
  INFLOW_RATE_BASE : Z;
  INFLOW_RATE_VARIATION : Z;
  CELL_ENERGY_CAP : Z;
  FAILED_KILL_PENALTY : Z;
  REPRODUCTION_COST : Z;
  (** [sizeof(uintptr_t) * 8]: 32 or 64, fixed by the target. *)
  SYSWORD_BITS : Z
}.

(** The values of the [#define]s in the source, on a 64-bit target. *)
Definition nanopond64 : Config := {|
  POND_SIZE_X := 640;
  POND_SIZE_Y := 480;
  POND_DEPTH := 512;
  MUTATION_RATE := 100000;
  INFLOW_FREQUENCY := 100;
  INFLOW_RATE_BASE := 2000;
  INFLOW_RATE_VARIATION := 4000;
  CELL_ENERGY_CAP := 10000;
  FAILED_KILL_PENALTY := 3;
  REPRODUCTION_COST := 20;
  SYSWORD_BITS := 64
|}.

(** The same on a 32-bit target. *)
Definition nanopond32 : Config := {|
  POND_SIZE_X := 640;
  POND_SIZE_Y := 480;
  POND_DEPTH := 512;
  MUTATION_RATE := 100000;
  INFLOW_FREQUENCY := 100;
  INFLOW_RATE_BASE := 2000;
  INFLOW_RATE_VARIATION := 4000;
  CELL_ENERGY_CAP := 10000;
  FAILED_KILL_PENALTY := 3;
  REPRODUCTION_COST := 20;
  SYSWORD_BITS := 32
|}.

(** A pond of [sx] by [sy] cells, everything else as in the source. *)
Definition small_pond (sx sy bits : Z) : Config := {|
  POND_SIZE_X := sx;
  POND_SIZE_Y := sy;
  POND_DEPTH := 512;
  MUTATION_RATE := 100000;
  INFLOW_FREQUENCY := 100;
  INFLOW_RATE_BASE := 2000;
  INFLOW_RATE_VARIATION := 4000;
  CELL_ENERGY_CAP := 10000;
  FAILED_KILL_PENALTY := 3;
  REPRODUCTION_COST := 20;
  SYSWORD_BITS := bits
|}.

(** ** Fixed constants *)

Definition INST_BITS : Z := 5.
Definition NUM_INST : Z := Z.shiftl 1 INST_BITS.
Definition INST_MASK : Z := NUM_INST - 1.
Definition REG_BITS : Z := 8.
Definition REG_MASK : Z := Z.shiftl 1 REG_BITS - 1.
Definition LOGO_BITS : Z := 5.
Definition LOGO_MASK : Z := Z.shiftl 1 LOGO_BITS - 1.
Definition FACING_BITS : Z := 5.
Definition FACING_MASK : Z := Z.shiftl 1 FACING_BITS - 1.
Definition RAM_SIZE : Z := 16.
Definition RAM_MASK : Z := RAM_SIZE - 1.
Definition MEM_SIZE : Z := 32.
Definition MEM_MASK : Z := MEM_SIZE - 1.
Definition COMBINE_SENSE : Z := 0.
Definition EXEC_START_INST : Z := 0.

(** The opcodes of the anonymous [enum]; abbreviations, so that they can
    label the cases of the dispatch as they do in the source. *)
Abbreviation OP_STOP := 0 (only parsing).
Abbreviation OP_FWD := 1 (only parsing).
Abbreviation OP_BACK := 2 (only parsing).
Abbreviation OP_INC := 3 (only parsing).
Abbreviation OP_DEC := 4 (only parsing).
Abbreviation OP_READG := 5 (only parsing).
Abbreviation OP_WRITEG := 6 (only parsing).
Abbreviation OP_READO := 7 (only parsing).
Abbreviation OP_WRITEO := 8 (only parsing).
Abbreviation OP_LOOP := 9 (only parsing).
Abbreviation OP_REP := 10 (only parsing).
Abbreviation OP_TURN := 11 (only parsing).
Abbreviation OP_XCHG := 12 (only parsing).
Abbreviation OP_KILL := 13 (only parsing).
Abbreviation OP_SHARE := 14 (only parsing).
Abbreviation OP_ZERO := 15 (only parsing).
Abbreviation OP_SETP := 16 (only parsing).
Abbreviation OP_NEXTB := 17 (only parsing).
Abbreviation OP_PREVB := 18 (only parsing).
Abbreviation OP_NEXTM := 19 (only parsing).
Abbreviation OP_PREVM := 20 (only parsing).
Abbreviation OP_READM := 21 (only parsing).
Abbreviation OP_WRITEM := 22 (only parsing).
Abbreviation OP_CLEARM := 23 (only parsing).
Abbreviation OP_ADD := 24 (only parsing).
Abbreviation OP_SUB := 25 (only parsing).
Abbreviation OP_MUL := 26 (only parsing).
Abbreviation OP_DIV := 27 (only parsing).
Abbreviation OP_SHL := 28 (only parsing).
Abbreviation OP_SHR := 29 (only parsing).
Abbreviation OP_SETMP := 30 (only parsing).
Abbreviation OP_RAND := 31 (only parsing).

Abbreviation DIR_0 := 0 (only parsing).
Abbreviation DIR_1 := 1 (only parsing).
Abbreviation DIR_2 := 2 (only parsing).
Abbreviation DIR_3 := 3 (only parsing).
Abbreviation DIR_4 := 4 (only parsing).
Abbreviation DIR_5 := 5 (only parsing).

Definition dirmap : list Z :=
  [ 0; 1; 2; 3; 4; 5;
    0; 1; 2; 3; 3; 4; 5;
    0; 1; 2; 3; 4; 5;
    0; 1; 2; 2; 3; 4; 5;
    0; 1; 2; 3; 4; 5 ].

Definition BITS_IN_FIVEBIT_WORD : list Z :=
  [ 0;1;1;2;1;2;2;3;1;2;2;3;2;3;3;4;1;2;2;3;2;3;3;4;2;3;3;4;3;4;4;5 ].

(** ** Fixed-width integers and checked arrays *)

Definition u8 (v : Z) : Z := v mod 2 ^ 8.
Definition u32 (v : Z) : Z := v mod 2 ^ 32.
Definition u64 (v : Z) : Z := v mod 2 ^ 64.

(** [a[i]]: no value outside the array. *)
Definition aget {A} (a : list A) (i : Z) : option A :=
  if 0 <=? i then a !! Z.to_nat i else None.

(** [a[i] = v]: no resulting array outside the array. *)
Definition aset {A} (a : list A) (i : Z) (v : A) : option (list A) :=
  if (0 <=? i) && (i <? Z.of_nat (length a)) then Some (<[Z.to_nat i := v]> a)
  else None.

(** [for (i = from; i < from + n; ++i) a[i] = v;] *)
Fixpoint afill {A} (a : list A) (from : Z) (n : nat) (v : A) : option (list A) :=
  match n with
  | O => Some a
  | S n' => a' ← aset a from v; afill a' (from + 1) n' v
  end.

(** [for (i = from; i < from + n; ++i) dst[i] = src[i];] *)
Fixpoint acopy {A} (dst src : list A) (from : Z) (n : nat) : option (list A) :=
  match n with
  | O => Some dst
  | S n' =>
      v ← aget src from;
      dst' ← aset dst from v;
      acopy dst' src (from + 1) n'
  end.

(** ** The Mersenne Twister (MT19937) *)

Definition MT_N : nat := 624.
Definition MT_M : nat := 397.
Definition MATRIX_A : Z := 0x9908b0df.
Definition UPPER_MASK : Z := 0x80000000.
Definition LOWER_MASK : Z := 0x7fffffff.

(** The globals [mt] and [mti]. *)
Record MTState := Build_MTState {
  mt : list Z;
  mti : Z
}.

Definition mag01 (b : Z) : Z := if b =? 0 then 0 else MATRIX_A.

(** [init_genrand]: the loop body, for [mti = i]. *)
Definition init_genrand_step (a : list Z) (i : nat) : list Z :=
  let prev := a !!! (i - 1)%nat in
  <[ i := Z.land (1812433253 * Z.lxor prev (Z.shiftr prev 30) + Z.of_nat i)
                 0xffffffff ]> a.

Definition init_genrand (s : Z) : MTState :=
  let a0 := <[ 0%nat := Z.land s 0xffffffff ]> (replicate MT_N 0) in
  {| mt := fold_left init_genrand_step (seq 1 (MT_N - 1)) a0;
     mti := Z.of_nat MT_N |}.

(** One assignment of the regeneration loops of [genrand_int32]:
    [y = (mt[kk]&UPPER_MASK)|(mt[nxt]&LOWER_MASK);
     mt[kk] = mt[far] ^ (y >> 1) ^ mag01[y & 0x1UL];] *)
Definition twist (nxt far : nat -> nat) (a : list Z) (kk : nat) : list Z :=
  let y := Z.lor (Z.land (a !!! kk) UPPER_MASK) (Z.land (a !!! nxt kk) LOWER_MASK) in
  <[ kk := Z.lxor (Z.lxor (a !!! far kk) (Z.shiftr y 1)) (mag01 (Z.land y 1)) ]> a.

Definition regenerate (a : list Z) : list Z :=
  let a1 := fold_left (twist S (fun kk => kk + MT_M)%nat) (seq 0 (MT_N - MT_M)) a in
  let a2 := fold_left (twist S (fun kk => kk + MT_M - MT_N)%nat)
                      (seq (MT_N - MT_M) (MT_M - 1)) a1 in
  twist (fun _ => 0%nat) (fun _ => (MT_M - 1)%nat) a2 (MT_N - 1)%nat.

Definition temper (y0 : Z) : Z :=
  let y1 := Z.lxor y0 (Z.shiftr y0 11) in
  let y2 := Z.lxor y1 (Z.land (u32 (Z.shiftl y1 7)) 0x9d2c5680) in
  let y3 := Z.lxor y2 (Z.land (u32 (Z.shiftl y2 15)) 0xefc60000) in
  Z.lxor y3 (Z.shiftr y3 18).

(** [genrand_int32]: the next 32-bit output and the state after it. *)
Definition genrand_int32 (s : MTState) : Z * MTState :=
  let s1 := if Z.of_nat MT_N <=? mti s
            then {| mt := regenerate (mt s); mti := 0 |} else s in
  let y := u32 (mt s1 !!! Z.to_nat (mti s1)) in
  (temper y, {| mt := mt s1; mti := mti s1 + 1 |}).

(** ** The pond and the machine state *)

(** [struct Cell]. *)
Record Cell := Build_Cell {
  ID : Z;
  parentID : Z;
  lineage : Z;
  generation : Z;
  energy : Z;
  logo : Z;
  facing : Z;
  genome : list Z;
  ram : list Z
}.

Definition set_ID (v : Z) (c : Cell) : Cell :=
  Build_Cell v (parentID c) (lineage c) (generation c) (energy c) (logo c) (facing c) (genome c) (ram c).

Definition set_parentID (v : Z) (c : Cell) : Cell :=
  Build_Cell (ID c) v (lineage c) (generation c) (energy c) (logo c) (facing c) (genome c) (ram c).

Definition set_lineage (v : Z) (c : Cell) : Cell :=
  Build_Cell (ID c) (parentID c) v (generation c) (energy c) (logo c) (facing c) (genome c) (ram c).

Definition set_generation (v : Z) (c : Cell) : Cell :=
  Build_Cell (ID c) (parentID c) (lineage c) v (energy c) (logo c) (facing c) (genome c) (ram c).

Definition set_energy (v : Z) (c : Cell) : Cell :=
  Build_Cell (ID c) (parentID c) (lineage c) (generation c) v (logo c) (facing c) (genome c) (ram c).

Definition set_logo (v : Z) (c : Cell) : Cell :=
  Build_Cell (ID c) (parentID c) (lineage c) (generation c) (energy c) v (facing c) (genome c) (ram c).

Definition set_facing (v : Z) (c : Cell) : Cell :=
  Build_Cell (ID c) (parentID c) (lineage c) (generation c) (energy c) (logo c) v (genome c) (ram c).

Definition set_genome (v : list Z) (c : Cell) : Cell :=
  Build_Cell (ID c) (parentID c) (lineage c) (generation c) (energy c) (logo c) (facing c) v (ram c).

Definition set_ram (v : list Z) (c : Cell) : Cell :=
  Build_Cell (ID c) (parentID c) (lineage c) (generation c) (energy c) (logo c) (facing c) (genome c) v.


(** [struct PerReportStatCounters]. *)
Record PerReportStatCounters := Build_PerReportStatCounters {
  instructionExecutions : list Z;
  cellExecutions : Z;
  viableCellsReplaced : Z;
  viableCellsKilled : Z;
  viableCellShares : Z;
  memSpecialReads : Z;
  memPrivateReads : Z;
  memOutputReads : Z;
  memInputReads : Z;
  memSpecialWrites : Z;
  memPrivateWrites : Z;
  memOutputWrites : Z;
  memInputWrites : Z
}.

Definition set_instructionExecutions (v : list Z) (s : PerReportStatCounters) : PerReportStatCounters :=
  Build_PerReportStatCounters v (cellExecutions s) (viableCellsReplaced s) (viableCellsKilled s) (viableCellShares s) (memSpecialReads s) (memPrivateReads s) (memOutputReads s) (memInputReads s) (memSpecialWrites s) (memPrivateWrites s) (memOutputWrites s) (memInputWrites s).

Definition set_cellExecutions (v : Z) (s : PerReportStatCounters) : PerReportStatCounters :=
  Build_PerReportStatCounters (instructionExecutions s) v (viableCellsReplaced s) (viableCellsKilled s) (viableCellShares s) (memSpecialReads s) (memPrivateReads s) (memOutputReads s) (memInputReads s) (memSpecialWrites s) (memPrivateWrites s) (memOutputWrites s) (memInputWrites s).

Definition set_viableCellsReplaced (v : Z) (s : PerReportStatCounters) : PerReportStatCounters :=
  Build_PerReportStatCounters (instructionExecutions s) (cellExecutions s) v (viableCellsKilled s) (viableCellShares s) (memSpecialReads s) (memPrivateReads s) (memOutputReads s) (memInputReads s) (memSpecialWrites s) (memPrivateWrites s) (memOutputWrites s) (memInputWrites s).

Definition set_viableCellsKilled (v : Z) (s : PerReportStatCounters) : PerReportStatCounters :=
  Build_PerReportStatCounters (instructionExecutions s) (cellExecutions s) (viableCellsReplaced s) v (viableCellShares s) (memSpecialReads s) (memPrivateReads s) (memOutputReads s) (memInputReads s) (memSpecialWrites s) (memPrivateWrites s) (memOutputWrites s) (memInputWrites s).

Definition set_viableCellShares (v : Z) (s : PerReportStatCounters) : PerReportStatCounters :=
  Build_PerReportStatCounters (instructionExecutions s) (cellExecutions s) (viableCellsReplaced s) (viableCellsKilled s) v (memSpecialReads s) (memPrivateReads s) (memOutputReads s) (memInputReads s) (memSpecialWrites s) (memPrivateWrites s) (memOutputWrites s) (memInputWrites s).

Definition set_memSpecialReads (v : Z) (s : PerReportStatCounters) : PerReportStatCounters :=
  Build_PerReportStatCounters (instructionExecutions s) (cellExecutions s) (viableCellsReplaced s) (viableCellsKilled s) (viableCellShares s) v (memPrivateReads s) (memOutputReads s) (memInputReads s) (memSpecialWrites s) (memPrivateWrites s) (memOutputWrites s) (memInputWrites s).

Definition set_memPrivateReads (v : Z) (s : PerReportStatCounters) : PerReportStatCounters :=
  Build_PerReportStatCounters (instructionExecutions s) (cellExecutions s) (viableCellsReplaced s) (viableCellsKilled s) (viableCellShares s) (memSpecialReads s) v (memOutputReads s) (memInputReads s) (memSpecialWrites s) (memPrivateWrites s) (memOutputWrites s) (memInputWrites s).

Definition set_memOutputReads (v : Z) (s : PerReportStatCounters) : PerReportStatCounters :=
  Build_PerReportStatCounters (instructionExecutions s) (cellExecutions s) (viableCellsReplaced s) (viableCellsKilled s) (viableCellShares s) (memSpecialReads s) (memPrivateReads s) v (memInputReads s) (memSpecialWrites s) (memPrivateWrites s) (memOutputWrites s) (memInputWrites s).

Definition set_memInputReads (v : Z) (s : PerReportStatCounters) : PerReportStatCounters :=
  Build_PerReportStatCounters (instructionExecutions s) (cellExecutions s) (viableCellsReplaced s) (viableCellsKilled s) (viableCellShares s) (memSpecialReads s) (memPrivateReads s) (memOutputReads s) v (memSpecialWrites s) (memPrivateWrites s) (memOutputWrites s) (memInputWrites s).

Definition set_memSpecialWrites (v : Z) (s : PerReportStatCounters) : PerReportStatCounters :=
  Build_PerReportStatCounters (instructionExecutions s) (cellExecutions s) (viableCellsReplaced s) (viableCellsKilled s) (viableCellShares s) (memSpecialReads s) (memPrivateReads s) (memOutputReads s) (memInputReads s) v (memPrivateWrites s) (memOutputWrites s) (memInputWrites s).

Definition set_memPrivateWrites (v : Z) (s : PerReportStatCounters) : PerReportStatCounters :=
  Build_PerReportStatCounters (instructionExecutions s) (cellExecutions s) (viableCellsReplaced s) (viableCellsKilled s) (viableCellShares s) (memSpecialReads s) (memPrivateReads s) (memOutputReads s) (memInputReads s) (memSpecialWrites s) v (memOutputWrites s) (memInputWrites s).

Definition set_memOutputWrites (v : Z) (s : PerReportStatCounters) : PerReportStatCounters :=
  Build_PerReportStatCounters (instructionExecutions s) (cellExecutions s) (viableCellsReplaced s) (viableCellsKilled s) (viableCellShares s) (memSpecialReads s) (memPrivateReads s) (memOutputReads s) (memInputReads s) (memSpecialWrites s) (memPrivateWrites s) v (memInputWrites s).

Definition set_memInputWrites (v : Z) (s : PerReportStatCounters) : PerReportStatCounters :=
  Build_PerReportStatCounters (instructionExecutions s) (cellExecutions s) (viableCellsReplaced s) (viableCellsKilled s) (viableCellShares s) (memSpecialReads s) (memPrivateReads s) (memOutputReads s) (memInputReads s) (memSpecialWrites s) (memPrivateWrites s) (memOutputWrites s) v.


(** The globals of the program and the locals of [main] that live across
    the iterations of its loops.  [x] and [y] are the position of the cell
    [pptr] points to. *)
Record Machine := Build_Machine {
  pond : list (list Cell);
  rng : MTState;
  statCounters : PerReportStatCounters;
  clock : Z;
  cellIdCounter : Z;
  x : Z;
  y : Z;
  outputBuf : list Z;
  ptr_ioPtr : Z;
  ptr_mem : Z;
  reg : Z;
  instPtr : Z;
  loopStack : list Z;
  loopStackPtr : Z;
  falseLoopDepth : Z;
  stop : bool
}.

Definition set_pond (v : list (list Cell)) (m : Machine) : Machine :=
  Build_Machine v (rng m) (statCounters m) (clock m) (cellIdCounter m) (x m) (y m) (outputBuf m) (ptr_ioPtr m) (ptr_mem m) (reg m) (instPtr m) (loopStack m) (loopStackPtr m) (falseLoopDepth m) (stop m).

Definition set_rng (v : MTState) (m : Machine) : Machine :=
  Build_Machine (pond m) v (statCounters m) (clock m) (cellIdCounter m) (x m) (y m) (outputBuf m) (ptr_ioPtr m) (ptr_mem m) (reg m) (instPtr m) (loopStack m) (loopStackPtr m) (falseLoopDepth m) (stop m).

Definition set_statCounters (v : PerReportStatCounters) (m : Machine) : Machine :=
  Build_Machine (pond m) (rng m) v (clock m) (cellIdCounter m) (x m) (y m) (outputBuf m) (ptr_ioPtr m) (ptr_mem m) (reg m) (instPtr m) (loopStack m) (loopStackPtr m) (falseLoopDepth m) (stop m).

Definition set_clock (v : Z) (m : Machine) : Machine :=
  Build_Machine (pond m) (rng m) (statCounters m) v (cellIdCounter m) (x m) (y m) (outputBuf m) (ptr_ioPtr m) (ptr_mem m) (reg m) (instPtr m) (loopStack m) (loopStackPtr m) (falseLoopDepth m) (stop m).

Definition set_cellIdCounter (v : Z) (m : Machine) : Machine :=
  Build_Machine (pond m) (rng m) (statCounters m) (clock m) v (x m) (y m) (outputBuf m) (ptr_ioPtr m) (ptr_mem m) (reg m) (instPtr m) (loopStack m) (loopStackPtr m) (falseLoopDepth m) (stop m).

Definition set_x (v : Z) (m : Machine) : Machine :=
  Build_Machine (pond m) (rng m) (statCounters m) (clock m) (cellIdCounter m) v (y m) (outputBuf m) (ptr_ioPtr m) (ptr_mem m) (reg m) (instPtr m) (loopStack m) (loopStackPtr m) (falseLoopDepth m) (stop m).

Definition set_y (v : Z) (m : Machine) : Machine :=
  Build_Machine (pond m) (rng m) (statCounters m) (clock m) (cellIdCounter m) (x m) v (outputBuf m) (ptr_ioPtr m) (ptr_mem m) (reg m) (instPtr m) (loopStack m) (loopStackPtr m) (falseLoopDepth m) (stop m).

Definition set_outputBuf (v : list Z) (m : Machine) : Machine :=
  Build_Machine (pond m) (rng m) (statCounters m) (clock m) (cellIdCounter m) (x m) (y m) v (ptr_ioPtr m) (ptr_mem m) (reg m) (instPtr m) (loopStack m) (loopStackPtr m) (falseLoopDepth m) (stop m).

Definition set_ptr_ioPtr (v : Z) (m : Machine) : Machine :=
  Build_Machine (pond m) (rng m) (statCounters m) (clock m) (cellIdCounter m) (x m) (y m) (outputBuf m) v (ptr_mem m) (reg m) (instPtr m) (loopStack m) (loopStackPtr m) (falseLoopDepth m) (stop m).

Definition set_ptr_mem (v : Z) (m : Machine) : Machine :=
  Build_Machine (pond m) (rng m) (statCounters m) (clock m) (cellIdCounter m) (x m) (y m) (outputBuf m) (ptr_ioPtr m) v (reg m) (instPtr m) (loopStack m) (loopStackPtr m) (falseLoopDepth m) (stop m).

Definition set_reg (v : Z) (m : Machine) : Machine :=
  Build_Machine (pond m) (rng m) (statCounters m) (clock m) (cellIdCounter m) (x m) (y m) (outputBuf m) (ptr_ioPtr m) (ptr_mem m) v (instPtr m) (loopStack m) (loopStackPtr m) (falseLoopDepth m) (stop m).

Definition set_instPtr (v : Z) (m : Machine) : Machine :=
  Build_Machine (pond m) (rng m) (statCounters m) (clock m) (cellIdCounter m) (x m) (y m) (outputBuf m) (ptr_ioPtr m) (ptr_mem m) (reg m) v (loopStack m) (loopStackPtr m) (falseLoopDepth m) (stop m).

Definition set_loopStack (v : list Z) (m : Machine) : Machine :=
  Build_Machine (pond m) (rng m) (statCounters m) (clock m) (cellIdCounter m) (x m) (y m) (outputBuf m) (ptr_ioPtr m) (ptr_mem m) (reg m) (instPtr m) v (loopStackPtr m) (falseLoopDepth m) (stop m).

Definition set_loopStackPtr (v : Z) (m : Machine) : Machine :=
  Build_Machine (pond m) (rng m) (statCounters m) (clock m) (cellIdCounter m) (x m) (y m) (outputBuf m) (ptr_ioPtr m) (ptr_mem m) (reg m) (instPtr m) (loopStack m) v (falseLoopDepth m) (stop m).

Definition set_falseLoopDepth (v : Z) (m : Machine) : Machine :=
  Build_Machine (pond m) (rng m) (statCounters m) (clock m) (cellIdCounter m) (x m) (y m) (outputBuf m) (ptr_ioPtr m) (ptr_mem m) (reg m) (instPtr m) (loopStack m) (loopStackPtr m) v (stop m).

Definition set_stop (v : bool) (m : Machine) : Machine :=
  Build_Machine (pond m) (rng m) (statCounters m) (clock m) (cellIdCounter m) (x m) (y m) (outputBuf m) (ptr_ioPtr m) (ptr_mem m) (reg m) (instPtr m) (loopStack m) (loopStackPtr m) (falseLoopDepth m) v.

(** A pointer into [pond]. *)
Definition CellPtr : Type := Z * Z.

(** ** A state and error monad for the engine *)

Definition M (A : Type) : Type := Machine -> option (A * Machine).

Definition ret {A} (a : A) : M A := fun m => Some (a, m).

Definition bind {A B} (c : M A) (k : A -> M B) : M B :=
  fun m => match c m with
           | Some (a, m') => k a m'
           | None => None
           end.

Definition gets {A} (f : Machine -> A) : M A := fun m => Some (f m, m).

Definition modify (f : Machine -> Machine) : M unit := fun m => Some (tt, f m).

(** The result of a checked access: nothing when it is out of bounds. *)
Definition lift {A} (o : option A) : M A :=
  fun m => match o with
           | Some a => Some (a, m)
           | None => None
           end.

Notation "x <- c ; k" := (bind c (fun x => k))
  (at level 20, c at level 100, k at level 200, only parsing).
Notation "c ;;; k" := (bind c (fun _ => k))
  (at level 100, k at level 200, only parsing, right associativity).

(** [for (i = from; i < from + n; ++i) body(i);] *)
Fixpoint for_loop (from : Z) (n : nat) (body : Z -> M unit) : M unit :=
  match n with
  | O => ret tt
  | S n' => body from ;;; for_loop (from + 1) n' body
  end.

(** [pond[x][y]] *)
Definition pond_get (pd : list (list Cell)) (p : CellPtr) : option Cell :=
  col ← aget pd (fst p); aget col (snd p).

(** [pond[x][y] = c] *)
Definition pond_set (pd : list (list Cell)) (p : CellPtr) (c : Cell)
  : option (list (list Cell)) :=
  col ← aget pd (fst p); col' ← aset col (snd p) c; aset pd (fst p) col'.

(** [*p] *)
Definition load (p : CellPtr) : M Cell :=
  pd <- gets pond; lift (pond_get pd p).

(** [p->field = v], as [update p (set_field v)]. *)
Definition update (p : CellPtr) (f : Cell -> Cell) : M unit :=
  pd <- gets pond;
  c <- lift (pond_get pd p);
  pd' <- lift (pond_set pd p (f c));
  modify (set_pond pd').

(** [p->genome[i]] and [p->genome[i] = v] *)
Definition load_genome (p : CellPtr) (i : Z) : M Z :=
  c <- load p; lift (aget (genome c) i).

Definition store_genome (p : CellPtr) (i v : Z) : M unit :=
  c <- load p; g <- lift (aset (genome c) i v); update p (set_genome g).

(** [p->ram[i]] and [p->ram[i] = v] *)
Definition load_ram (p : CellPtr) (i : Z) : M Z :=
  c <- load p; lift (aget (ram c) i).

Definition store_ram (p : CellPtr) (i v : Z) : M unit :=
  c <- load p; r <- lift (aset (ram c) i v); update p (set_ram r).

(** [a / b] and [a % b] on unsigned operands, undefined for [b == 0]. *)
Definition cdiv (a b : Z) : option Z := if b =? 0 then None else Some (a / b).
Definition cmod (a b : Z) : option Z := if b =? 0 then None else Some (a mod b).

Section Engine.
Context `{Config}.

(** Arithmetic in [uintptr_t]. *)
Definition wrap (v : Z) : Z := v mod 2 ^ SYSWORD_BITS.

(** [++statCounters.field] for the [uintptr_t] fields. *)
Definition incr (get : PerReportStatCounters -> Z)
    (set : Z -> PerReportStatCounters -> PerReportStatCounters) : M unit :=
  modify (fun m =>
    set_statCounters (set (wrap (get (statCounters m) + 1)) (statCounters m)) m).

(** [getRandom], on the generator's globals.  The two calls of the 64-bit
    branch are taken left to right. *)
Definition getRandom (s : MTState) : Z * MTState :=
  if SYSWORD_BITS =? 64 then
    let (hi, s1) := genrand_int32 s in
    let (lo, s2) := genrand_int32 s1 in
    (Z.lxor (Z.shiftl hi 32) lo, s2)
  else genrand_int32 s.

(** A call [getRandom()] in the engine. *)
Definition draw : M Z :=
  fun m => let (r, s) := getRandom (rng m) in Some (r, set_rng s m).

(** *** Geometry *)

Definition X_EAST (x : Z) : Z := if x <? POND_SIZE_X - 1 then x + 1 else 0.
Definition X_WEST (x : Z) : Z := if negb (x =? 0) then x - 1 else POND_SIZE_X - 1.
Definition X_NONE (x : Z) : Z := x.
Definition Y_SOUTH (y : Z) : Z := if y <? POND_SIZE_Y - 1 then y + 1 else 0.
Definition Y_NORTH (y : Z) : Z := if negb (y =? 0) then y - 1 else POND_SIZE_Y - 1.
Definition Y_NONE (y : Z) : Z := y.

(** [getNeighbor] for [DIRECTIONS == 6]: the position of the cell whose
    address the source returns. *)
Definition getNeighbor (x y dir : Z) : option CellPtr :=
  d ← aget dirmap dir;
  Some
    (if negb (Z.land y 1 =? 0) then
       match d with
       | DIR_0 => (X_EAST x, Y_NORTH y)
       | DIR_1 => (X_EAST x, Y_NONE y)
       | DIR_2 => (X_EAST x, Y_SOUTH y)
       | DIR_3 => (X_NONE x, Y_SOUTH y)
       | DIR_4 => (X_WEST x, Y_NONE y)
       | DIR_5 => (X_NONE x, Y_NORTH y)
       | _ => (X_NONE x, Y_NONE y)
       end
     else
       match d with
       | DIR_0 => (X_NONE x, Y_NORTH y)
       | DIR_1 => (X_EAST x, Y_NONE y)
       | DIR_2 => (X_NONE x, Y_SOUTH y)
       | DIR_3 => (X_WEST x, Y_SOUTH y)
       | DIR_4 => (X_WEST x, Y_NONE y)
       | DIR_5 => (X_WEST x, Y_NORTH y)
       | _ => (X_NONE x, Y_NONE y)
       end).

(** *** Access oracle *)

Definition accessAllowed (c2 : CellPtr) (c1guess sense : Z) : M bool :=
  if negb (sense =? 0) then
    r <- draw;
    c <- load c2;
    b <- lift (aget BITS_IN_FIVEBIT_WORD (Z.land (Z.lxor (logo c) c1guess) 0x1f));
    ret ((b <=? Z.land r 0xf) || (parentID c =? 0))
  else
    r <- draw;
    c <- load c2;
    b <- lift (aget BITS_IN_FIVEBIT_WORD (Z.land (Z.lxor (logo c) c1guess) 0x1f));
    ret ((Z.land r 0xf <=? b) || (parentID c =? 0)).

(** *** Memory window *)

Definition read_mem (c : CellPtr) (x y ptr_mem : Z) : M Z :=
  match ptr_mem with
  | 0x00 =>
      incr memSpecialReads set_memSpecialReads ;;;
      cl <- load c; ret (u8 (logo cl))
  | 0x01 =>
      incr memSpecialReads set_memSpecialReads ;;;
      cl <- load c; ret (u8 (facing cl))
  | 0x02 =>
      incr memSpecialReads set_memSpecialReads ;;;
      cl <- load c;
      if energy cl =? 0 then ret 0
      else if 126975 <? energy cl then ret 31
      else ret (u8 (1 + Z.shiftr (energy cl) 12))
  | 0x03 => cl <- load c; ret (u8 (Z.land (lineage cl) REG_MASK))
  | 0x04 => cl <- load c; ret (u8 (Z.land (ID cl) REG_MASK))
  | 0x05 => cl <- load c; ret (u8 (Z.land (parentID cl) REG_MASK))
  | 0x06 => cl <- load c; ret (u8 (Z.land (Z.shiftr (generation cl) REG_BITS) REG_MASK))
  | 0x07 => cl <- load c; ret (u8 (Z.land (generation cl) REG_MASK))
  | 0x08 | 0x09 | 0x0a | 0x0b | 0x0c | 0x0d | 0x0e | 0x0f =>
      incr memPrivateReads set_memPrivateReads ;;;
      load_ram c (Z.land ptr_mem 0x7)
  | 0x10 | 0x11 | 0x12 | 0x13 | 0x14 | 0x15 | 0x16 | 0x17 =>
      incr memOutputReads set_memOutputReads ;;;
      load_ram c (8 + Z.land ptr_mem 0x7)
  | 0x18 | 0x19 | 0x1a | 0x1b | 0x1c | 0x1d | 0x1e | 0x1f =>
      incr memInputReads set_memInputReads ;;;
      cl <- load c;
      tmpptr <- lift (getNeighbor x y (facing cl));
      load_ram tmpptr (8 + Z.land ptr_mem 0x7)
  | _ => ret 0
  end.

Definition write_mem (c : CellPtr) (x y ptr_mem value : Z) : M unit :=
  match ptr_mem with
  | 0x00 =>
      incr memSpecialWrites set_memSpecialWrites ;;;
      update c (set_logo (Z.land value LOGO_MASK))
  | 0x01 =>
      incr memSpecialWrites set_memSpecialWrites ;;;
      update c (set_facing (Z.land value FACING_MASK))
  | 0x02 | 0x03 | 0x04 | 0x05 | 0x06 | 0x07 =>
      incr memSpecialWrites set_memSpecialWrites
  | 0x08 | 0x09 | 0x0a | 0x0b | 0x0c | 0x0d | 0x0e | 0x0f =>
      incr memPrivateWrites set_memPrivateWrites ;;;
      store_ram c (Z.land ptr_mem 0x7) (u8 (Z.land value REG_MASK))
  | 0x10 | 0x11 | 0x12 | 0x13 | 0x14 | 0x15 | 0x16 | 0x17 =>
      incr memOutputWrites set_memOutputWrites ;;;
      store_ram c (8 + Z.land ptr_mem 0x7) (u8 (Z.land value REG_MASK))
  | 0x18 | 0x19 | 0x1a | 0x1b | 0x1c | 0x1d | 0x1e | 0x1f =>
      incr memInputWrites set_memInputWrites ;;;
      cl <- load c;
      tmpptr <- lift (getNeighbor x y (facing cl));
      cl' <- load c;
      ok <- accessAllowed tmpptr (logo cl') 1;
      if ok then store_ram tmpptr (8 + Z.land ptr_mem 0x7) (u8 (Z.land value REG_MASK))
      else ret tt
  | _ => ret tt
  end.

(** *** The virtual machine: one iteration of the core execution loop *)

(** [pptr], the cell being executed. *)
Definition pptr : M CellPtr := gets (fun m => (x m, y m)).

(** [getNeighbor(x, y, pptr->facing)] *)
Definition faced : M CellPtr :=
  p <- pptr;
  c <- load p;
  lift (getNeighbor (fst p) (snd p) (facing c)).

(** The mutation block at the top of the loop body; the result is [inst]. *)
Definition mutate (inst : Z) : M Z :=
  r <- draw;
  if Z.land r 0xffffffff <? MUTATION_RATE then
    tmp <- draw;
    if negb (Z.land tmp 0x20000 =? 0) then
      if negb (Z.land tmp 0x10000 =? 0) then ret (Z.land tmp INST_MASK)
      else modify (set_reg (Z.land tmp REG_MASK)) ;;; ret inst
    else
      if negb (Z.land tmp 0x10000 =? 0) then
        modify (set_ptr_mem (Z.land tmp MEM_MASK)) ;;; ret inst
      else
        p <- pptr;
        store_ram p (Z.land (Z.shiftr tmp 8) RAM_MASK) (u8 (Z.land tmp REG_MASK)) ;;;
        ret inst
  else ret inst.

(** [--pptr->energy] *)
Definition debit : M unit :=
  p <- pptr;
  update p (fun c => set_energy (wrap (energy c - 1)) c).

(** [statCounters.instructionExecutions[inst] += 1.0] *)
Definition count_inst (inst : Z) : M unit :=
  ie <- gets (fun m => instructionExecutions (statCounters m));
  n <- lift (aget ie inst);
  ie' <- lift (aset ie inst (n + 1));
  modify (fun m => set_statCounters (set_instructionExecutions ie' (statCounters m)) m).

(** [reg = read_mem(pptr, x, y, ptr_mem)] without the assignment. *)
Definition read_window : M Z :=
  p <- pptr;
  mp <- gets ptr_mem;
  read_mem p (fst p) (snd p) mp.

Definition op_FWD : M unit :=
  io <- gets ptr_ioPtr;
  let io' := wrap (io + 1) in
  modify (set_ptr_ioPtr (if POND_DEPTH <=? io' then 0 else io')).

Definition op_BACK : M unit :=
  io <- gets ptr_ioPtr;
  if negb (io =? 0) then modify (set_ptr_ioPtr (wrap (io - 1)))
  else modify (set_ptr_ioPtr (POND_DEPTH - 1)).

Definition op_DIV : M unit :=
  tmp <- read_window;
  if negb (tmp =? 0) then
    r <- gets reg;
    d <- read_window;
    q <- lift (cdiv r d);
    modify (set_reg (Z.land q REG_MASK))
  else modify (set_reg 0).

Definition op_LOOP : M unit :=
  r <- gets reg;
  if negb (r =? 0) then
    sp <- gets loopStackPtr;
    if POND_DEPTH <=? sp then modify (set_stop true)
    else
      ip <- gets instPtr;
      ls <- gets loopStack;
      ls' <- lift (aset ls sp ip);
      modify (set_loopStack ls') ;;;
      modify (set_loopStackPtr (wrap (sp + 1)))
  else modify (set_falseLoopDepth 1).

(** The result is [true] when the case leaves by [continue]. *)
Definition op_REP : M bool :=
  sp <- gets loopStackPtr;
  if negb (sp =? 0) then
    modify (set_loopStackPtr (wrap (sp - 1))) ;;;
    r <- gets reg;
    if negb (r =? 0) then
      ls <- gets loopStack;
      ip <- lift (aget ls (wrap (sp - 1)));
      modify (set_instPtr ip) ;;;
      ret true
    else ret false
  else ret false.

Definition op_TURN : M unit :=
  p <- pptr;
  c <- load p;
  io <- gets ptr_ioPtr;
  if 2 <? generation c then
    tmpptr <- faced;
    n <- load tmpptr;
    r <- gets reg;
    ok <- (if 2 <? generation n then accessAllowed tmpptr r COMBINE_SENSE
           else ret false);
    if ok then
      rnd <- draw;
      v <- load_genome (if negb (Z.land rnd 0x8 =? 0) then p else tmpptr) io;
      modify (set_reg v)
    else
      v <- load_genome p io;
      modify (set_reg v)
  else
    v <- load_genome p io;
    modify (set_reg v).

Definition op_XCHG : M unit :=
  ip <- gets instPtr;
  let ip' := wrap (ip + 1) in
  let ip'' := if POND_DEPTH <=? ip' then EXEC_START_INST else ip' in
  modify (set_instPtr ip'') ;;;
  tmp <- gets reg;
  p <- pptr;
  v <- load_genome p ip'';
  modify (set_reg v) ;;;
  store_genome p ip'' (u8 (Z.land tmp INST_MASK)).

Definition op_KILL : M unit :=
  p <- pptr;
  tmpptr <- faced;
  r <- gets reg;
  ok <- accessAllowed tmpptr r 0;
  if ok then
    n <- load tmpptr;
    (if 2 <? generation n
     then incr viableCellsKilled set_viableCellsKilled
     else ret tt) ;;;
    g <- lift (afill (genome n) 0 (Z.to_nat POND_DEPTH) OP_STOP);
    update tmpptr (set_genome g) ;;;
    id <- gets cellIdCounter;
    update tmpptr (set_ID id) ;;;
    update tmpptr (set_parentID 0) ;;;
    update tmpptr (set_lineage id) ;;;
    update tmpptr (set_generation 0) ;;;
    update tmpptr (set_logo 0) ;;;
    update tmpptr (set_facing 0) ;;;
    modify (set_cellIdCounter (u64 (id + 1)))
  else
    n <- load tmpptr;
    if 2 <? generation n then
      c <- load p;
      tmp <- lift (cdiv (energy c) FAILED_KILL_PENALTY);
      if tmp <? energy c then update p (fun c => set_energy (wrap (energy c - tmp)) c)
      else update p (set_energy 0)
    else ret tt.

Definition op_SHARE : M unit :=
  p <- pptr;
  tmpptr <- faced;
  r <- gets reg;
  ok <- accessAllowed tmpptr r 1;
  if ok then
    n <- load tmpptr;
    (if 2 <? generation n
     then incr viableCellShares set_viableCellShares
     else ret tt) ;;;
    c <- load p;
    n0 <- load tmpptr;
    let tmp := wrap (energy c + energy n0) in
    update tmpptr (set_energy (tmp / 2)) ;;;
    n' <- load tmpptr;
    update p (set_energy (wrap (tmp - energy n')))
  else ret tt.

(** The [switch (inst)]; the result is [true] when the case leaves by
    [continue]. *)
Definition dispatch (inst : Z) : M bool :=
  match inst with
  | OP_SETP => r <- gets reg; modify (set_ptr_ioPtr r) ;;; ret false
  | OP_NEXTB =>
      mp <- gets ptr_mem; modify (set_ptr_mem (Z.land (wrap (mp + 8)) MEM_MASK)) ;;; ret false
  | OP_PREVB =>
      mp <- gets ptr_mem; modify (set_ptr_mem (Z.land (wrap (mp - 8)) MEM_MASK)) ;;; ret false
  | OP_NEXTM =>
      mp <- gets ptr_mem; modify (set_ptr_mem (Z.land (wrap (mp + 1)) MEM_MASK)) ;;; ret false
  | OP_PREVM =>
      mp <- gets ptr_mem; modify (set_ptr_mem (Z.land (wrap (mp - 1)) MEM_MASK)) ;;; ret false
  | OP_READM => v <- read_window; modify (set_reg v) ;;; ret false
  | OP_WRITEM =>
      p <- pptr; mp <- gets ptr_mem; r <- gets reg;
      write_mem p (fst p) (snd p) mp r ;;; ret false
  | OP_CLEARM =>
      p <- pptr;
      for_loop 0 (Z.to_nat RAM_SIZE) (fun i => store_ram p i 0x0) ;;; ret false
  | OP_ADD =>
      r <- gets reg; v <- read_window;
      modify (set_reg (Z.land (wrap (r + v)) REG_MASK)) ;;; ret false
  | OP_SUB =>
      r <- gets reg; v <- read_window;
      modify (set_reg (Z.land (wrap (r - v)) REG_MASK)) ;;; ret false
  | OP_MUL =>
      r <- gets reg; v <- read_window;
      modify (set_reg (Z.land (wrap (r * v)) REG_MASK)) ;;; ret false
  | OP_DIV => op_DIV ;;; ret false
  | OP_SHL =>
      r <- gets reg; modify (set_reg (Z.land (wrap (Z.shiftl r 1)) REG_MASK)) ;;; ret false
  | OP_SHR =>
      r <- gets reg; modify (set_reg (Z.land (Z.shiftr r 1) REG_MASK)) ;;; ret false
  | OP_SETMP => r <- gets reg; modify (set_ptr_mem (Z.land r MEM_MASK)) ;;; ret false
  | OP_RAND => r <- draw; modify (set_reg (Z.land r REG_MASK)) ;;; ret false
  | OP_ZERO => modify (set_reg 0) ;;; ret false
  | OP_FWD => op_FWD ;;; ret false
  | OP_BACK => op_BACK ;;; ret false
  | OP_INC => r <- gets reg; modify (set_reg (Z.land (wrap (r + 1)) REG_MASK)) ;;; ret false
  | OP_DEC => r <- gets reg; modify (set_reg (Z.land (wrap (r - 1)) REG_MASK)) ;;; ret false
  | OP_READG =>
      p <- pptr; io <- gets ptr_ioPtr; v <- load_genome p io;
      modify (set_reg v) ;;; ret false
  | OP_WRITEG =>
      p <- pptr; io <- gets ptr_ioPtr; r <- gets reg;
      store_genome p io (u8 (Z.land r INST_MASK)) ;;; ret false
  | OP_READO =>
      ob <- gets outputBuf; io <- gets ptr_ioPtr; v <- lift (aget ob io);
      modify (set_reg v) ;;; ret false
  | OP_WRITEO =>
      ob <- gets outputBuf; io <- gets ptr_ioPtr; r <- gets reg;
      ob' <- lift (aset ob io (u8 (Z.land r INST_MASK)));
      modify (set_outputBuf ob') ;;; ret false
  | OP_LOOP => op_LOOP ;;; ret false
  | OP_REP => op_REP
  | OP_TURN => op_TURN ;;; ret false
  | OP_XCHG => op_XCHG ;;; ret false
  | OP_KILL => op_KILL ;;; ret false
  | OP_SHARE => op_SHARE ;;; ret false
  | OP_STOP => modify (set_stop true) ;;; ret false
  | _ => ret false
  end.

(** The [if (falseLoopDepth) ... else ...] around the dispatch. *)
Definition execute (inst : Z) : M bool :=
  fl <- gets falseLoopDepth;
  if negb (fl =? 0) then
    (if inst =? 0x9 then modify (set_falseLoopDepth (wrap (fl + 1)))
     else if inst =? 0xa then modify (set_falseLoopDepth (wrap (fl - 1)))
     else ret tt) ;;;
    ret false
  else
    count_inst inst ;;;
    dispatch inst.

(** [if (++instPtr >= POND_DEPTH) instPtr = EXEC_START_INST;] *)
Definition advance : M unit :=
  ip <- gets instPtr;
  let ip' := wrap (ip + 1) in
  modify (set_instPtr (if POND_DEPTH <=? ip' then EXEC_START_INST else ip')).

(** The body of [while (pptr->energy && (!stop))]. *)
Definition step : M unit :=
  p <- pptr;
  ip <- gets instPtr;
  inst0 <- load_genome p ip;
  inst <- mutate inst0;
  debit ;;;
  continue <- execute inst;
  if continue then ret tt else advance.

(** The loop condition. *)
Definition running : M bool :=
  p <- pptr;
  c <- load p;
  st <- gets stop;
  ret (negb (energy c =? 0) && negb st).

(** The core execution loop, cut off after [fuel] iterations; the result
    is [true] when the loop has left by its condition. *)
Fixpoint run (fuel : nat) : M bool :=
  match fuel with
  | O => go <- running; ret (negb go)
  | S fuel' =>
      go <- running;
      if go then step ;;; run fuel' else ret true
  end.

(** *** Seeding, reproduction and the main loop *)

(** [p->ram[i] = getRandom() & REG_MASK] for every [i] ([CLEAR_RAM] is 0). *)
Definition randomize_ram (p : CellPtr) : M unit :=
  for_loop 0 (Z.to_nat RAM_SIZE)
    (fun i => r <- draw; store_ram p i (u8 (Z.land r REG_MASK))).

(** The block under [if (!(clock % INFLOW_FREQUENCY))]. *)
Definition seed : M unit :=
  rx <- draw; x' <- lift (cmod rx POND_SIZE_X); modify (set_x x') ;;;
  ry <- draw; y' <- lift (cmod ry POND_SIZE_Y); modify (set_y y') ;;;
  p <- pptr;
  id <- gets cellIdCounter;
  update p (set_ID id) ;;;
  update p (set_parentID 0) ;;;
  update p (set_lineage id) ;;;
  update p (set_generation 0) ;;;
  update p (set_logo 0) ;;;
  update p (set_facing 0) ;;;
  c <- load p;
  (if (CELL_ENERGY_CAP =? 0) || (energy c <? CELL_ENERGY_CAP) then
     r <- draw;
     v <- lift (cmod r INFLOW_RATE_VARIATION);
     update p (fun c => set_energy (wrap (energy c + (INFLOW_RATE_BASE + v))) c)
   else ret tt) ;;;
  modify (set_instPtr 0) ;;;
  for_loop 0 (Z.to_nat POND_DEPTH)
    (fun i => r <- draw; store_genome p i (u8 (Z.land r INST_MASK))) ;;;
  randomize_ram p ;;;
  id' <- gets cellIdCounter;
  modify (set_cellIdCounter (u64 (id' + 1))).

(** The block after the core execution loop. *)
Definition reproduce : M unit :=
  p <- pptr;
  c <- load p;
  if energy c =? 0 then ret tt
  else if (REPRODUCTION_COST <=? 0) || (REPRODUCTION_COST <=? energy c) then
    ob <- gets outputBuf;
    o0 <- lift (aget ob 0);
    if negb (o0 =? OP_STOP) then
      tmpptr <- faced;
      n <- load tmpptr;
      r <- gets reg;
      ok <- (if negb (energy n =? 0) then accessAllowed tmpptr r 0 else ret false);
      if ok then
        n1 <- load tmpptr;
        (if 2 <? generation n1
         then incr viableCellsReplaced set_viableCellsReplaced
         else ret tt) ;;;
        id <- gets cellIdCounter;
        modify (set_cellIdCounter (u64 (id + 1))) ;;;
        update tmpptr (set_ID (u64 (id + 1))) ;;;
        c1 <- load p; update tmpptr (set_parentID (ID c1)) ;;;
        c2 <- load p; update tmpptr (set_lineage (lineage c2)) ;;;
        c3 <- load p; update tmpptr (set_generation (wrap (generation c3 + 1))) ;;;
        update tmpptr (set_logo 0) ;;;
        update tmpptr (set_facing 0) ;;;
        n2 <- load tmpptr;
        g <- lift (acopy (genome n2) ob 0 (Z.to_nat POND_DEPTH));
        update tmpptr (set_genome g) ;;;
        randomize_ram tmpptr ;;;
        update p (fun c => set_energy (wrap (energy c - REPRODUCTION_COST)) c)
      else ret tt
    else ret tt
  else ret tt.

(** One iteration of the main loop, the core execution loop cut off after
    [fuel] iterations. *)
Definition tick (fuel : nat) : M bool :=
  ck <- gets clock;
  due <- lift (cmod ck INFLOW_FREQUENCY);
  (if due =? 0 then seed else ret tt) ;;;
  rx <- draw; x' <- lift (cmod rx POND_SIZE_X); modify (set_x x') ;;;
  ry <- draw; y' <- lift (cmod ry POND_SIZE_Y); modify (set_y y') ;;;
  ob <- gets outputBuf;
  ob' <- lift (afill ob 0 (Z.to_nat POND_DEPTH) OP_STOP);
  modify (set_outputBuf ob') ;;;
  modify (set_ptr_ioPtr 0) ;;;
  modify (set_loopStackPtr 0) ;;;
  modify (set_falseLoopDepth 0) ;;;
  modify (set_stop false) ;;;
  modify (set_reg 0) ;;;
  modify (set_instPtr EXEC_START_INST) ;;;
  modify (set_ptr_mem 0) ;;;
  modify (fun m => set_statCounters
            (set_cellExecutions (cellExecutions (statCounters m) + 1) (statCounters m)) m) ;;;
  done <- run fuel;
  reproduce ;;;
  modify (set_clock (u64 (ck + 1))) ;;;
  ret done.

End Engine.

(** ** Well-formed states and the program logic *)

Section Invariants.
Context `{Config}.

(** What the engine needs of its tunables. *)
Class ConfigOk : Prop := {
  pond_x_pos : 0 < POND_SIZE_X;
  pond_y_pos : 0 < POND_SIZE_Y;
  depth_holds_reg : 256 <= POND_DEPTH;
  depth_fits : POND_DEPTH < 2 ^ SYSWORD_BITS;
  word_bits : SYSWORD_BITS = 32 \/ SYSWORD_BITS = 64;
  penalty_pos : 0 < FAILED_KILL_PENALTY;
  inflow_freq_pos : 0 < INFLOW_FREQUENCY;
  inflow_var_pos : 0 < INFLOW_RATE_VARIATION
}.

(** A position inside the pond. *)
Definition valid (p : CellPtr) : Prop :=
  (0 <= fst p < POND_SIZE_X) /\ (0 <= snd p < POND_SIZE_Y).

(** The pond with the cell at [p] replaced. *)
Definition pond_put (pd : list (list Cell)) (p : CellPtr) (c : Cell)
  : list (list Cell) :=
  <[ Z.to_nat (fst p) := <[ Z.to_nat (snd p) := c ]> (pd !!! Z.to_nat (fst p)) ]> pd.

(** The invariants of a cell record: [logo] and [facing] masked to five
    bits, [genome] of [POND_DEPTH] five-bit codons, [ram] of [RAM_SIZE]
    bytes, [energy] a machine word. *)
Definition cell_ok (c : Cell) : Prop :=
  (0 <= logo c < 32) /\ (0 <= facing c < 32) /\
  (0 <= energy c < 2 ^ SYSWORD_BITS) /\
  length (genome c) = Z.to_nat POND_DEPTH /\
  Forall (fun v => 0 <= v < 32) (genome c) /\
  length (ram c) = Z.to_nat RAM_SIZE /\
  Forall (fun v => 0 <= v < 256) (ram c).

Definition pond_ok (pd : list (list Cell)) : Prop :=
  length pd = Z.to_nat POND_SIZE_X /\
  Forall (fun col => length col = Z.to_nat POND_SIZE_Y /\ Forall cell_ok col) pd.

(** The representable states of the machine: the arrays have their
    declared sizes, [reg] is an 8-bit value, the I/O and instruction
    pointers are below [POND_DEPTH], the memory pointer is a 5-bit value,
    the loop stack pointer is at most [POND_DEPTH] and the entries below
    it are instruction pointers. *)
Definition wf (m : Machine) : Prop :=
  pond_ok (pond m) /\
  length (instructionExecutions (statCounters m)) = Z.to_nat NUM_INST /\
  valid (x m, y m) /\
  length (outputBuf m) = Z.to_nat POND_DEPTH /\
  Forall (fun v => 0 <= v < 32) (outputBuf m) /\
  (0 <= ptr_ioPtr m < POND_DEPTH) /\
  (0 <= ptr_mem m < 32) /\
  (0 <= reg m < 256) /\
  (0 <= instPtr m < POND_DEPTH) /\
  length (loopStack m) = Z.to_nat POND_DEPTH /\
  (0 <= loopStackPtr m <= POND_DEPTH) /\
  Forall (fun v => 0 <= v < POND_DEPTH)
         (take (Z.to_nat (loopStackPtr m)) (loopStack m)) /\
  (0 <= falseLoopDepth m < 2 ^ SYSWORD_BITS).

(** [wp c Q m]: from [m], [c] runs without an out-of-bounds access and
    its result and final state satisfy [Q]. *)
Definition wp {A} (c : M A) (Q : A -> Machine -> Prop) (m : Machine) : Prop :=
  match c m with
  | Some (a, m') => Q a m'
  | None => False
  end.

End Invariants.

(** ** Reference values *)

(** The projection of the energy that the specification gives for
    address [0x02] of the memory window. *)
Definition compressed_energy (e : Z) : Z :=
  if e =? 0 then 0 else Z.min 31 (1 + Z.shiftr e 12).

(** A cell as [main] clears it before the main loop. *)
Definition cleared_cell `{Config} : Cell :=
  {| ID := 0; parentID := 0; lineage := 0; generation := 0; energy := 0;
     logo := 0; facing := 0;
     genome := replicate (Z.to_nat POND_DEPTH) OP_STOP;
     ram := replicate (Z.to_nat RAM_SIZE) 0 |}.

Definition cleared_stats : PerReportStatCounters :=
  {| instructionExecutions := replicate (Z.to_nat NUM_INST) 0;
     cellExecutions := 0; viableCellsReplaced := 0; viableCellsKilled := 0;
     viableCellShares := 0;
     memSpecialReads := 0; memPrivateReads := 0; memOutputReads := 0;
     memInputReads := 0;
     memSpecialWrites := 0; memPrivateWrites := 0; memOutputWrites := 0;
     memInputWrites := 0 |}.

(** The state in which [main] enters its main loop when [INIT_SEED] is
    [s]: the generator seeded and warmed up by 1024 calls of [getRandom],
    the counters and the pond cleared.  The locals of the virtual machine
    are not initialised in the source before the first tick resets them;
    they are zero here. *)
Definition initial `{Config} (s : Z) : Machine :=
  {| pond := replicate (Z.to_nat POND_SIZE_X)
               (replicate (Z.to_nat POND_SIZE_Y) cleared_cell);
     rng := Nat.iter 1024 (fun st => snd (getRandom st)) (init_genrand s);
     statCounters := cleared_stats;
     clock := 0;
     cellIdCounter := 0;
     x := 0; y := 0;
     outputBuf := replicate (Z.to_nat POND_DEPTH) OP_STOP;
     ptr_ioPtr := 0; ptr_mem := 0; reg := 0; instPtr := 0;
     loopStack := replicate (Z.to_nat POND_DEPTH) 0;
     loopStackPtr := 0; falseLoopDepth := 0; stop := false |}.

(** The pond with the cell at [p] replaced, in a machine state. *)
Definition with_cell `{Config} (p : CellPtr) (c : Cell) (m : Machine) : Machine :=
  set_pond (pond_put (pond m) p c) m.

(** The counters after one read, and after one write, of the memory
    window at address [a], as the specification describes them: every
    access increments the counter of the band of [a] -- special for
    [0x00..0x07], private for [0x08..0x0f], output for [0x10..0x17], input
    for [0x18..0x1f]. *)
Definition counted_read `{Config} (a : Z) (st : PerReportStatCounters)
  : PerReportStatCounters :=
  if a <? 0x08 then set_memSpecialReads (wrap (memSpecialReads st + 1)) st
  else if a <? 0x10 then set_memPrivateReads (wrap (memPrivateReads st + 1)) st
  else if a <? 0x18 then set_memOutputReads (wrap (memOutputReads st + 1)) st
  else set_memInputReads (wrap (memInputReads st + 1)) st.

Definition counted_write `{Config} (a : Z) (st : PerReportStatCounters)
  : PerReportStatCounters :=
  if a <? 0x08 then set_memSpecialWrites (wrap (memSpecialWrites st + 1)) st
  else if a <? 0x10 then set_memPrivateWrites (wrap (memPrivateWrites st + 1)) st
  else if a <? 0x18 then set_memOutputWrites (wrap (memOutputWrites st + 1)) st
  else set_memInputWrites (wrap (memInputWrites st + 1)) st.

(** What a loop that writes the genome or the RAM of the cell at [p],
    and draws from the generator, does to the state [m]: it keeps the
    invariant and every property [J] of that cell that does not depend on
    the genome or the RAM, changes nothing but the pond and the generator,
    and no cell but the one at [p]. *)
Definition scribbled `{Config} (p : CellPtr) (J : Cell -> Prop) (m m' : Machine)
  : Prop :=
  wf m' /\
  (exists pd s, m' = set_rng s (set_pond pd m)) /\
  (forall q, q <> p -> pond_get (pond m') q = pond_get (pond m) q) /\
  (exists c, pond_get (pond m') p = Some c /\ J c).

(** A cell as a seeding or a [KILL] reset that assigns the ID [id]
    leaves it. *)
Definition founder (id : Z) (c : Cell) : Prop :=
  ID c = id /\ lineage c = id /\ parentID c = 0 /\ generation c = 0 /\
  logo c = 0 /\ facing c = 0.

(** A cell as a birth leaves it: the child of [self], with the ID [id],
    the genome [g] and the energy the replaced cell [old] had. *)
Definition newborn `{Config} (id : Z) (self old : Cell) (g : list Z) (c : Cell)
  : Prop :=
  ID c = id /\ parentID c = ID self /\ lineage c = lineage self /\
  generation c = wrap (generation self + 1) /\
  logo c = 0 /\ facing c = 0 /\ genome c = g /\ energy c = energy old.

(** ** Vocabulary of the loop properties *)

Section LoopVocabulary.
Context `{Config}.

(** The mutation test of the next iteration fails: the word drawn is not
    below [MUTATION_RATE]. *)
Definition quiet (m : Machine) : Prop :=
  MUTATION_RATE <= Z.land (fst (getRandom (rng m))) 0xffffffff.

(** The state after the fetch, a failed mutation test and the energy
    debit of an iteration, [c] being the executing cell. *)
Definition charged (c : Cell) (m : Machine) : Machine :=
  set_pond (pond_put (pond m) (x m, y m) (set_energy (wrap (energy c - 1)) c))
           (set_rng (snd (getRandom (rng m))) m).

(** The instruction pointer after [if (++instPtr >= POND_DEPTH) ...]. *)
Definition next_ip (ip : Z) : Z :=
  if POND_DEPTH <=? wrap (ip + 1) then EXEC_START_INST else wrap (ip + 1).

(** The false-loop depth after an instruction met while skipping. *)
Definition skip_depth (inst d : Z) : Z :=
  if inst =? OP_LOOP then wrap (d + 1)
  else if inst =? OP_REP then wrap (d - 1)
  else d.

(** [n] iterations of the body of the core execution loop. *)
Fixpoint steps (n : nat) : M unit :=
  match n with
  | O => ret tt
  | S n' => step ;;; steps n'
  end.

(** The number of instructions of [code] that a skip of depth [d]
    consumes, the matching [REP] included; nothing when [code] ends
    before the matching [REP]. *)
Fixpoint skip_length (code : list Z) (d : Z) : option nat :=
  match code with
  | [] => None
  | inst :: rest =>
      if skip_depth inst d =? 0 then Some 1%nat
      else S <$> skip_length rest (skip_depth inst d)
  end.

(** The generator after [n] calls of [getRandom]. *)
Fixpoint drawn (n : nat) (s : MTState) : MTState :=
  match n with
  | O => s
  | S n' => drawn n' (snd (getRandom s))
  end.

(** The mutation tests of the next [n] iterations fail, when nothing
    else draws from the generator [s] in between. *)
Fixpoint quiet_for (n : nat) (s : MTState) : Prop :=
  match n with
  | O => True
  | S n' =>
      MUTATION_RATE <= Z.land (fst (getRandom s)) 0xffffffff /\
      quiet_for n' (snd (getRandom s))
  end.

(** The state after [statCounters.instructionExecutions[inst] += 1.0]. *)
Definition counted (inst : Z) (m : Machine) : Machine :=
  let ie := instructionExecutions (statCounters m) in
  set_statCounters
    (set_instructionExecutions
       (<[Z.to_nat inst := ie !!! Z.to_nat inst + 1]> ie) (statCounters m)) m.

(** The state [n] iterations after [m] when each of them has charged the
    executing cell [c] one unit of energy, failed its mutation test and
    advanced the instruction pointer, and the last has closed the skip. *)
Definition skipped (n : nat) (c : Cell) (m : Machine) : Machine :=
  set_instPtr (next_ip (instPtr m + Z.of_nat n - 1))
    (set_falseLoopDepth 0
       (set_pond (pond_put (pond m) (x m, y m)
                    (set_energy (wrap (energy c - Z.of_nat n)) c))
          (set_rng (drawn n (rng m)) m))).

End LoopVocabulary.

(** ** Cell IDs *)

(** The three places of [main] that assign a cell ID. *)
Inductive IdEvent : Type :=
  | Seeding    (* [pptr->ID = cellIdCounter; ...; ++cellIdCounter;] *)
  | KillReset  (* [tmpptr->ID = cellIdCounter; ...; ++cellIdCounter;] *)
  | Birth.     (* [tmpptr->ID = ++cellIdCounter;] *)

(** The ID an event assigns, and [cellIdCounter] after the event. *)
Definition assign_id (e : IdEvent) (counter : Z) : Z * Z :=
  match e with
  | Seeding | KillReset => (counter, u64 (counter + 1))
  | Birth => (u64 (counter + 1), u64 (counter + 1))
  end.

(** The IDs a sequence of events assigns, in order. *)
Fixpoint assigned_ids (events : list IdEvent) (counter : Z) : list Z :=
  match events with
  | [] => []
  | e :: rest =>
      fst (assign_id e counter) :: assigned_ids rest (snd (assign_id e counter))
  end.

(** [cellIdCounter] after a sequence of events. *)
Fixpoint counter_after (events : list IdEvent) (counter : Z) : Z :=
  match events with
  | [] => counter
  | e :: rest => counter_after rest (snd (assign_id e counter))
  end.

(** [n] iterations of the main loop, each core execution loop cut off
    after [fuel] iterations; nothing when a core execution loop needs
    more than [fuel]. *)
Fixpoint main_loop `{Config} (n fuel : nat) (m : Machine) : option Machine :=
  match n with
  | O => Some m
  | S n' =>
      match tick fuel m with
      | Some (true, m') => main_loop n' fuel m'
      | _ => None
      end
  end.

(** ** Example states *)

(** A 4x4 pond on a 64-bit target. *)
Definition pond4 : Config := small_pond 4 4 64.

(** A 2x2 pond seeded at every tick, on a 64-bit target. *)
Definition pond2 : Config := {|
  POND_SIZE_X := 2;
  POND_SIZE_Y := 2;
  POND_DEPTH := 512;
  MUTATION_RATE := 100000;
  INFLOW_FREQUENCY := 1;
  INFLOW_RATE_BASE := 2000;
  INFLOW_RATE_VARIATION := 4000;
  CELL_ENERGY_CAP := 10000;
  FAILED_KILL_PENALTY := 3;
  REPRODUCTION_COST := 20;
  SYSWORD_BITS := 64
|}.

(** A cell with a given energy, generation, parent and genome prefix,
    everything else cleared. *)
Definition cell_with (e gen pid : Z) (code : list Z) : Cell :=
  {| ID := 0; parentID := pid; lineage := 0; generation := gen; energy := e;
     logo := 0; facing := 0;
     genome := code ++ replicate (512 - length code) OP_STOP;
     ram := [1; 2; 3; 4; 5; 6; 7; 8; 9; 10; 11; 12; 13; 14; 15; 16] |}.

(** The 4x4 pond with the cell [a] at (0, 0), about to execute with [r]
    in the register, and the cell [b] at (0, 3), the cell that [a] faces. *)
Definition arena (a b : Cell) (r : Z) : Machine :=
  set_reg r
    (@with_cell pond4 (0, 0) a (@with_cell pond4 (0, 3) b (@initial pond4 1))).

(** A viable cell with a parent and 90 units of energy. *)
Definition attacker : Cell := cell_with 90 3 1 [].

(** A viable cell with a parent and 50 units of energy. *)
Definition victim : Cell := cell_with 50 3 7 [].

(** A cell without a parent, as seeding leaves them. *)
Definition orphan : Cell := cell_with 4 0 0 [].

(** A cell with 11 units of energy. *)
Definition sharer : Cell := cell_with 11 3 1 [].

(** A cell whose genome starts [LOOP; INC; REP]. *)
Definition looper : Cell := cell_with 5000 3 1 [OP_LOOP; OP_INC; OP_REP].

(** ** The neighbour self-test of [main] *)

Section NeighborTest.
Context `{Config}.

(** The arguments [(dir, xo, yo)] of the six [TEST_DIR] lines that the
    block under [#if TEST_NEIGHBOR] runs at [(x, y)]. *)
Definition test_dirs (y : Z) : list (Z * Z * Z) :=
  if negb (Z.land y 1 =? 0) then
    [ (DIR_0, 1, -1); (DIR_1, 1, 0); (DIR_2, 1, 1);
      (DIR_3, 0, 1); (DIR_4, -1, 0); (DIR_5, 0, -1) ]
  else
    [ (DIR_0, 0, -1); (DIR_1, 1, 0); (DIR_2, 0, 1);
      (DIR_3, -1, 1); (DIR_4, -1, 0); (DIR_5, -1, -1) ].

(** The condition of [TEST_DIR(dir, x, y, xo, yo)]: [true] when the
    neighbour is not the cell at the given offset. *)
Definition TEST_DIR (x y : Z) (t : Z * Z * Z) : bool :=
  let '(dir, xo, yo) := t in
  bool_decide
    (getNeighbor x y dir
     <> Some (wrap (POND_SIZE_X + x + xo) mod POND_SIZE_X,
              wrap (POND_SIZE_Y + y + yo) mod POND_SIZE_Y)).

(** The value [main] returns from the block under [#if TEST_NEIGHBOR]. *)
Definition TEST_NEIGHBOR : Z :=
  if existsb
       (fun y => existsb (fun x => existsb (TEST_DIR x y) (test_dirs y))
                         (seqZ 0 POND_SIZE_X))
       (seqZ 0 POND_SIZE_Y)
  then 1 else 0.

End NeighborTest.

(** ** Hamming weight *)

(** The number of bits set among the five low bits of [v]. *)
Definition popcount5 (v : Z) : Z :=
  Z.b2z (Z.testbit v 0) + Z.b2z (Z.testbit v 1) + Z.b2z (Z.testbit v 2) +
  Z.b2z (Z.testbit v 3) + Z.b2z (Z.testbit v 4).

(** ** The invariant of the generator *)

(** [mt] has its [N] words, each a 32-bit value, and [mti] is an index
    into it or [N]. *)
Definition mt_ok (s : MTState) : Prop :=
  length (mt s) = MT_N /\
  Forall (fun v => 0 <= v < 2 ^ 32) (mt s) /\
  0 <= mti s <= Z.of_nat MT_N.

(** The words of [mt]. *)
Definition words_ok (a : list Z) : Prop :=
  length a = MT_N /\ Forall (fun v => 0 <= v < 2 ^ 32) a.

(** ** Energy accounting *)

Definition Zsum (l : list Z) : Z := foldr Z.add 0 l.

(** The energy of every cell of the pond, column by column. *)
Definition energies (pd : list (list Cell)) : list (list Z) :=
  (fun col : list Cell => energy <$> col) <$> pd.

(** The energy in the pond. *)
Definition total_energy (pd : list (list Cell)) : Z := Zsum (Zsum <$> energies pd).

(** No cell has a negative energy. *)
Definition energies_nonneg (pd : list (list Cell)) : Prop :=
  Forall (Forall (fun e => 0 <= e)) (energies pd).

(** [m'] differs from [m] in nothing that concerns the energy: the energy
    of every cell and the cell selected are the same, and the generator
    has kept its invariant. *)
Definition energy_eq (m m' : Machine) : Prop :=
  energies (pond m') = energies (pond m) /\
  x m' = x m /\ y m' = y m /\
  (mt_ok (rng m) -> mt_ok (rng m')).

(** From [m] to [m'] the energy in the pond has grown by [k] at most, and
    the generator has kept its invariant. *)
Definition grows (k : Z) (m m' : Machine) : Prop :=
  (energies_nonneg (pond m) ->
   energies_nonneg (pond m') /\
   total_energy (pond m') <= total_energy (pond m) + k) /\
  (mt_ok (rng m) -> mt_ok (rng m')).

(** [post c Q m]: if [c] runs from [m] without an out-of-bounds access,
    its result and final state satisfy [Q]. *)
Definition post {A} (c : M A) (Q : A -> Machine -> Prop) (m : Machine) : Prop :=
  forall a m', c m = Some (a, m') -> Q a m'.

(** Every run of [c] relates its initial and final states by [R]. *)
Definition follows {A} (R : Machine -> Machine -> Prop) (c : M A) : Prop :=
  forall m, post c (fun _ m' => R m m') m.

(** The most energy a seeding adds to the pond, and the most that the
    iteration of the main loop at clock [ck] adds: the inflow of a seeding
    when one is due, nothing otherwise. *)
Definition INFLOW_MAX `{Config} : Z := INFLOW_RATE_BASE + INFLOW_RATE_VARIATION - 1.

Definition inflow `{Config} (ck : Z) : Z :=
  if ck mod INFLOW_FREQUENCY =? 0 then INFLOW_MAX else 0.

(** ** Consecutive instructions *)

(** The dispatch of [a] followed by the dispatch of [b], as two
    consecutive iterations of the core execution loop run them. *)
Definition dispatch2 `{Config} (a b : Z) : M bool :=
  dispatch a ;;; dispatch b.

(** ** The observers: colours, reports and dumps *)

(** The anonymous [enum] of colour schemes. *)
Inductive ColorScheme : Type :=
  | KINSHIP | LINEAGE | LOGO | FACING | ENERGY1 | ENERGY2 | RAM0 | RAM1
  | MAX_COLOR_SCHEME.

(** The globals that only the observers write, and the [static] local
    of [doReport]. *)
Record Observer := Build_Observer {
  colorScheme : ColorScheme;
  totalEnergy : Z;
  maxCellEnergy : Z;
  maxLivingCellEnergy : Z;
  lastTotalViableReplicators : Z
}.

(** [inst_chars], as the bytes of the string and its terminator. *)
Definition inst_chars : list Z :=
  [ 48; 49; 50; 51; 52; 53; 54; 55; 56; 57;
    97; 98; 99; 100; 101; 102; 103; 104; 105; 106; 107; 108; 109; 110; 111; 112;
    113; 114; 115; 116; 117; 118; 0 ].

Section Observers.
Context `{Config}.

(** [(uint8_t)(255.0 * ((double)e / (double)top))], the one expression
    of the observers computed in floating point; the schemes that use it
    are stated for any value of it. *)
Variable shade : Z -> Z -> Z.

(** [for (i = from; i < from + n; ++i) sum += a[i];] in [uintptr_t]. *)
Fixpoint sum_loop (a : list Z) (from : Z) (n : nat) (sum : Z) : option Z :=
  match n with
  | O => Some sum
  | S n' => v ← aget a from; sum_loop a (from + 1) n' (wrap (sum + v))
  end.

(** [getColor]. *)
Definition getColor (o : Observer) (c : Cell) : option Z :=
  if negb (energy c =? 0) then
    match colorScheme o with
    | KINSHIP =>
        if 1 <? generation c then
          sum ← sum_loop (genome c) 0 (Z.to_nat POND_DEPTH) 0;
          Some (u8 (sum mod 192 + 64))
        else Some 0
    | LINEAGE =>
        Some (if 1 <? generation c then Z.lor (u8 (lineage c)) 1 else 0)
    | LOGO =>
        Some (if 1 <? generation c then u8 (wrap (73 + logo c)) else 0)
    | FACING =>
        Some (if 1 <? generation c then u8 (wrap (157 + facing c)) else 0)
    | ENERGY1 =>
        Some (if (1 <? generation c) && (0 <? maxLivingCellEnergy o)
              then shade (energy c) (maxLivingCellEnergy o) else 0)
    | ENERGY2 =>
        Some (if 0 <? maxCellEnergy o then shade (energy c) (maxCellEnergy o) else 0)
    | RAM0 =>
        if 1 <? generation c then
          sum ← sum_loop (ram c) 0 8 0;
          Some (u8 (Z.land sum 0x7f + 128))
        else Some 0
    | RAM1 =>
        if 1 <? generation c then
          sum ← sum_loop (ram c) 8 8 0;
          Some (u8 (Z.land sum 0x7f + 128))
        else Some 0
    | MAX_COLOR_SCHEME => Some 0
    end
  else Some 0.

(** The locals of [doReport] and the three globals it recomputes. *)
Record Tally := Build_Tally {
  totalActiveCells : Z;
  totalLivingCells : Z;
  totalViableReplicators : Z;
  totalLivingEnergy : Z;
  totalViableEnergy : Z;
  maxGeneration : Z;
  t_totalEnergy : Z;
  t_maxCellEnergy : Z;
  t_maxLivingCellEnergy : Z
}.

Definition empty_tally : Tally := Build_Tally 0 0 0 0 0 0 0 0 0.

(** The body of the two loops of [doReport], for the cell [c]. *)
Definition tally_cell (t : Tally) (c : Cell) : Tally :=
  if negb (energy c =? 0) then
    let living := 1 <? generation c in
    let viable := living && (2 <? generation c) in
    {| totalActiveCells := u64 (totalActiveCells t + 1);
       t_totalEnergy := wrap (t_totalEnergy t + energy c);
       t_maxCellEnergy :=
         if t_maxCellEnergy t <? energy c then energy c else t_maxCellEnergy t;
       totalLivingCells :=
         if living then u64 (totalLivingCells t + 1) else totalLivingCells t;
       totalLivingEnergy :=
         if living then u64 (totalLivingEnergy t + energy c) else totalLivingEnergy t;
       t_maxLivingCellEnergy :=
         if living && (t_maxLivingCellEnergy t <? energy c)
         then energy c else t_maxLivingCellEnergy t;
       totalViableReplicators :=
         if viable then u64 (totalViableReplicators t + 1) else totalViableReplicators t;
       totalViableEnergy :=
         if viable then u64 (totalViableEnergy t + energy c) else totalViableEnergy t;
       maxGeneration :=
         if maxGeneration t <? generation c then generation c else maxGeneration t |}
  else t.

(** [for (y = from; y < from + n; ++y) body(&pond[x][y]);] *)
Fixpoint scan_column {T} (body : T -> Cell -> T) (pd : list (list Cell))
    (x from : Z) (n : nat) (t : T) : option T :=
  match n with
  | O => Some t
  | S n' => c ← pond_get pd (x, from); scan_column body pd x (from + 1) n' (body t c)
  end.

(** [for (x = from; x < from + n; ++x) for (y = 0; y < POND_SIZE_Y; ++y) ...] *)
Fixpoint scan_pond {T} (body : T -> Cell -> T) (pd : list (list Cell))
    (from : Z) (n : nat) (t : T) : option T :=
  match n with
  | O => Some t
  | S n' =>
      t' ← scan_column body pd from 0 (Z.to_nat POND_SIZE_Y) t;
      scan_pond body pd (from + 1) n' t'
  end.

(** The two messages [doReport] can write to [stderr]. *)
Inductive ReportEvent : Type := Extinct | Appeared.

(** [doReport]: the tally whose integer columns the line shows -- the
    line also shows the counters of [statCounters] as they are on entry
    -- the message written, if any, and the state it leaves. *)
Definition doReport (m : Machine) (o : Observer)
  : option (Tally * option ReportEvent * Machine * Observer) :=
  t ← scan_pond tally_cell (pond m) 0 (Z.to_nat POND_SIZE_X) empty_tally;
  let event :=
    if (0 <? lastTotalViableReplicators o) && (totalViableReplicators t =? 0)
    then Some Extinct
    else if (lastTotalViableReplicators o =? 0) && (0 <? totalViableReplicators t)
    then Some Appeared
    else None in
  Some (t, event, set_statCounters cleared_stats m,
        {| colorScheme := colorScheme o;
           totalEnergy := t_totalEnergy t;
           maxCellEnergy := t_maxCellEnergy t;
           maxLivingCellEnergy := t_maxLivingCellEnergy t;
           lastTotalViableReplicators := totalViableReplicators t |}).

(** What [dumpCell] passes to [fprintf]: a number for a [%ju]
    conversion, a byte for a [%c] conversion or a literal character. *)
Inductive Printed : Type :=
  | Num (n : Z)
  | Chr (b : Z).

(** The loop of [dumpCell] over the genome. *)
Fixpoint dump_genome (g : list Z) (from : Z) (n : nat) (stopCount : Z)
  : option (list Printed) :=
  match n with
  | O => Some []
  | S n' =>
      inst ← aget g from;
      let stopCount' := if inst =? OP_STOP then wrap (stopCount + 1) else 0 in
      out ← (if stopCount' <? 5 then
               if 1 <? stopCount' then Some [Chr 46]
               else b ← aget inst_chars inst; Some [Chr b]
             else Some []);
      rest ← dump_genome g (from + 1) n' stopCount';
      Some (out ++ rest)
  end.

(** [dumpCell]: the line written for [cell]. *)
Definition dumpCell (cell : Cell) : option (list Printed) :=
  lg ← aget inst_chars (logo cell);
  fc ← aget inst_chars (facing cell);
  g ← dump_genome (genome cell) 0 (Z.to_nat POND_DEPTH) 0;
  Some ([ Num (ID cell); Chr 44; Num (parentID cell); Chr 44; Num (lineage cell);
          Chr 44; Num (generation cell); Chr 44; Chr lg; Chr 44; Chr fc;
          Chr 44 ] ++ g ++ [Chr 10]).

(** The body of the loops of [doDump]: the lines written so far. *)
Definition dump_cell_if_viable (lines : option (list (list Printed))) (c : Cell)
  : option (list (list Printed)) :=
  if negb (energy c =? 0) && (2 <? generation c) then
    ls ← lines; l ← dumpCell c; Some (ls ++ [l])
  else lines.

(** [doDump]: the lines of the file, or nothing written when the file
    cannot be opened ([opened] is the result of [fopen]). *)
Definition doDump (opened : bool) (pd : list (list Cell))
  : option (list (list Printed)) :=
  if opened then
    r ← scan_pond dump_cell_if_viable pd 0 (Z.to_nat POND_SIZE_X) (Some []); r
  else Some [].

End Observers.

(** The cells the report counts: those with energy, those of them past
    generation 1, and those of them past generation 2. *)
Definition active (c : Cell) : Prop := energy c <> 0.
Definition living (c : Cell) : Prop := energy c <> 0 /\ 1 < generation c.
Definition viable (c : Cell) : Prop := energy c <> 0 /\ 2 < generation c.

#[global] Instance active_dec (c : Cell) : Decision (active c) :=
  decide (energy c <> 0).
#[global] Instance living_dec (c : Cell) : Decision (living c) :=
  decide (energy c <> 0 /\ 1 < generation c).
#[global] Instance viable_dec (c : Cell) : Decision (viable c) :=
  decide (energy c <> 0 /\ 2 < generation c).

(** The number of elements of [l] that satisfy [P]. *)
Definition count_of {A} (P : A -> Prop) `{!forall x, Decision (P x)} (l : list A) : Z :=
  Z.of_nat (length (filter P l)).

(** What the tally of the cells [l] holds: the three counts, and the two
    maxima of the energy. *)
Definition tally_of (l : list Cell) (t : Tally) : Prop :=
  totalActiveCells t = count_of active l /\
  totalLivingCells t = count_of living l /\
  totalViableReplicators t = count_of viable l /\
  Forall (fun c => energy c <= t_maxCellEnergy t) l /\
  Forall (fun c => living c -> energy c <= t_maxLivingCellEnergy t) l /\
  (t_maxCellEnergy t = 0 \/ exists c, c ∈ l /\ energy c = t_maxCellEnergy t) /\
  0 <= t_maxLivingCellEnergy t <= t_maxCellEnergy t.

(** * Properties *)

Section ArrayFacts.
Context {A : Type}.
Implicit Types (a : list A) (i j : Z) (v : A).

Lemma aget_lookup a i : 0 <= i -> aget a i = a !! Z.to_nat i.
Proof. intros Hi. unfold aget. destruct (Z.leb_spec 0 i); [done | lia]. Qed.

Lemma aget_Some_bounds a i v : aget a i = Some v -> 0 <= i < Z.of_nat (length a).
Proof.
  unfold aget. destruct (Z.leb_spec 0 i) as [Hi|Hi]; [|discriminate].
  intros Hl. apply lookup_lt_Some in Hl. lia.
Qed.

Lemma aget_in_bounds a i :
  0 <= i < Z.of_nat (length a) -> exists v, aget a i = Some v.
Proof.
  intros [Hi Hl]. rewrite aget_lookup by done.
  destruct (lookup_lt_is_Some_2 a (Z.to_nat i)) as [v Hv]; [lia | eauto].
Qed.

Lemma aget_Forall (P : A -> Prop) a i v : Forall P a -> aget a i = Some v -> P v.
Proof.
  intros Hall Hg. pose proof (aget_Some_bounds _ _ _ Hg) as [Hi _].
  rewrite aget_lookup in Hg by done. eapply Forall_lookup_1; eauto.
Qed.

Lemma aset_in_bounds a i v :
  0 <= i < Z.of_nat (length a) -> aset a i v = Some (<[Z.to_nat i := v]> a).
Proof.
  intros [Hi Hl]. unfold aset.
  destruct (Z.leb_spec 0 i); [|lia]. destruct (Z.ltb_spec i (Z.of_nat (length a))); [done | lia].
Qed.

Lemma aset_Some a i v a' :
  aset a i v = Some a' ->
  0 <= i < Z.of_nat (length a) /\ a' = <[Z.to_nat i := v]> a.
Proof.
  unfold aset. destruct (Z.leb_spec 0 i); [|discriminate].
  destruct (Z.ltb_spec i (Z.of_nat (length a))); [|discriminate].
  intros [= <-]. auto.
Qed.

Lemma aget_insert a i j v :
  0 <= i < Z.of_nat (length a) ->
  aget (<[Z.to_nat i := v]> a) j = if decide (j = i) then Some v else aget a j.
Proof.
  intros [Hi Hl]. destruct (Z.le_gt_cases 0 j) as [Hj|Hj].
  - rewrite !aget_lookup by done.
    destruct (decide (j = i)) as [->|Hne].
    + apply list_lookup_insert_eq. lia.
    + apply list_lookup_insert_ne. lia.
  - unfold aget. destruct (Z.leb_spec 0 j); [lia|].
    destruct (decide (j = i)); [lia | done].
Qed.

Lemma afill_spec a (k n : nat) v :
  (k + n <= length a)%nat ->
  afill a (Z.of_nat k) n v = Some (take k a ++ replicate n v ++ drop (k + n) a).
Proof.
  revert a k. induction n as [|n IH]; intros a k Hl; simpl.
  - by rewrite Nat.add_0_r, take_drop.
  - rewrite aset_in_bounds by lia. simpl. rewrite Nat2Z.id.
    replace (Z.of_nat k + 1) with (Z.of_nat (S k)) by lia.
    rewrite IH by (rewrite length_insert; lia). f_equal.
    rewrite take_insert_lt by lia.
    rewrite drop_insert_lt by lia.
    replace (S k + n)%nat with (k + S n)%nat by lia.
    assert (Hk : (k < length a)%nat) by lia.
    destruct (lookup_lt_is_Some_2 a k Hk) as [w Hw].
    rewrite (take_S_r _ _ _ Hw).
    rewrite insert_app_r_alt by (rewrite length_take; lia).
    rewrite length_take, Nat.min_l, Nat.sub_diag by lia. simpl.
    by rewrite <- app_assoc.
Qed.

Lemma afill_all a (n : nat) v : length a = n -> afill a 0 n v = Some (replicate n v).
Proof.
  intros Hl. change 0 with (Z.of_nat 0). rewrite afill_spec by (simpl; lia).
  simpl. rewrite drop_ge by lia. by rewrite app_nil_r.
Qed.

Lemma acopy_spec (dst src : list A) (k n : nat) :
  (k + n <= length dst)%nat -> (k + n <= length src)%nat ->
  acopy dst src (Z.of_nat k) n
  = Some (take k dst ++ take n (drop k src) ++ drop (k + n) dst).
Proof.
  revert dst k. induction n as [|n IH]; intros dst k Hd Hs; simpl.
  - by rewrite Nat.add_0_r, take_drop.
  - assert (Hk : (k < length src)%nat) by lia.
    destruct (lookup_lt_is_Some_2 src k Hk) as [w Hw].
    rewrite aget_lookup, Nat2Z.id, Hw by lia. simpl.
    rewrite aset_in_bounds by lia. simpl. rewrite Nat2Z.id.
    replace (Z.of_nat k + 1) with (Z.of_nat (S k)) by lia.
    rewrite IH by (rewrite ?length_insert; lia). f_equal.
    rewrite take_insert_lt by lia.
    rewrite drop_insert_lt by lia.
    replace (S k + n)%nat with (k + S n)%nat by lia.
    assert (Hk' : (k < length dst)%nat) by lia.
    destruct (lookup_lt_is_Some_2 dst k Hk') as [w' Hw'].
    rewrite (take_S_r _ _ _ Hw').
    rewrite insert_app_r_alt by (rewrite length_take; lia).
    rewrite length_take, Nat.min_l, Nat.sub_diag by lia. simpl.
    rewrite <- app_assoc. simpl. do 2 f_equal.
    by rewrite (drop_S _ _ _ Hw).
Qed.

Lemma acopy_all (dst src : list A) (n : nat) :
  length dst = n -> length src = n -> acopy dst src 0 n = Some src.
Proof.
  intros Hd Hs. change 0 with (Z.of_nat 0). rewrite acopy_spec by (simpl; lia).
  simpl. rewrite (drop_ge dst) by lia. rewrite app_nil_r, drop_0.
  by rewrite take_ge by lia.
Qed.

End ArrayFacts.

Lemma range32 (i : Z) :
  0 <= i < 32 ->
  i = 0 \/ i = 1 \/ i = 2 \/ i = 3 \/ i = 4 \/ i = 5 \/ i = 6 \/ i = 7 \/
  i = 8 \/ i = 9 \/ i = 10 \/ i = 11 \/ i = 12 \/ i = 13 \/ i = 14 \/ i = 15 \/
  i = 16 \/ i = 17 \/ i = 18 \/ i = 19 \/ i = 20 \/ i = 21 \/ i = 22 \/ i = 23 \/
  i = 24 \/ i = 25 \/ i = 26 \/ i = 27 \/ i = 28 \/ i = 29 \/ i = 30 \/ i = 31.
Proof. lia. Qed.

(** Case analysis on a five-bit value. *)
Ltac cases32 H :=
  apply range32 in H;
  repeat (destruct H as [H|H]; [subst | ]); [ .. | subst ].

Lemma land_mask_bounds (v : Z) (k : Z) :
  0 <= k -> 0 <= Z.land v (2 ^ k - 1) < 2 ^ k.
Proof.
  intros Hk. replace (2 ^ k - 1) with (Z.ones k) by (rewrite Z.ones_equiv; lia).
  rewrite Z.land_ones by done. apply Z.mod_pos_bound. lia.
Qed.

Lemma land31 v : 0 <= Z.land v 31 < 32.
Proof. apply (land_mask_bounds v 5). lia. Qed.

Lemma land255 v : 0 <= Z.land v 255 < 256.
Proof. apply (land_mask_bounds v 8). lia. Qed.

Lemma land15 v : 0 <= Z.land v 15 < 16.
Proof. apply (land_mask_bounds v 4). lia. Qed.

Lemma land7 v : 0 <= Z.land v 7 < 8.
Proof. apply (land_mask_bounds v 3). lia. Qed.

Lemma u8_bounds v : 0 <= u8 v < 256.
Proof. unfold u8. apply Z.mod_pos_bound. lia. Qed.

Lemma u8_small v : 0 <= v < 256 -> u8 v = v.
Proof. intros Hv. unfold u8. apply Z.mod_small. lia. Qed.

Lemma u8_inst v : 0 <= u8 (Z.land v INST_MASK) < 32.
Proof.
  change INST_MASK with 31. pose proof (land31 v). rewrite u8_small; lia.
Qed.

Section PondFacts.
Context `{Config}.
Implicit Types (pd : list (list Cell)) (p q : CellPtr) (c : Cell) (m : Machine).

Lemma wrap_bounds `{!ConfigOk} v : 0 <= wrap v < 2 ^ SYSWORD_BITS.
Proof.
  unfold wrap. apply Z.mod_pos_bound.
  destruct word_bits as [-> | ->]; lia.
Qed.

Lemma wrap_small v : 0 <= v < 2 ^ SYSWORD_BITS -> wrap v = v.
Proof. intros Hv. unfold wrap. by apply Z.mod_small. Qed.

Lemma pond_get_Some pd p c :
  pond_get pd p = Some c ->
  exists col, aget pd (fst p) = Some col /\ aget col (snd p) = Some c.
Proof.
  unfold pond_get. destruct (aget pd (fst p)) as [col|]; simpl; [eauto | discriminate].
Qed.

Lemma pond_set_put pd p c0 c :
  pond_get pd p = Some c0 -> pond_set pd p c = Some (pond_put pd p c).
Proof.
  intros (col & Hc & Hg)%pond_get_Some.
  pose proof (aget_Some_bounds _ _ _ Hc) as Hb1.
  pose proof (aget_Some_bounds _ _ _ Hg) as Hb2.
  unfold pond_set, pond_put. rewrite Hc. simpl.
  rewrite aset_in_bounds by done. simpl.
  rewrite aset_in_bounds by done.
  rewrite aget_lookup in Hc by lia.
  by rewrite (list_lookup_total_correct _ _ _ Hc).
Qed.

Lemma pond_get_put pd p c0 c q :
  pond_get pd p = Some c0 ->
  pond_get (pond_put pd p c) q = if decide (q = p) then Some c else pond_get pd q.
Proof.
  intros (col & Hc & Hg)%pond_get_Some.
  pose proof (aget_Some_bounds _ _ _ Hc) as Hb1.
  pose proof (aget_Some_bounds _ _ _ Hg) as Hb2.
  destruct p as [px py], q as [qx qy]. simpl in *.
  unfold pond_get, pond_put. simpl.
  rewrite aget_insert by done.
  assert (Hcol : pd !!! Z.to_nat px = col).
  { rewrite aget_lookup in Hc by lia. by apply list_lookup_total_correct. }
  rewrite Hcol.
  destruct (decide (qx = px)) as [->|Hx]; simpl.
  - rewrite aget_insert by done. rewrite Hc. simpl.
    destruct (decide (qy = py)) as [->|Hy].
    + by rewrite decide_True.
    + rewrite decide_False; [done | congruence].
  - rewrite decide_False; [done | congruence].
Qed.

Lemma pond_get_put_eq pd p c0 c :
  pond_get pd p = Some c0 -> pond_get (pond_put pd p c) p = Some c.
Proof. intros Hp. rewrite (pond_get_put _ _ _ _ _ Hp). by rewrite decide_True. Qed.

Lemma pond_get_put_ne pd p c0 c q :
  pond_get pd p = Some c0 -> q <> p -> pond_get (pond_put pd p c) q = pond_get pd q.
Proof. intros Hp Hne. rewrite (pond_get_put _ _ _ _ _ Hp). by rewrite decide_False. Qed.

Lemma pond_ok_get pd p :
  pond_ok pd -> valid p -> exists c, pond_get pd p = Some c /\ cell_ok c.
Proof.
  intros [Hlen Hall] [Hx Hy].
  destruct (aget_in_bounds pd (fst p)) as [col Hcol]; [lia|].
  pose proof (aget_Forall _ _ _ _ Hall Hcol) as [Hclen Hcall].
  destruct (aget_in_bounds col (snd p)) as [c Hc]; [lia|].
  exists c. split.
  - unfold pond_get. rewrite Hcol. simpl. done.
  - eapply aget_Forall; eauto.
Qed.

Lemma pond_ok_valid pd p c : pond_ok pd -> pond_get pd p = Some c -> valid p /\ cell_ok c.
Proof.
  intros [Hlen Hall] (col & Hcol & Hc)%pond_get_Some.
  pose proof (aget_Some_bounds _ _ _ Hcol) as Hb1.
  pose proof (aget_Some_bounds _ _ _ Hc) as Hb2.
  pose proof (aget_Forall _ _ _ _ Hall Hcol) as [Hclen Hcall].
  split; [split; lia | eapply aget_Forall; eauto].
Qed.

Lemma pond_ok_put pd p c :
  pond_ok pd -> cell_ok c -> pond_ok (pond_put pd p c).
Proof.
  intros [Hlen Hall] Hc. unfold pond_put. split.
  - by rewrite length_insert.
  - destruct (decide (Z.to_nat (fst p) < length pd)%nat) as [Hlt|Hge].
    + apply Forall_insert; [done|].
      destruct (lookup_lt_is_Some_2 pd _ Hlt) as [col Hcol].
      rewrite (list_lookup_total_correct _ _ _ Hcol).
      pose proof (Forall_lookup_1 _ _ _ _ Hall Hcol) as [Hclen Hcall].
      split; [by rewrite length_insert | by apply Forall_insert].
    + by rewrite list_insert_ge by lia.
Qed.

End PondFacts.

(** ** The program logic *)

(** Projections and setters of the state records, for [cbn]. *)
Ltac msimpl :=
  cbn [ pond rng statCounters clock cellIdCounter x y outputBuf ptr_ioPtr ptr_mem
        reg instPtr loopStack loopStackPtr falseLoopDepth stop
        set_pond set_rng set_statCounters set_clock set_cellIdCounter set_x set_y
        set_outputBuf set_ptr_ioPtr set_ptr_mem set_reg set_instPtr set_loopStack
        set_loopStackPtr set_falseLoopDepth set_stop
        ID parentID lineage generation energy logo facing genome ram
        set_ID set_parentID set_lineage set_generation set_energy set_logo
        set_facing set_genome set_ram
        instructionExecutions cellExecutions viableCellsReplaced viableCellsKilled
        viableCellShares memSpecialReads memPrivateReads memOutputReads
        memInputReads memSpecialWrites memPrivateWrites memOutputWrites
        memInputWrites
        set_instructionExecutions set_cellExecutions set_viableCellsReplaced
        set_viableCellsKilled set_viableCellShares set_memSpecialReads
        set_memPrivateReads set_memOutputReads set_memInputReads
        set_memSpecialWrites set_memPrivateWrites set_memOutputWrites
        set_memInputWrites
        mt mti fst snd negb ] in *.

(** Unfolds the setters of [Machine], so that two states built by
    different sequences of setters can be compared field by field. *)
Ltac mnorm :=
  cbv [ pond rng statCounters clock cellIdCounter x y outputBuf ptr_ioPtr ptr_mem
        reg instPtr loopStack loopStackPtr falseLoopDepth stop
        set_pond set_rng set_statCounters set_clock set_cellIdCounter set_x set_y
        set_outputBuf set_ptr_ioPtr set_ptr_mem set_reg set_instPtr set_loopStack
        set_loopStackPtr set_falseLoopDepth set_stop ].

Section Logic.
Context `{Config}.
Implicit Types (pd : list (list Cell)) (p q : CellPtr) (c : Cell) (m : Machine).

Lemma wp_intro {A} (c : M A) (Q : A -> Machine -> Prop) m a m' :
  c m = Some (a, m') -> Q a m' -> wp c Q m.
Proof. intros Hc HQ. unfold wp. by rewrite Hc. Qed.

Lemma wp_elim {A} (c : M A) (Q : A -> Machine -> Prop) m :
  wp c Q m -> exists a m', c m = Some (a, m') /\ Q a m'.
Proof. unfold wp. destruct (c m) as [[a m']|]; [eauto | done]. Qed.

Lemma wp_eq {A} (c : M A) m a0 m0 :
  wp c (fun a m' => a = a0 /\ m' = m0) m -> c m = Some (a0, m0).
Proof. intros (a & m' & -> & -> & ->)%wp_elim. done. Qed.

(** The form in which the theorems below state a run: the result, and a
    property of the final state. *)
Lemma wp_elim' {A} (c : M A) (P : Machine -> Prop) m a0 :
  wp c (fun a m' => a = a0 /\ P m') m -> exists m', c m = Some (a0, m') /\ P m'.
Proof. intros (a & m' & Hr & -> & HP)%wp_elim. eauto. Qed.

Lemma wp_mono {A} (c : M A) (Q Q' : A -> Machine -> Prop) m :
  wp c Q m -> (forall a m', Q a m' -> Q' a m') -> wp c Q' m.
Proof. unfold wp. destruct (c m) as [[a m']|]; [auto | done]. Qed.

Lemma wp_ret {A} (a : A) (Q : A -> Machine -> Prop) m : Q a m -> wp (ret a) Q m.
Proof. done. Qed.

Lemma wp_bind {A B} (c : M A) (k : A -> M B) (Q : B -> Machine -> Prop) m :
  wp c (fun a m' => wp (k a) Q m') m -> wp (bind c k) Q m.
Proof. unfold wp, bind. destruct (c m) as [[a m']|]; [done | done]. Qed.

Lemma wp_bind_inv {A B} (c : M A) (k : A -> M B) (Q : B -> Machine -> Prop) m :
  wp (bind c k) Q m -> wp c (fun a m' => wp (k a) Q m') m.
Proof. unfold wp, bind. destruct (c m) as [[a m']|]; [done | done]. Qed.

Lemma wp_gets {A} (f : Machine -> A) (Q : A -> Machine -> Prop) m :
  Q (f m) m -> wp (gets f) Q m.
Proof. done. Qed.

Lemma wp_modify (f : Machine -> Machine) (Q : unit -> Machine -> Prop) m :
  Q tt (f m) -> wp (modify f) Q m.
Proof. done. Qed.

Lemma wp_lift {A} (o : option A) (Q : A -> Machine -> Prop) m a :
  o = Some a -> Q a m -> wp (lift o) Q m.
Proof. intros -> HQ. done. Qed.

Lemma wp_draw (Q : Z -> Machine -> Prop) m :
  Q (fst (getRandom (rng m))) (set_rng (snd (getRandom (rng m))) m) -> wp draw Q m.
Proof. unfold wp, draw. by destruct (getRandom (rng m)). Qed.

Lemma wp_incr get set (Q : unit -> Machine -> Prop) m :
  Q tt (set_statCounters (set (wrap (get (statCounters m) + 1)) (statCounters m)) m) ->
  wp (incr get set) Q m.
Proof. done. Qed.

Lemma wp_pptr (Q : CellPtr -> Machine -> Prop) m : Q (x m, y m) m -> wp pptr Q m.
Proof. done. Qed.

Lemma wp_load p (Q : Cell -> Machine -> Prop) m c :
  pond_get (pond m) p = Some c -> Q c m -> wp (load p) Q m.
Proof.
  intros Hp HQ. unfold load. apply wp_bind, wp_gets. by eapply wp_lift.
Qed.

Lemma wp_update p f (Q : unit -> Machine -> Prop) m c :
  pond_get (pond m) p = Some c ->
  Q tt (set_pond (pond_put (pond m) p (f c)) m) ->
  wp (update p f) Q m.
Proof.
  intros Hp HQ. unfold update. apply wp_bind, wp_gets.
  apply wp_bind. eapply wp_lift; [done|].
  apply wp_bind. eapply wp_lift; [by eapply pond_set_put|].
  by apply wp_modify.
Qed.

Lemma wp_load_genome p i (Q : Z -> Machine -> Prop) m c v :
  pond_get (pond m) p = Some c -> aget (genome c) i = Some v -> Q v m ->
  wp (load_genome p i) Q m.
Proof.
  intros Hp Hv HQ. unfold load_genome. apply wp_bind. eapply wp_load; [done|].
  by eapply wp_lift.
Qed.

Lemma wp_load_ram p i (Q : Z -> Machine -> Prop) m c v :
  pond_get (pond m) p = Some c -> aget (ram c) i = Some v -> Q v m ->
  wp (load_ram p i) Q m.
Proof.
  intros Hp Hv HQ. unfold load_ram. apply wp_bind. eapply wp_load; [done|].
  by eapply wp_lift.
Qed.

Lemma wp_store_genome p i v (Q : unit -> Machine -> Prop) m c :
  pond_get (pond m) p = Some c -> 0 <= i < Z.of_nat (length (genome c)) ->
  Q tt (set_pond (pond_put (pond m) p
                    (set_genome (<[Z.to_nat i := v]> (genome c)) c)) m) ->
  wp (store_genome p i v) Q m.
Proof.
  intros Hp Hi HQ. unfold store_genome. apply wp_bind. eapply wp_load; [done|].
  apply wp_bind. eapply wp_lift; [by apply aset_in_bounds|].
  by eapply wp_update.
Qed.

Lemma wp_store_ram p i v (Q : unit -> Machine -> Prop) m c :
  pond_get (pond m) p = Some c -> 0 <= i < Z.of_nat (length (ram c)) ->
  Q tt (set_pond (pond_put (pond m) p
                    (set_ram (<[Z.to_nat i := v]> (ram c)) c)) m) ->
  wp (store_ram p i v) Q m.
Proof.
  intros Hp Hi HQ. unfold store_ram. apply wp_bind. eapply wp_load; [done|].
  apply wp_bind. eapply wp_lift; [by apply aset_in_bounds|].
  by eapply wp_update.
Qed.

End Logic.

(** One step of symbolic execution for the state-only commands. *)
Ltac wp_pure :=
  repeat (cbv beta iota; cbn [negb]; cbv beta iota;
          lazymatch goal with
          | |- wp (bind _ _) _ _ => apply wp_bind
          | |- wp (ret _) _ _ => apply wp_ret
          | |- wp (gets _) _ _ => apply wp_gets
          | |- wp (modify _) _ _ => apply wp_modify
          | |- wp pptr _ _ => apply wp_pptr
          | |- wp (incr _ _) _ _ => apply wp_incr
          | |- wp draw _ _ => apply wp_draw
          end; msimpl);
  cbv beta iota.

Section Geometry.
Context `{Config} `{!ConfigOk}.

Lemma dirmap_range (dir : Z) :
  0 <= dir < 32 -> exists d, aget dirmap dir = Some d /\ 0 <= d < 6.
Proof. intros Hd. cases32 Hd; eexists; (split; [reflexivity | lia]). Qed.

Lemma getNeighbor_valid (px py dir : Z) :
  valid (px, py) -> 0 <= dir < 32 ->
  exists q, getNeighbor px py dir = Some q /\ valid q.
Proof.
  pose proof pond_x_pos. pose proof pond_y_pos.
  intros [Hx Hy] Hd. simpl in Hx, Hy.
  unfold getNeighbor.
  assert (Hcase : forall d, 0 <= d < 6 ->
    valid (if negb (Z.land py 1 =? 0) then
       match d with
       | DIR_0 => (X_EAST px, Y_NORTH py)
       | DIR_1 => (X_EAST px, Y_NONE py)
       | DIR_2 => (X_EAST px, Y_SOUTH py)
       | DIR_3 => (X_NONE px, Y_SOUTH py)
       | DIR_4 => (X_WEST px, Y_NONE py)
       | DIR_5 => (X_NONE px, Y_NORTH py)
       | _ => (X_NONE px, Y_NONE py)
       end
     else
       match d with
       | DIR_0 => (X_NONE px, Y_NORTH py)
       | DIR_1 => (X_EAST px, Y_NONE py)
       | DIR_2 => (X_NONE px, Y_SOUTH py)
       | DIR_3 => (X_WEST px, Y_SOUTH py)
       | DIR_4 => (X_WEST px, Y_NONE py)
       | DIR_5 => (X_WEST px, Y_NORTH py)
       | _ => (X_NONE px, Y_NONE py)
       end)).
  { intros d Hd6.
    assert (Hd' : d = 0 \/ d = 1 \/ d = 2 \/ d = 3 \/ d = 4 \/ d = 5) by lia.
    unfold valid, X_EAST, X_WEST, X_NONE, Y_NORTH, Y_SOUTH, Y_NONE.
    destruct (negb (Z.land py 1 =? 0));
      destruct Hd' as [->|[->|[->|[->|[->| ->]]]]]; simpl;
      repeat match goal with
             | |- context [ ?a <? ?b ] => destruct (Z.ltb_spec a b)
             | |- context [ ?a =? ?b ] => destruct (Z.eqb_spec a b)
             end; simpl; lia. }
  destruct (dirmap_range dir Hd) as (d & -> & Hd6). simpl.
  eexists. split; [reflexivity | by apply Hcase].
Qed.

Lemma dirmap_entries : Forall (fun d => 0 <= d < 6) dirmap.
Proof. unfold dirmap. repeat constructor; lia. Qed.

(** In a pond of at least two columns and two rows no cell is its own
    neighbour. *)
Lemma getNeighbor_ne_self (px py dir : Z) (q : CellPtr) :
  1 < POND_SIZE_X -> 1 < POND_SIZE_Y ->
  valid (px, py) -> getNeighbor px py dir = Some q -> q <> (px, py).
Proof.
  intros HX HY [Hx Hy]. simpl in Hx, Hy. unfold getNeighbor.
  destruct (aget dirmap dir) as [d|] eqn:Hd; [|discriminate]. simpl.
  pose proof (aget_Forall _ _ _ _ dirmap_entries Hd) as Hd6. cbv beta in Hd6.
  assert (Hd' : d = 0 \/ d = 1 \/ d = 2 \/ d = 3 \/ d = 4 \/ d = 5) by lia.
  unfold X_EAST, X_WEST, X_NONE, Y_NORTH, Y_SOUTH, Y_NONE.
  destruct (negb (Z.land py 1 =? 0));
    destruct Hd' as [->|[->|[->|[->|[->| ->]]]]]; intros [= <-]; intros Heq;
    pose proof (f_equal fst Heq) as Hqx; pose proof (f_equal snd Heq) as Hqy;
    clear Heq; simpl in Hqx, Hqy;
    repeat match goal with
           | H : context [ ?a <? ?b ] |- _ => destruct (Z.ltb_spec a b); simpl in H
           | H : context [ ?a =? ?b ] |- _ => destruct (Z.eqb_spec a b); simpl in H
           end; lia.
Qed.

End Geometry.

(** ** Geometry on a 4x4 pond *)

(** C3 (as amended): on the 6-neighbour topology of a 4x4 toroidal pond,
    direction [DIR_5] from the cell at x = 0, y = 0 (an even row) is the
    cell at (3, 3), and from the cell at x = 0, y = 1 (an odd row) it is
    the cell at (0, 0). *)
Theorem hex_DIR_5_on_4x4 :
  @getNeighbor (small_pond 4 4 64) 0 0 DIR_5 = Some (3, 3) /\
  @getNeighbor (small_pond 4 4 64) 0 1 DIR_5 = Some (0, 0).
Proof. split; reflexivity. Qed.

(** C3 as stated fails: from (0, 1) direction [DIR_5] does not lead to
    (3, 0). *)
Lemma hex_DIR_5_odd_row_not_3_0 :
  ~ (@getNeighbor (small_pond 4 4 64) 0 0 DIR_5 = Some (3, 3) /\
     @getNeighbor (small_pond 4 4 64) 0 1 DIR_5 = Some (3, 0)).
Proof. intros [_ Hodd]. vm_compute in Hodd. discriminate. Qed.

(** The offsets of the odd rows, as the self-test of the source lists
    them ([TEST_DIR(DIR_5, x, y, 0, -1)]): [DIR_5] keeps the column. *)
Lemma hex_DIR_5_odd_row `{Config} (px py : Z) :
  Z.land py 1 <> 0 -> getNeighbor px py DIR_5 = Some (px, Y_NORTH py).
Proof.
  intros Hodd. unfold getNeighbor. simpl.
  destruct (Z.eqb_spec (Z.land py 1) 0); [done | reflexivity].
Qed.

Lemma hex_DIR_5_even_row `{Config} (px py : Z) :
  Z.land py 1 = 0 -> getNeighbor px py DIR_5 = Some (X_WEST px, Y_NORTH py).
Proof. intros Heven. unfold getNeighbor. simpl. by rewrite Heven. Qed.

(** ** The access oracle *)

Section Oracle.
Context `{Config}.
Implicit Types (p q : CellPtr) (c : Cell) (m : Machine).

(** The verdict of the oracle for the random word [r]. *)
Lemma accessAllowed_eq (c2 : CellPtr) guess sense m c :
  pond_get (pond m) c2 = Some c ->
  exists bits,
    aget BITS_IN_FIVEBIT_WORD (Z.land (Z.lxor (logo c) guess) 0x1f) = Some bits /\
    accessAllowed c2 guess sense m
    = Some ((if negb (sense =? 0)
             then bits <=? Z.land (fst (getRandom (rng m))) 0xf
             else Z.land (fst (getRandom (rng m))) 0xf <=? bits)
            || (parentID c =? 0),
            set_rng (snd (getRandom (rng m))) m).
Proof.
  intros Hc.
  destruct (aget_in_bounds BITS_IN_FIVEBIT_WORD (Z.land (Z.lxor (logo c) guess) 0x1f))
    as [bits Hbits].
  { pose proof (land31 (Z.lxor (logo c) guess)). simpl. lia. }
  exists bits. split; [done|].
  apply wp_eq. unfold accessAllowed.
  destruct (negb (sense =? 0)); wp_pure;
    (eapply wp_load; [done|]); wp_pure;
    (eapply wp_lift; [done|]); by wp_pure.
Qed.

(** C10: a call of the access oracle makes exactly one call of
    [getRandom] -- one random machine word -- in either sense and whatever
    the verdict: the state after the call is the state before it with the
    generator advanced by one [getRandom], and nothing else changed.  This
    includes a target without a parent, for which the verdict is always
    "allowed" and the word drawn is not needed. *)
Theorem accessAllowed_draws_one_word (c2 : CellPtr) guess sense m c :
  pond_get (pond m) c2 = Some c ->
  exists b,
    accessAllowed c2 guess sense m = Some (b, set_rng (snd (getRandom (rng m))) m) /\
    (parentID c = 0 -> b = true).
Proof.
  intros Hc. destruct (accessAllowed_eq c2 guess sense m c Hc) as (bits & _ & ->).
  eexists. split; [reflexivity|].
  intros ->. simpl. by rewrite orb_true_r.
Qed.

(** In outputs of the Mersenne Twister, one call of [getRandom] is one
    output on a 32-bit target and two on a 64-bit target. *)
Lemma getRandom_32 s :
  SYSWORD_BITS = 32 -> snd (getRandom s) = snd (genrand_int32 s).
Proof. intros Hb. unfold getRandom. by rewrite Hb. Qed.

Lemma getRandom_64 s :
  SYSWORD_BITS = 64 ->
  snd (getRandom s) = snd (genrand_int32 (snd (genrand_int32 s))).
Proof.
  intros Hb. unfold getRandom. rewrite Hb. simpl.
  destruct (genrand_int32 s) as [hi s1]. simpl.
  by destruct (genrand_int32 s1) as [lo s2].
Qed.

Lemma genrand_int32_mti s :
  0 <= mti s < Z.of_nat MT_N -> mti (snd (genrand_int32 s)) = mti s + 1.
Proof.
  intros Hs. unfold genrand_int32.
  destruct (Z.leb_spec (Z.of_nat MT_N) (mti s)); [lia | reflexivity].
Qed.

End Oracle.

(** ** The memory window *)

Section MemoryWindow.
Context `{Config}.
Implicit Types (p q : CellPtr) (m : Machine).

Lemma compressed_energy_code (e : Z) :
  0 <= e ->
  (if e =? 0 then 0
   else if 126975 <? e then 31 else u8 (1 + Z.shiftr e 12))
  = compressed_energy e.
Proof.
  intros He. unfold compressed_energy.
  destruct (Z.eqb_spec e 0) as [->|Hne]; [done|].
  rewrite Z.shiftr_div_pow2 by lia. change (2 ^ 12) with 4096.
  destruct (Z.ltb_spec 126975 e) as [Hbig|Hsmall].
  - assert (31 <= e / 4096) by (apply Z.div_le_lower_bound; lia). lia.
  - assert (e / 4096 < 31) by (apply Z.div_lt_upper_bound; lia).
    assert (0 <= e / 4096) by (apply Z.div_pos; lia).
    rewrite u8_small by lia. lia.
Qed.

Lemma read_mem_0x02 (c : CellPtr) (px py : Z) m cl :
  pond_get (pond m) c = Some cl -> 0 <= energy cl ->
  read_mem c px py 0x02 m
  = Some (compressed_energy (energy cl),
          set_statCounters
            (set_memSpecialReads (wrap (memSpecialReads (statCounters m) + 1))
               (statCounters m)) m).
Proof.
  intros Hc He. apply wp_eq. unfold read_mem. wp_pure.
  eapply wp_load; [done|].
  rewrite <- (compressed_energy_code _ He).
  destruct (energy cl =? 0); [by wp_pure|].
  destruct (126975 <? energy cl); by wp_pure.
Qed.

(** C8: [READM] at memory-window address [0x02] loads the compressed
    energy into the register: 0 for an empty cell and
    [min(31, 1 + (energy >> 12))] otherwise, whatever the energy. *)
Theorem READM_0x02_compressed_energy m cl :
  pond_get (pond m) (x m, y m) = Some cl ->
  0 <= energy cl ->
  ptr_mem m = 0x02 ->
  exists m',
    dispatch OP_READM m = Some (false, m') /\
    reg m' = compressed_energy (energy cl) /\
    (energy cl = 0 -> reg m' = 0) /\
    (energy cl <> 0 -> reg m' = Z.min 31 (1 + Z.shiftr (energy cl) 12)).
Proof.
  intros Hc He Hmp.
  assert (Hwp : wp (dispatch OP_READM)
                  (fun r m' => r = false /\ reg m' = compressed_energy (energy cl)) m).
  { unfold dispatch. cbv beta iota. unfold read_window. wp_pure. rewrite Hmp.
    eapply wp_intro; [by apply read_mem_0x02|]. by wp_pure. }
  apply wp_elim in Hwp as (r & m' & Hrun & -> & Hreg).
  exists m'. split; [done|]. split; [done|]. rewrite Hreg. unfold compressed_energy.
  split.
  - by intros ->.
  - intros Hne. by destruct (Z.eqb_spec (energy cl) 0).
Qed.

(** C2, the failing reads: at the addresses [0x03] to [0x07] of the
    read-only special slots, [read_mem] returns its value and leaves the
    whole state as it was -- no counter of [statCounters] is incremented,
    [memSpecialReads] included. *)
Theorem read_mem_0x03_0x07_not_counted (c : CellPtr) (px py a : Z) m cl :
  pond_get (pond m) c = Some cl ->
  3 <= a <= 7 ->
  exists v, read_mem c px py a m = Some (v, m).
Proof.
  intros Hc Ha.
  assert (Hcases : a = 3 \/ a = 4 \/ a = 5 \/ a = 6 \/ a = 7) by lia.
  destruct Hcases as [->|[->|[->|[->| ->]]]];
    eexists; apply wp_eq; unfold read_mem; wp_pure;
    (eapply wp_load; [done|]); wp_pure; split; reflexivity.
Qed.

(** The sibling path: a write to a read-only special slot is counted. *)
Lemma write_mem_0x02_0x07_counted (c : CellPtr) (px py a v : Z) m :
  2 <= a <= 7 ->
  write_mem c px py a v m
  = Some (tt, set_statCounters
                (set_memSpecialWrites (wrap (memSpecialWrites (statCounters m) + 1))
                   (statCounters m)) m).
Proof.
  intros Ha.
  assert (Hcases : a = 2 \/ a = 3 \/ a = 4 \/ a = 5 \/ a = 6 \/ a = 7) by lia.
  destruct Hcases as [->|[->|[->|[->|[->| ->]]]]]; reflexivity.
Qed.

End MemoryWindow.

(** ** KILL and SHARE *)

(** A lookup in a pond after a sequence of replacements at the same cell. *)
Ltac pget := first [ eassumption | eapply pond_get_put_eq; pget ].

Section Interactions.
Context `{Config} `{!ConfigOk}.
Implicit Types (p q : CellPtr) (m : Machine).

Lemma wp_faced (Q : CellPtr -> Machine -> Prop) m q :
  faced m = Some (q, m) -> Q q m -> wp faced Q m.
Proof. intros Hf HQ. by eapply wp_intro. Qed.

Lemma faced_eq m self :
  pond_get (pond m) (x m, y m) = Some self ->
  faced m = q ← getNeighbor (x m) (y m) (facing self); Some (q, m).
Proof.
  intros Hs. cbv [faced bind pptr gets load lift]. msimpl. rewrite Hs.
  by destruct (getNeighbor (x m) (y m) (facing self)).
Qed.

Lemma wf_faced m :
  wf m ->
  exists self q nb,
    pond_get (pond m) (x m, y m) = Some self /\ cell_ok self /\
    faced m = Some (q, m) /\ valid q /\
    pond_get (pond m) q = Some nb /\ cell_ok nb.
Proof.
  intros (Hpond & _ & Hxy & _).
  destruct (pond_ok_get _ _ Hpond Hxy) as (self & Hs & Hsok).
  pose proof Hsok as (_ & Hfacing & _).
  destruct (getNeighbor_valid (x m) (y m) (facing self) Hxy Hfacing) as (q & Hq & Hqv).
  destruct (pond_ok_get _ _ Hpond Hqv) as (nb & Hn & Hnok).
  exists self, q, nb.
  split; [done|]. split; [done|].
  split; [by rewrite (faced_eq _ _ Hs), Hq|]. done.
Qed.

Lemma verdict_eq (c2 : CellPtr) guess sense m nb b :
  pond_get (pond m) c2 = Some nb ->
  fst <$> accessAllowed c2 guess sense m = Some b ->
  accessAllowed c2 guess sense m = Some (b, set_rng (snd (getRandom (rng m))) m).
Proof.
  intros Hn Hv. destruct (accessAllowed_eq c2 guess sense m nb Hn) as (bits & _ & Heq).
  rewrite Heq in Hv |- *. simpl in Hv. by injection Hv as ->.
Qed.

(** C9: a permitted [KILL] resets the genome of the faced cell to
    [POND_DEPTH] codons [STOP], gives it the next cell ID as [ID] and
    [lineage], and zeroes [parentID], [generation], [logo] and [facing];
    its [energy] and its 16 bytes of [ram] are what they were.  No other
    cell of the pond changes. *)
Theorem KILL_permitted_keeps_energy_and_ram m tmpptr nb :
  wf m ->
  faced m = Some (tmpptr, m) ->
  pond_get (pond m) tmpptr = Some nb ->
  fst <$> accessAllowed tmpptr (reg m) 0 m = Some true ->
  exists m',
    dispatch OP_KILL m = Some (false, m') /\
    pond_get (pond m') tmpptr
    = Some {| ID := cellIdCounter m; parentID := 0; lineage := cellIdCounter m;
              generation := 0; energy := energy nb; logo := 0; facing := 0;
              genome := replicate (Z.to_nat POND_DEPTH) OP_STOP;
              ram := ram nb |} /\
    (forall q, q <> tmpptr -> pond_get (pond m') q = pond_get (pond m) q).
Proof.
  intros Hwf Hf Hn Hacc.
  pose proof Hwf as (Hpond & _).
  destruct (pond_ok_valid _ _ _ Hpond Hn) as [Hv (_ & _ & _ & Hglen & _)].
  apply (verdict_eq _ _ _ _ _ _ Hn) in Hacc.
  apply wp_elim'.
  unfold dispatch. cbv beta iota. unfold op_KILL. wp_pure.
  eapply wp_faced; [done|]. wp_pure.
  eapply wp_intro; [exact Hacc|]. wp_pure.
  eapply wp_load; [msimpl; pget|]. wp_pure.
  eapply (wp_mono _ (fun _ m1 => pond m1 = pond m /\ cellIdCounter m1 = cellIdCounter m)).
  { destruct (2 <? generation nb); by wp_pure. }
  intros _ m1 [Hp1 Hid1].
  wp_pure. eapply wp_lift; [by apply afill_all|].
  repeat (wp_pure; eapply wp_update; [msimpl; rewrite ?Hp1; pget|]).
  wp_pure. rewrite Hp1, Hid1.
  split; [done|]. split.
  - erewrite pond_get_put_eq by pget. reflexivity.
  - intros q Hq. repeat (erewrite pond_get_put_ne; [| pget | done]). done.
Qed.

(** The ID a permitted [KILL] gives the target is the one of the
    [KillReset] event: the counter as it is, incremented afterwards. *)
Lemma kill_reset_spec m tmpptr nb :
  wf m ->
  faced m = Some (tmpptr, m) ->
  pond_get (pond m) tmpptr = Some nb ->
  fst <$> accessAllowed tmpptr (reg m) 0 m = Some true ->
  exists m',
    dispatch OP_KILL m = Some (false, m') /\
    cellIdCounter m' = snd (assign_id KillReset (cellIdCounter m)) /\
    exists c, pond_get (pond m') tmpptr = Some c /\
              founder (fst (assign_id KillReset (cellIdCounter m))) c.
Proof.
  intros Hwf Hf Hn Hacc.
  pose proof Hwf as (Hpond & _).
  destruct (pond_ok_valid _ _ _ Hpond Hn) as [Hv (_ & _ & _ & Hglen & _)].
  apply (verdict_eq _ _ _ _ _ _ Hn) in Hacc.
  apply wp_elim'.
  unfold dispatch. cbv beta iota. unfold op_KILL. wp_pure.
  eapply wp_faced; [done|]. wp_pure.
  eapply wp_intro; [exact Hacc|]. wp_pure.
  eapply wp_load; [msimpl; pget|]. wp_pure.
  eapply (wp_mono _ (fun _ m1 => pond m1 = pond m /\ cellIdCounter m1 = cellIdCounter m)).
  { destruct (2 <? generation nb); by wp_pure. }
  intros _ m1 [Hp1 Hid1].
  wp_pure. eapply wp_lift; [by apply afill_all|].
  repeat (wp_pure; eapply wp_update; [msimpl; rewrite ?Hp1; pget|]).
  wp_pure. rewrite Hp1, Hid1.
  split; [done|]. split; [done|].
  eexists. split; [erewrite pond_get_put_eq by pget; reflexivity|].
  by unfold founder.
Qed.

Lemma kill_penalty_eq (e : Z) :
  0 <= e < 2 ^ SYSWORD_BITS ->
  (if e / FAILED_KILL_PENALTY <? e then wrap (e - e / FAILED_KILL_PENALTY) else 0)
  = e - e / FAILED_KILL_PENALTY /\
  0 <= e - e / FAILED_KILL_PENALTY.
Proof.
  intros He. pose proof penalty_pos as Hp.
  assert (Hq : 0 <= e / FAILED_KILL_PENALTY <= e).
  { split; [apply Z.div_pos; lia|].
    apply Z.div_le_upper_bound; [lia|]. nia. }
  destruct (Z.ltb_spec (e / FAILED_KILL_PENALTY) e).
  - rewrite wrap_small by lia. lia.
  - lia.
Qed.

(** C5: a [KILL] whose access test is denied.  When the faced cell is
    viable ([generation > 2]) the energy [e] of the attacker becomes
    [e - e / FAILED_KILL_PENALTY], which is not negative, and the faced
    cell is exactly what it was; with divisor 3 an attacker that enters
    the dispatch with 90 leaves it with 60.  When the faced cell is not
    viable the dispatch changes no cell at all, so the instruction costs
    only the unit that every instruction is charged before its dispatch.
    In both cases no cell other than the attacker changes. *)
Theorem KILL_denied_penalty m tmpptr self nb :
  wf m ->
  1 < POND_SIZE_X -> 1 < POND_SIZE_Y ->
  pond_get (pond m) (x m, y m) = Some self ->
  faced m = Some (tmpptr, m) ->
  pond_get (pond m) tmpptr = Some nb ->
  fst <$> accessAllowed tmpptr (reg m) 0 m = Some false ->
  exists m',
    dispatch OP_KILL m = Some (false, m') /\
    pond_get (pond m') tmpptr = Some nb /\
    (2 < generation nb ->
       pond_get (pond m') (x m, y m)
       = Some (set_energy (energy self - energy self / FAILED_KILL_PENALTY) self) /\
       0 <= energy self - energy self / FAILED_KILL_PENALTY /\
       (FAILED_KILL_PENALTY = 3 -> energy self = 90 ->
        pond_get (pond m') (x m, y m) = Some (set_energy 60 self))) /\
    (generation nb <= 2 -> pond m' = pond m) /\
    (forall q, q <> (x m, y m) -> pond_get (pond m') q = pond_get (pond m) q).
Proof.
  intros Hwf HX HY Hs Hf Hn Hacc.
  pose proof Hwf as (Hpond & _ & Hxy & _).
  destruct (pond_ok_valid _ _ _ Hpond Hs) as [_ (_ & _ & He & _)].
  assert (Hne : tmpptr <> (x m, y m)).
  { rewrite (faced_eq _ _ Hs) in Hf.
    destruct (getNeighbor (x m) (y m) (facing self)) as [q|] eqn:Hq; [|discriminate].
    injection Hf as <-. by eapply getNeighbor_ne_self. }
  apply (verdict_eq _ _ _ _ _ _ Hn) in Hacc.
  destruct (kill_penalty_eq _ He) as [Hpen Hpos].
  apply wp_elim'.
  unfold dispatch. cbv beta iota. unfold op_KILL. wp_pure.
  eapply wp_faced; [done|]. wp_pure.
  eapply wp_intro; [exact Hacc|]. wp_pure.
  eapply wp_load; [msimpl; pget|]. wp_pure.
  destruct (Z.ltb_spec 2 (generation nb)) as [Hviable|Hnot].
  - wp_pure. eapply wp_load; [msimpl; pget|]. wp_pure.
    eapply wp_lift.
    { unfold cdiv. pose proof penalty_pos.
      destruct (Z.eqb_spec FAILED_KILL_PENALTY 0); [lia | reflexivity]. }
    assert (Hpost : forall e',
      e' = energy self - energy self / FAILED_KILL_PENALTY ->
      false = false /\
      pond_get (pond_put (pond m) (x m, y m) (set_energy e' self)) tmpptr = Some nb /\
      (2 < generation nb ->
         pond_get (pond_put (pond m) (x m, y m) (set_energy e' self)) (x m, y m)
         = Some (set_energy (energy self - energy self / FAILED_KILL_PENALTY) self) /\
         0 <= energy self - energy self / FAILED_KILL_PENALTY /\
         (FAILED_KILL_PENALTY = 3 -> energy self = 90 ->
          pond_get (pond_put (pond m) (x m, y m) (set_energy e' self)) (x m, y m)
          = Some (set_energy 60 self))) /\
      (generation nb <= 2 ->
         pond_put (pond m) (x m, y m) (set_energy e' self) = pond m) /\
      (forall q, q <> (x m, y m) ->
         pond_get (pond_put (pond m) (x m, y m) (set_energy e' self)) q
         = pond_get (pond m) q)).
    { intros e' ->. split; [done|]. split.
      { by erewrite pond_get_put_ne by (done || pget). }
      split.
      { intros _. split; [by erewrite pond_get_put_eq by pget|]. split; [done|].
        intros Hp3 He90. erewrite pond_get_put_eq by pget.
        rewrite Hp3, He90. reflexivity. }
      split; [lia|].
      intros q Hq. by erewrite pond_get_put_ne by (done || pget). }
    destruct (energy self / FAILED_KILL_PENALTY <? energy self) eqn:Hlt;
      (eapply wp_update; [msimpl; pget|]); msimpl; apply Hpost.
    + exact Hpen.
    + exact Hpen.
  - wp_pure. split; [done|]. split; [done|]. split; [lia|]. split; done.
Qed.

Lemma wrap_double_even (e : Z) : wrap (e + e) = 2 * (wrap (e + e) / 2).
Proof.
  unfold wrap.
  assert (Hw : exists k, 0 < k /\ 2 ^ SYSWORD_BITS = 2 * k).
  { destruct word_bits as [-> | ->]; eexists; (split; [|reflexivity]); lia. }
  destruct Hw as (k & Hk & ->).
  replace (e + e) with (2 * e) by lia.
  rewrite Z.mul_mod_distr_l by lia.
  rewrite (Z.mul_comm 2 (e mod k)) at 2. by rewrite Z.div_mul by lia.
Qed.

(** C4: a [SHARE] whose access test succeeds.  With [a] and [b] the
    energies of the executing cell and of the faced cell when the
    instruction is dispatched, and [pot] their sum as the machine word
    holds it, the faced cell is left with [pot / 2], the executing cell
    with [pot - pot / 2], and the two together with exactly [pot]; [pot]
    is [a + b] whenever that sum fits in a machine word.  From 11 and 4
    the cells come out with 8 and 7. *)
Theorem SHARE_conserves_energy m tmpptr self nb :
  wf m ->
  pond_get (pond m) (x m, y m) = Some self ->
  faced m = Some (tmpptr, m) ->
  pond_get (pond m) tmpptr = Some nb ->
  fst <$> accessAllowed tmpptr (reg m) 1 m = Some true ->
  exists m' self' nb',
    dispatch OP_SHARE m = Some (false, m') /\
    pond_get (pond m') (x m, y m) = Some self' /\
    pond_get (pond m') tmpptr = Some nb' /\
    energy nb' = wrap (energy self + energy nb) / 2 /\
    energy self'
    = wrap (energy self + energy nb) - wrap (energy self + energy nb) / 2 /\
    energy self' + energy nb' = wrap (energy self + energy nb) /\
    (energy self + energy nb < 2 ^ SYSWORD_BITS ->
     wrap (energy self + energy nb) = energy self + energy nb) /\
    (energy self = 11 -> energy nb = 4 -> energy self' = 8 /\ energy nb' = 7).
Proof.
  intros Hwf Hs Hf Hn Hacc.
  pose proof Hwf as (Hpond & _ & Hxy & _).
  destruct (pond_ok_valid _ _ _ Hpond Hs) as [_ (_ & _ & Hes & _)].
  destruct (pond_ok_valid _ _ _ Hpond Hn) as [_ (_ & _ & Hen & _)].
  apply (verdict_eq _ _ _ _ _ _ Hn) in Hacc.
  set (pot := wrap (energy self + energy nb)).
  assert (Hpot : 0 <= pot < 2 ^ SYSWORD_BITS) by apply wrap_bounds.
  assert (Hhalf : 0 <= pot / 2 <= pot).
  { split; [apply Z.div_pos; lia|]. apply Z.div_le_upper_bound; lia. }
  assert (Hfits : energy self + energy nb < 2 ^ SYSWORD_BITS ->
                  pot = energy self + energy nb).
  { intros Hlt. subst pot. apply wrap_small. lia. }
  assert (Hex : energy self = 11 -> energy nb = 4 ->
                pot - pot / 2 = 8 /\ pot / 2 = 7).
  { intros H11 H4. rewrite Hfits; rewrite H11, H4.
    - split; reflexivity.
    - destruct word_bits as [-> | ->]; lia. }
  assert (Hwp : wp (dispatch OP_SHARE)
    (fun r m' => r = false /\
       exists self' nb',
         pond_get (pond m') (x m, y m) = Some self' /\
         pond_get (pond m') tmpptr = Some nb' /\
         energy nb' = pot / 2 /\ energy self' = pot - pot / 2) m).
  { unfold dispatch. cbv beta iota. unfold op_SHARE. wp_pure.
    eapply wp_faced; [done|]. wp_pure.
    eapply wp_intro; [exact Hacc|]. wp_pure.
    eapply wp_load; [msimpl; pget|]. wp_pure.
    eapply (wp_mono _ (fun _ m1 => pond m1 = pond m)).
    { destruct (2 <? generation nb); by wp_pure. }
    intros _ m1 Hp1. wp_pure.
    eapply wp_load; [rewrite Hp1; pget|]. wp_pure.
    eapply wp_load; [rewrite Hp1; pget|]. wp_pure.
    eapply wp_update; [rewrite Hp1; pget|]. wp_pure.
    eapply wp_load; [msimpl; rewrite Hp1; pget|]. wp_pure. fold pot. rewrite Hp1.
    destruct (decide ((x m, y m) = tmpptr)) as [Halias|Hne].
    - eapply wp_update; [msimpl; rewrite Halias; pget|]. wp_pure.
      split; [done|]. rewrite Halias.
      eexists _, _. split; [by erewrite pond_get_put_eq by pget|].
      split; [by erewrite pond_get_put_eq by pget|].
      msimpl. rewrite wrap_small by lia.
      assert (Heven : pot = 2 * (pot / 2)).
      { subst pot. rewrite Halias in Hs. rewrite Hs in Hn. injection Hn as ->.
        apply wrap_double_even. }
      lia.
    - eapply wp_update.
      { msimpl. erewrite pond_get_put_ne; [done | pget | done]. }
      wp_pure. split; [done|].
      eexists _, _. split; [by erewrite pond_get_put_eq by (erewrite pond_get_put_ne; [done | pget | done])|].
      split.
      { erewrite pond_get_put_ne; [by erewrite pond_get_put_eq by pget | | by apply not_eq_sym].
        erewrite pond_get_put_ne; [done | pget | done]. }
      msimpl. rewrite wrap_small by lia. done. }
  apply wp_elim in Hwp as (r & m' & Hrun & -> & self' & nb' & Hs' & Hn' & Henb & Hese).
  exists m', self', nb'. rewrite Henb, Hese. clearbody pot.
  do 5 (split; [done|]). split; [lia|]. split; [exact Hfits | exact Hex].
Qed.

End Interactions.

(** ** Instruction-set closure *)

(** Splits [wf] of the state before into its parts and proves [wf] of a
    state built from it by setters. *)
Ltac wf_parts H :=
  let Hpond := fresh "Hpond" in
  let Hie := fresh "Hie" in
  let Hxy := fresh "Hxy" in
  pose proof H as (Hpond & Hie & Hxy & ?Hob & ?Hobv & ?Hio & ?Hmp & ?Hreg & ?Hip &
                   ?Hls & ?Hsp & ?Hstk & ?Hfl).

Ltac wf_tac :=
  unfold wf in *; msimpl; destruct_and?; split_and?;
  try assumption;
  try (first [ apply land31 | apply land255 | apply u8_bounds ]);
  try lia;
  try congruence.

(** The invariant of a cell after one of its fields is set. *)
Ltac cell_tac :=
  unfold cell_ok in *; msimpl; destruct_and?; split_and?;
  rewrite ?length_insert, ?length_replicate;
  try assumption; try lia;
  try (apply Forall_insert; [assumption | lia]);
  try (apply Forall_replicate; lia);
  try (first [ apply land31 | apply land255 | apply u8_bounds | apply wrap_bounds ]).

Section Closure.
Context `{Config} `{!ConfigOk}.
Implicit Types (p q : CellPtr) (m : Machine).

Lemma wrap_range v : 0 <= wrap v < 2 ^ SYSWORD_BITS.
Proof. apply wrap_bounds. Qed.

Lemma two_pow_word : 2 ^ 32 <= 2 ^ SYSWORD_BITS.
Proof. destruct word_bits as [-> | ->]; lia. Qed.

Lemma wf_set_pond m pd : wf m -> pond_ok pd -> wf (set_pond pd m).
Proof. intros Hwf Hpd. wf_parts Hwf. wf_tac. Qed.

Lemma wf_set_rng m s : wf m -> wf (set_rng s m).
Proof. intros Hwf. wf_parts Hwf. wf_tac. Qed.

Lemma wf_set_stats m st :
  wf m -> instructionExecutions st = instructionExecutions (statCounters m) ->
  wf (set_statCounters st m).
Proof. intros Hwf Hst. wf_parts Hwf. wf_tac. Qed.

Lemma wf_set_reg m v : wf m -> 0 <= v < 256 -> wf (set_reg v m).
Proof. intros Hwf Hv. wf_parts Hwf. wf_tac. Qed.

Lemma wf_set_ptr_mem m v : wf m -> 0 <= v < 32 -> wf (set_ptr_mem v m).
Proof. intros Hwf Hv. wf_parts Hwf. wf_tac. Qed.

Lemma wf_set_ptr_ioPtr m v : wf m -> 0 <= v < POND_DEPTH -> wf (set_ptr_ioPtr v m).
Proof. intros Hwf Hv. wf_parts Hwf. wf_tac. Qed.

Lemma wf_set_instPtr m v : wf m -> 0 <= v < POND_DEPTH -> wf (set_instPtr v m).
Proof. intros Hwf Hv. wf_parts Hwf. wf_tac. Qed.

Lemma wf_set_stop m b : wf m -> wf (set_stop b m).
Proof. intros Hwf. wf_parts Hwf. wf_tac. Qed.

Lemma wf_set_cellIdCounter m v : wf m -> wf (set_cellIdCounter v m).
Proof. intros Hwf. wf_parts Hwf. wf_tac. Qed.

Lemma wf_set_falseLoopDepth m v :
  wf m -> 0 <= v < 2 ^ SYSWORD_BITS -> wf (set_falseLoopDepth v m).
Proof. intros Hwf Hv. wf_parts Hwf. wf_tac. Qed.

Lemma wf_pptr m : wf m -> valid (x m, y m).
Proof. intros Hwf. by wf_parts Hwf. Qed.

(** The commands that touch the pond, under the invariant. *)

Lemma load_ok p m (Q : Cell -> Machine -> Prop) :
  wf m -> valid p ->
  (forall c, pond_get (pond m) p = Some c -> cell_ok c -> Q c m) ->
  wp (load p) Q m.
Proof.
  intros Hwf Hp HQ. wf_parts Hwf.
  destruct (pond_ok_get _ _ Hpond Hp) as (c & Hc & Hok).
  eapply wp_load; eauto.
Qed.

Lemma update_ok p f m (Q : unit -> Machine -> Prop) :
  wf m -> valid p ->
  (forall c, cell_ok c -> cell_ok (f c)) ->
  (forall pd, pond_ok pd -> Q tt (set_pond pd m)) ->
  wp (update p f) Q m.
Proof.
  intros Hwf Hp Hf HQ. wf_parts Hwf.
  destruct (pond_ok_get _ _ Hpond Hp) as (c & Hc & Hok).
  eapply wp_update; [done|]. apply HQ. apply pond_ok_put; auto.
Qed.

Lemma load_genome_ok p i m (Q : Z -> Machine -> Prop) :
  wf m -> valid p -> 0 <= i < POND_DEPTH ->
  (forall v, 0 <= v < 32 -> Q v m) ->
  wp (load_genome p i) Q m.
Proof.
  intros Hwf Hp Hi HQ. unfold load_genome. apply wp_bind.
  apply load_ok; [done..|]. intros c Hc (_ & _ & _ & Hlen & Hall & _).
  destruct (aget_in_bounds (genome c) i) as [v Hv]; [lia|].
  eapply wp_lift; [done|]. apply HQ. apply (aget_Forall _ _ _ _ Hall Hv).
Qed.

Lemma load_ram_ok p i m (Q : Z -> Machine -> Prop) :
  wf m -> valid p -> 0 <= i < 16 ->
  (forall v, 0 <= v < 256 -> Q v m) ->
  wp (load_ram p i) Q m.
Proof.
  intros Hwf Hp Hi HQ. unfold load_ram. apply wp_bind.
  apply load_ok; [done..|]. intros c Hc (_ & _ & _ & _ & _ & Hlen & Hall).
  destruct (aget_in_bounds (ram c) i) as [v Hv]; [unfold RAM_SIZE in Hlen; lia|].
  eapply wp_lift; [done|]. apply HQ. apply (aget_Forall _ _ _ _ Hall Hv).
Qed.

Lemma store_genome_ok p i v m (Q : unit -> Machine -> Prop) :
  wf m -> valid p -> 0 <= i < POND_DEPTH -> 0 <= v < 32 ->
  (forall pd, pond_ok pd -> Q tt (set_pond pd m)) ->
  wp (store_genome p i v) Q m.
Proof.
  intros Hwf Hp Hi Hv HQ. unfold store_genome. apply wp_bind.
  apply load_ok; [done..|]. intros c Hc (Hl & Hf & He & Hlen & Hall & Hr).
  apply wp_bind. eapply wp_lift; [apply aset_in_bounds; lia|].
  apply update_ok; [done..| |done].
  intros c' (Hl' & Hf' & He' & Hlen' & Hall' & Hr').
  cell_tac.
Qed.

Lemma store_ram_ok p i v m (Q : unit -> Machine -> Prop) :
  wf m -> valid p -> 0 <= i < 16 -> 0 <= v < 256 ->
  (forall pd, pond_ok pd -> Q tt (set_pond pd m)) ->
  wp (store_ram p i v) Q m.
Proof.
  intros Hwf Hp Hi Hv HQ. unfold store_ram. apply wp_bind.
  apply load_ok; [done..|]. intros c Hc (Hl & Hf & He & Hlen & Hall & Hrl & Hr).
  apply wp_bind. eapply wp_lift; [apply aset_in_bounds; unfold RAM_SIZE in Hrl; lia|].
  apply update_ok; [done..| |done].
  intros c' (Hl' & Hf' & He' & Hlen' & Hall' & Hrl' & Hr').
  cell_tac.
Qed.

Lemma faced_ok m (Q : CellPtr -> Machine -> Prop) :
  wf m -> (forall q, valid q -> faced m = Some (q, m) -> Q q m) -> wp faced Q m.
Proof.
  intros Hwf HQ.
  destruct (wf_faced m Hwf) as (self & q & nb & _ & _ & Hf & Hq & _).
  eapply wp_faced; eauto.
Qed.

Lemma accessAllowed_ok (c2 : CellPtr) guess sense m (Q : bool -> Machine -> Prop) :
  wf m -> valid c2 ->
  (forall b, Q b (set_rng (snd (getRandom (rng m))) m)) ->
  wp (accessAllowed c2 guess sense) Q m.
Proof.
  intros Hwf Hc HQ. wf_parts Hwf.
  destruct (pond_ok_get _ _ Hpond Hc) as (c & Hget & _).
  destruct (accessAllowed_eq c2 guess sense m c Hget) as (bits & _ & Heq).
  eapply wp_intro; [exact Heq | apply HQ].
Qed.

(** *** The memory window under the invariant *)

(** Every read returns a byte and changes nothing but the counters; it
    is counted once, in the counter of the band of its address, except at
    the addresses [0x03] to [0x07], where it is not counted. *)
Lemma read_mem_counted p (px py mp : Z) m :
  wf m -> valid p -> valid (px, py) -> 0 <= mp < 32 ->
  wp (read_mem p px py mp)
     (fun v m' =>
        0 <= v < 256 /\
        m' = set_statCounters
               (if (3 <=? mp) && (mp <=? 7) then statCounters m
                else counted_read mp (statCounters m)) m) m.
Proof.
  intros Hwf Hp Hxy Hmp. destruct m as [pd rg st ck idc mx my ob io mpt rg8 ip ls sp fl stp].
  wf_parts Hwf. clear Hwf. msimpl.
  cases32 Hmp; unfold read_mem; cbv beta iota; wp_pure;
    lazymatch goal with
    | |- wp (load _) _ _ =>
        apply load_ok; [wf_tac | done |];
        intros c Hc Hok; wp_pure
    | |- wp (load_ram _ _) _ _ =>
        apply load_ram_ok; [wf_tac | done | cbv; split; congruence |];
        intros v Hv; wp_pure
    end;
    repeat lazymatch goal with
    | |- wp (if ?b then _ else _) _ _ => destruct b; wp_pure
    | |- wp (lift (getNeighbor _ _ _)) _ _ =>
        let Hfc := fresh in
        pose proof Hok as (_ & Hfc & _);
        let q := fresh "q" in let Hq := fresh "Hq" in let Hqv := fresh "Hqv" in
        destruct (getNeighbor_valid px py (facing c) Hxy Hfc) as (q & Hq & Hqv);
        eapply wp_lift; [exact Hq|]; wp_pure
    | |- wp (load_ram _ _) _ _ =>
        apply load_ram_ok; [wf_tac | done | cbv; split; congruence |];
        intros v Hv; wp_pure
    end;
    (split; [first [ apply u8_bounds | lia ] | reflexivity]).
Qed.

Lemma counted_read_frame (a : Z) st :
  instructionExecutions (counted_read a st) = instructionExecutions st.
Proof.
  unfold counted_read.
  destruct (a <? 8); [done|]. destruct (a <? 16); [done|]. by destruct (a <? 24).
Qed.

Lemma counted_write_frame (a : Z) st :
  instructionExecutions (counted_write a st) = instructionExecutions st.
Proof.
  unfold counted_write.
  destruct (a <? 8); [done|]. destruct (a <? 16); [done|]. by destruct (a <? 24).
Qed.

Lemma read_mem_ok p (px py mp : Z) m :
  wf m -> valid p -> valid (px, py) -> 0 <= mp < 32 ->
  wp (read_mem p px py mp)
     (fun v m' =>
        0 <= v < 256 /\
        exists st, m' = set_statCounters st m /\
                   instructionExecutions st = instructionExecutions (statCounters m)) m.
Proof.
  intros Hwf Hp Hxy Hmp.
  eapply wp_mono; [by apply read_mem_counted|].
  cbv beta. intros v m' [Hv ->]. split; [done|]. eexists. split; [reflexivity|].
  destruct ((3 <=? mp) && (mp <=? 7)); [done | apply counted_read_frame].
Qed.

Lemma read_mem_pond_only p (px py mp : Z) m1 m2 :
  0 <= mp < 32 -> pond m1 = pond m2 ->
  fst <$> read_mem p px py mp m1 = fst <$> read_mem p px py mp m2.
Proof.
  intros Hmp Hpd.
  cases32 Hmp;
    cbv [read_mem incr modify bind load_ram load gets lift ret]; msimpl;
    rewrite Hpd;
    (destruct (pond_get (pond m2) p) as [c|]; simpl; [|reflexivity]);
    repeat match goal with
           | |- context [if ?b then _ else _] => destruct b
           end;
    try reflexivity;
    try (destruct (getNeighbor px py (facing c)) as [q|]; simpl; [|reflexivity];
         msimpl; rewrite ?Hpd;
         destruct (pond_get (pond m2) q) as [n|]; simpl; [|reflexivity]);
    match goal with
    | |- context [aget ?a ?i] => destruct (aget a i); reflexivity
    end.
Qed.

Lemma read_window_ok m :
  wf m ->
  wp read_window
     (fun v m' =>
        0 <= v < 256 /\
        exists st, m' = set_statCounters st m /\
                   instructionExecutions st = instructionExecutions (statCounters m)) m.
Proof.
  intros Hwf. wf_parts Hwf. unfold read_window. wp_pure.
  by apply read_mem_ok.
Qed.

Lemma read_window_pond_only m1 m2 :
  0 <= ptr_mem m1 < 32 ->
  pond m1 = pond m2 -> x m1 = x m2 -> y m1 = y m2 -> ptr_mem m1 = ptr_mem m2 ->
  fst <$> read_window m1 = fst <$> read_window m2.
Proof.
  intros Hmp Hpd Hx Hy Hm.
  cbv [read_window bind pptr gets]. msimpl. rewrite <- Hx, <- Hy, <- Hm.
  pose proof (read_mem_pond_only (x m1, y m1) (x m1) (y m1) (ptr_mem m1) m1 m2 Hmp Hpd) as Heq.
  destruct (read_mem (x m1, y m1) (x m1) (y m1) (ptr_mem m1) m1) as [[v1 m1']|];
    destruct (read_mem (x m1, y m1) (x m1) (y m1) (ptr_mem m1) m2) as [[v2 m2']|];
    simpl in *; congruence.
Qed.

(** Every write changes nothing but the pond, the generator and the
    counters; it is counted once, in the counter of the band of its
    address. *)
Lemma write_mem_counted p (px py mp v : Z) m :
  wf m -> valid p -> valid (px, py) -> 0 <= mp < 32 ->
  wp (write_mem p px py mp v)
     (fun _ m' =>
        exists pd s,
          m' = set_statCounters (counted_write mp (statCounters m))
                 (set_rng s (set_pond pd m)) /\
          pond_ok pd) m.
Proof.
  intros Hwf Hp Hxy Hmp. destruct m as [pd rg st ck idc mx my ob io mpt rg8 ip ls sp fl stp].
  wf_parts Hwf. clear Hwf. msimpl.
  cases32 Hmp; unfold write_mem; cbv beta iota; wp_pure;
    lazymatch goal with
    | |- wp (update _ _) _ _ =>
        apply update_ok; [wf_tac | done | intros c Hc; cell_tac |];
        intros pd' Hpd'; msimpl; eexists _, _; split; [mnorm; reflexivity | done]
    | |- wp (store_ram _ _ _) _ _ =>
        apply store_ram_ok;
          [wf_tac | done | cbv; split; congruence | apply u8_bounds |];
        intros pd' Hpd'; msimpl; eexists _, _; split; [mnorm; reflexivity | done]
    | |- wp (load _) _ _ =>
        apply load_ok; [wf_tac | done |];
        intros c Hc Hok; wp_pure;
        let Hfc := fresh in
        pose proof Hok as (_ & Hfc & _);
        destruct (getNeighbor_valid px py (facing c) Hxy Hfc) as (q & Hq & Hqv);
        (eapply wp_lift; [exact Hq|]); wp_pure;
        (apply load_ok; [wf_tac | done |]);
        intros c' Hc' Hok'; wp_pure;
        (apply accessAllowed_ok; [wf_tac | done |]);
        intros [|]; wp_pure;
        [ apply store_ram_ok;
            [ wf_tac | done | cbv; split; congruence
            | apply u8_bounds |];
          intros pd' Hpd'; msimpl; eexists _, _; split; [mnorm; reflexivity | done]
        | eexists _, _; split; [mnorm; reflexivity | done] ]
    | |- _ => eexists _, _; split; [mnorm; reflexivity | done]
    end.
Qed.

Lemma write_mem_ok p (px py mp v : Z) m :
  wf m -> valid p -> valid (px, py) -> 0 <= mp < 32 ->
  wp (write_mem p px py mp v)
     (fun _ m' =>
        exists pd s st,
          m' = set_statCounters st (set_rng s (set_pond pd m)) /\
          pond_ok pd /\
          instructionExecutions st = instructionExecutions (statCounters m)) m.
Proof.
  intros Hwf Hp Hxy Hmp.
  eapply wp_mono; [by apply write_mem_counted|].
  cbv beta. intros _ m' (pd & s & -> & Hpd). eexists _, _, _.
  split; [reflexivity|]. split; [done | apply counted_write_frame].
Qed.

(** *** The instructions under the invariant *)

Lemma for_loop_ok (I : Machine -> Prop) (body : Z -> M unit) (n : nat) :
  forall (from : Z) m,
    I m ->
    (forall i m0, from <= i < from + Z.of_nat n -> I m0 ->
                  wp (body i) (fun _ m' => I m') m0) ->
    wp (for_loop from n body) (fun _ m' => I m') m.
Proof.
  induction n as [|n IH]; intros from m Hm Hbody; simpl.
  - by apply wp_ret.
  - apply wp_bind. eapply wp_mono; [apply Hbody; [lia | done]|].
    cbv beta. intros _ m1 Hm1. apply IH; [done|].
    intros i m0 Hi. apply Hbody. lia.
Qed.

Lemma Forall_take_push (P : Z -> Prop) (l : list Z) (n : nat) (v : Z) :
  (n < length l)%nat -> Forall P (take n l) -> P v ->
  Forall P (take (S n) (<[n := v]> l)).
Proof.
  intros Hn Hall Hv.
  rewrite (take_S_r _ _ v) by (by apply list_lookup_insert_eq).
  rewrite take_insert_ge by lia. apply Forall_app. split; [done | by constructor].
Qed.

Lemma Forall_take_le (P : Z -> Prop) (l : list Z) (n k : nat) :
  (k <= n)%nat -> Forall P (take n l) -> Forall P (take k l).
Proof.
  intros Hk Hall. replace k with (min k n) by lia.
  rewrite <- take_take. by apply Forall_take.
Qed.

Lemma wf_stack_top m :
  wf m -> 0 < loopStackPtr m ->
  exists ip, aget (loopStack m) (loopStackPtr m - 1) = Some ip /\ 0 <= ip < POND_DEPTH.
Proof.
  intros Hwf Hpos. wf_parts Hwf.
  destruct (aget_in_bounds (loopStack m) (loopStackPtr m - 1)) as [ip Hget]; [lia|].
  exists ip. split; [done|].
  rewrite aget_lookup in Hget by lia.
  assert (Hin : take (Z.to_nat (loopStackPtr m)) (loopStack m)
                  !! Z.to_nat (loopStackPtr m - 1) = Some ip).
  { by rewrite lookup_take_lt by lia. }
  exact (Forall_lookup_1 _ _ _ _ Hstk Hin).
Qed.

Lemma op_FWD_ok m : wf m -> wp op_FWD (fun _ m' => wf m') m.
Proof.
  intros Hwf. wf_parts Hwf. pose proof depth_fits. pose proof depth_holds_reg.
  unfold op_FWD. wp_pure. rewrite wrap_small by lia.
  destruct (Z.leb_spec POND_DEPTH (ptr_ioPtr m + 1)); wf_tac.
Qed.

Lemma op_BACK_ok m : wf m -> wp op_BACK (fun _ m' => wf m') m.
Proof.
  intros Hwf. wf_parts Hwf. pose proof depth_fits. pose proof depth_holds_reg.
  unfold op_BACK. wp_pure.
  destruct (Z.eqb_spec (ptr_ioPtr m) 0); wp_pure.
  - wf_tac.
  - rewrite wrap_small by lia. wf_tac.
Qed.

Lemma op_DIV_ok m : wf m -> wp op_DIV (fun _ m' => wf m') m.
Proof.
  intros Hwf. wf_parts Hwf. unfold op_DIV. wp_pure.
  pose proof (read_window_ok m Hwf) as Hr1.
  apply wp_elim in Hr1 as (tmp & m1 & Hrun1 & Htmp & st1 & -> & Hst1).
  eapply wp_intro; [exact Hrun1|]. cbv beta.
  assert (Hwf1 : wf (set_statCounters st1 m)) by (by apply wf_set_stats).
  destruct (Z.eqb_spec tmp 0) as [->|Hnz]; wp_pure.
  - wf_tac.
  - pose proof (read_window_ok _ Hwf1) as Hr2.
    apply wp_elim in Hr2 as (d & m2 & Hrun2 & Hd & st2 & -> & Hst2).
    eapply wp_intro; [exact Hrun2|]. wp_pure.
    assert (Hsame : d = tmp).
    { pose proof (read_window_pond_only (set_statCounters st1 m) m) as Hpo.
      rewrite Hrun1, Hrun2 in Hpo. simpl in Hpo.
      by injection (Hpo Hmp eq_refl eq_refl eq_refl eq_refl). }
    subst d. eapply wp_lift.
    { unfold cdiv. by destruct (Z.eqb_spec tmp 0). }
    wp_pure. wf_tac.
Qed.

Lemma op_LOOP_ok m : wf m -> wp op_LOOP (fun _ m' => wf m') m.
Proof.
  intros Hwf. wf_parts Hwf. pose proof depth_fits. pose proof depth_holds_reg.
  unfold op_LOOP. wp_pure.
  destruct (Z.eqb_spec (reg m) 0); wp_pure.
  - wf_tac.
  - destruct (Z.leb_spec POND_DEPTH (loopStackPtr m)); wp_pure.
    + wf_tac.
    + eapply wp_lift; [apply aset_in_bounds; lia|]. wp_pure.
      rewrite wrap_small by lia. wf_tac.
      * by rewrite length_insert.
      * replace (Z.to_nat (loopStackPtr m + 1)) with (S (Z.to_nat (loopStackPtr m))) by lia.
        apply Forall_take_push; [lia | done | done].
Qed.

Lemma op_REP_ok m : wf m -> wp op_REP (fun _ m' => wf m') m.
Proof.
  intros Hwf. pose proof depth_fits. pose proof depth_holds_reg.
  unfold op_REP. wp_pure.
  destruct (Z.eqb_spec (loopStackPtr m) 0) as [Hz|Hnz]; wp_pure.
  - done.
  - wf_parts Hwf.
    destruct (wf_stack_top m Hwf) as (ip & Hget & Hipr); [lia|].
    rewrite wrap_small by lia.
    assert (Hpop : Forall (fun v => 0 <= v < POND_DEPTH)
                     (take (Z.to_nat (loopStackPtr m - 1)) (loopStack m))).
    { eapply Forall_take_le; [|exact Hstk]. lia. }
    destruct (Z.eqb_spec (reg m) 0); wp_pure.
    + wf_tac.
    + eapply wp_lift; [exact Hget|]. wp_pure. wf_tac.
Qed.

Lemma op_TURN_ok m : wf m -> wp op_TURN (fun _ m' => wf m') m.
Proof.
  intros Hwf. wf_parts Hwf. unfold op_TURN. wp_pure.
  apply load_ok; [done..|]. intros c Hc Hcok. wp_pure.
  destruct (2 <? generation c); wp_pure.
  - apply faced_ok; [done|]. intros q Hq Hf. wp_pure.
    apply load_ok; [done..|]. intros n Hn Hnok. wp_pure.
    eapply (wp_mono _ (fun _ m1 => exists s, m1 = set_rng s m)).
    { destruct (2 <? generation n); wp_pure.
      - apply accessAllowed_ok; [done..|]. intros b. by eexists.
      - exists (rng m). by destruct m. }
    intros ok m1 [s ->]. cbv beta.
    assert (Hwf1 : wf (set_rng s m)) by (by apply wf_set_rng).
    destruct ok; wp_pure.
    + apply load_genome_ok.
      * by apply wf_set_rng.
      * by destruct (negb (Z.land (getRandom s).1 8 =? 0)).
      * done.
      * intros v Hv. wp_pure. wf_tac.
    + apply load_genome_ok; [done..|]. intros v Hv. wp_pure. wf_tac.
  - apply load_genome_ok; [done..|]. intros v Hv. wp_pure. wf_tac.
Qed.

Lemma op_XCHG_ok m : wf m -> wp op_XCHG (fun _ m' => wf m') m.
Proof.
  intros Hwf. wf_parts Hwf. pose proof depth_fits. pose proof depth_holds_reg.
  unfold op_XCHG. wp_pure. rewrite wrap_small by lia.
  set (ip' := if POND_DEPTH <=? instPtr m + 1 then EXEC_START_INST else instPtr m + 1).
  assert (Hip' : 0 <= ip' < POND_DEPTH).
  { subst ip'. unfold EXEC_START_INST.
    destruct (Z.leb_spec POND_DEPTH (instPtr m + 1)); lia. }
  clearbody ip'.
  apply load_genome_ok; [wf_tac | done | done |]. intros v Hv. wp_pure.
  apply store_genome_ok; [wf_tac | done | done | |].
  { apply u8_inst. }
  intros pd Hpd. wp_pure. wf_tac.
Qed.

Lemma op_KILL_ok m : wf m -> wp op_KILL (fun _ m' => wf m') m.
Proof.
  intros Hwf. wf_parts Hwf. unfold op_KILL. wp_pure.
  apply faced_ok; [done|]. intros q Hq Hf. wp_pure.
  apply accessAllowed_ok; [done..|]. intros ok.
  assert (Hwf1 : wf (set_rng (getRandom (rng m)).2 m)) by (by apply wf_set_rng).
  destruct ok; wp_pure.
  - apply load_ok; [done..|]. intros n Hn Hnok. wp_pure.
    eapply (wp_mono _ (fun _ m1 => wf m1)).
    { destruct (2 <? generation n); wp_pure; [|done]. wf_tac. }
    intros _ m1 Hwf2. cbv beta. wp_pure.
    eapply wp_lift.
    { apply afill_all. by destruct Hnok as (_ & _ & _ & Hlen & _). }
    wp_pure.
    apply update_ok; [done | done | intros c Hc; cell_tac |]. intros pd1 Hpd1. wp_pure.
    apply update_ok; [wf_tac | done | intros c Hc; cell_tac |]. intros pd2 Hpd2. wp_pure.
    apply update_ok; [wf_tac | done | intros c Hc; cell_tac |]. intros pd3 Hpd3. wp_pure.
    apply update_ok; [wf_tac | done | intros c Hc; cell_tac |]. intros pd4 Hpd4. wp_pure.
    apply update_ok; [wf_tac | done | intros c Hc; cell_tac |]. intros pd5 Hpd5. wp_pure.
    apply update_ok; [wf_tac | done | intros c Hc; cell_tac |]. intros pd6 Hpd6. wp_pure.
    apply update_ok; [wf_tac | done | intros c Hc; cell_tac |]. intros pd7 Hpd7. wp_pure.
    wf_tac.
  - apply load_ok; [done..|]. intros n Hn Hnok. wp_pure.
    destruct (2 <? generation n); wp_pure; [|done].
    apply load_ok; [done | by apply wf_pptr |]. intros c Hc Hcok. wp_pure.
    eapply wp_lift.
    { unfold cdiv. pose proof penalty_pos.
      destruct (Z.eqb_spec FAILED_KILL_PENALTY 0); [lia | reflexivity]. }
    destruct (energy c / FAILED_KILL_PENALTY <? energy c);
      (apply update_ok; [done | by apply wf_pptr | intros c' Hc'; cell_tac |]);
      intros pd Hpd; wf_tac.
Qed.

Lemma op_SHARE_ok m : wf m -> wp op_SHARE (fun _ m' => wf m') m.
Proof.
  intros Hwf. wf_parts Hwf. unfold op_SHARE. wp_pure.
  apply faced_ok; [done|]. intros q Hq Hf. wp_pure.
  apply accessAllowed_ok; [done..|]. intros ok.
  assert (Hwf1 : wf (set_rng (getRandom (rng m)).2 m)) by (by apply wf_set_rng).
  destruct ok; wp_pure; [|done].
  apply load_ok; [done..|]. intros n Hn Hnok. wp_pure.
  eapply (wp_mono _ (fun _ m1 => wf m1 /\ x m1 = x m /\ y m1 = y m)).
  { destruct (2 <? generation n); wp_pure; [|done]. split; [wf_tac | done]. }
  intros _ m1 (Hwf2 & Hx1 & Hy1). cbv beta. wp_pure.
  assert (Hxy1 : valid (x m, y m)) by done.
  apply load_ok; [done | done |]. intros c Hc Hcok. wp_pure.
  apply load_ok; [done | done |]. intros n0 Hn0 Hn0ok. wp_pure.
  set (tmp := wrap (energy c + energy n0)).
  assert (Htmp : 0 <= tmp < 2 ^ SYSWORD_BITS) by apply wrap_bounds.
  assert (Hhalf : 0 <= tmp / 2 < 2 ^ SYSWORD_BITS).
  { split; [apply Z.div_pos; lia|]. apply Z.div_lt_upper_bound; lia. }
  clearbody tmp.
  apply update_ok; [done | done | intros c' Hc'; cell_tac |]. intros pd1 Hpd1. wp_pure.
  apply load_ok; [wf_tac | done |]. intros n' Hn' Hn'ok. wp_pure.
  apply update_ok; [wf_tac | done | intros c' Hc'; cell_tac |]. intros pd2 Hpd2. wp_pure.
  wf_tac.
Qed.

Lemma op_CLEARM_ok m :
  wf m ->
  wp (for_loop 0 (Z.to_nat RAM_SIZE) (fun i => store_ram (x m, y m) i 0x0))
     (fun _ m' => wf m') m.
Proof.
  intros Hwf.
  eapply (wp_mono _ (fun _ m' => wf m' /\ x m' = x m /\ y m' = y m)).
  - apply (for_loop_ok (fun m' => wf m' /\ x m' = x m /\ y m' = y m)); [done|].
    intros i m0 Hi (Hwf0 & Hx0 & Hy0). unfold RAM_SIZE in Hi.
    apply store_ram_ok; [done | | lia | lia |].
    + rewrite <- Hx0, <- Hy0. by apply wf_pptr.
    + intros pd Hpd. split; [by apply wf_set_pond | done].
  - by intros _ m' (Hwf' & _).
Qed.

Lemma count_inst_ok inst m :
  wf m -> 0 <= inst < 32 -> wp (count_inst inst) (fun _ m' => wf m') m.
Proof.
  intros Hwf Hinst. wf_parts Hwf. unfold count_inst. wp_pure.
  change (Z.to_nat NUM_INST) with 32%nat in Hie.
  destruct (aget_in_bounds (instructionExecutions (statCounters m)) inst) as [n Hn]; [lia|].
  eapply wp_lift; [exact Hn|]. wp_pure.
  eapply wp_lift; [apply aset_in_bounds; lia|]. wp_pure.
  wf_tac. by rewrite length_insert.
Qed.

(** A case of the dispatch that is a named block followed by [break]. *)
Ltac op_case lem :=
  apply wp_bind; eapply wp_mono;
  [ by apply lem | cbv beta; intros _ ? ?; by apply wp_ret ].

(** A case of the dispatch that combines the register with a read of the
    memory window. *)
Ltac window_case Hwf :=
  wp_pure; eapply wp_mono; [ by apply read_window_ok | ];
  cbv beta; intros ? ? (? & ? & -> & ?); wp_pure; wf_parts Hwf; wf_tac.

Lemma dispatch_ok inst m :
  wf m -> 0 <= inst < 32 -> wp (dispatch inst) (fun _ m' => wf m') m.
Proof.
  intros Hwf Hinst. pose proof depth_fits. pose proof depth_holds_reg.
  cases32 Hinst; unfold dispatch; cbv beta iota.
  - (* STOP *) wp_pure. by apply wf_set_stop.
  - (* FWD *) op_case op_FWD_ok.
  - (* BACK *) op_case op_BACK_ok.
  - (* INC *) wp_pure. wf_parts Hwf. wf_tac.
  - (* DEC *) wp_pure. wf_parts Hwf. wf_tac.
  - (* READG *) wf_parts Hwf. wp_pure.
    apply load_genome_ok; [done..|]. intros v Hv. wp_pure. wf_tac.
  - (* WRITEG *) wf_parts Hwf. wp_pure.
    apply store_genome_ok; [done | done | done | apply u8_inst |].
    intros pd Hpd. wp_pure. wf_tac.
  - (* READO *) wf_parts Hwf. wp_pure.
    destruct (aget_in_bounds (outputBuf m) (ptr_ioPtr m)) as [v Hv]; [lia|].
    eapply wp_lift; [exact Hv|]. wp_pure.
    pose proof (aget_Forall _ _ _ _ Hobv Hv) as Hv32. cbv beta in Hv32. wf_tac.
  - (* WRITEO *) wf_parts Hwf. wp_pure.
    eapply wp_lift; [apply aset_in_bounds; lia|]. wp_pure.
    pose proof (u8_inst (reg m)). wf_tac.
    + by rewrite length_insert.
    + by apply Forall_insert.
  - (* LOOP *) op_case op_LOOP_ok.
  - (* REP *) by apply op_REP_ok.
  - (* TURN *) op_case op_TURN_ok.
  - (* XCHG *) op_case op_XCHG_ok.
  - (* KILL *) op_case op_KILL_ok.
  - (* SHARE *) op_case op_SHARE_ok.
  - (* ZERO *) wp_pure. wf_parts Hwf. wf_tac.
  - (* SETP *) wp_pure. wf_parts Hwf. wf_tac.
  - (* NEXTB *) wp_pure. wf_parts Hwf. wf_tac.
  - (* PREVB *) wp_pure. wf_parts Hwf. wf_tac.
  - (* NEXTM *) wp_pure. wf_parts Hwf. wf_tac.
  - (* PREVM *) wp_pure. wf_parts Hwf. wf_tac.
  - (* READM *) window_case Hwf.
  - (* WRITEM *) wf_parts Hwf. wp_pure.
    eapply wp_mono; [by apply write_mem_ok|].
    cbv beta. intros _ m1 (pd & s & st & -> & Hpd & Hst). wp_pure. wf_tac.
  - (* CLEARM *) wp_pure.
    eapply wp_mono; [by apply op_CLEARM_ok|].
    cbv beta. intros _ m1 Hwf1. by apply wp_ret.
  - (* ADD *) window_case Hwf.
  - (* SUB *) window_case Hwf.
  - (* MUL *) window_case Hwf.
  - (* DIV *) op_case op_DIV_ok.
  - (* SHL *) wp_pure. wf_parts Hwf. wf_tac.
  - (* SHR *) wp_pure. wf_parts Hwf. wf_tac.
  - (* SETMP *) wp_pure. wf_parts Hwf. wf_tac.
  - (* RAND *) wp_pure. wf_parts Hwf. wf_tac.
Qed.

Lemma execute_ok inst m :
  wf m -> 0 <= inst < 32 -> wp (execute inst) (fun _ m' => wf m') m.
Proof.
  intros Hwf Hinst. unfold execute. wp_pure.
  destruct (Z.eqb_spec (falseLoopDepth m) 0); wp_pure.
  - eapply wp_mono; [by apply count_inst_ok|].
    cbv beta. intros _ m1 Hwf1. by apply dispatch_ok.
  - eapply (wp_mono _ (fun _ m1 => wf m1)).
    + destruct (inst =? 9); wp_pure;
        [apply wf_set_falseLoopDepth; [done | apply wrap_bounds]|].
      destruct (inst =? 10); wp_pure;
        [apply wf_set_falseLoopDepth; [done | apply wrap_bounds] | done].
    + cbv beta. intros _ m1 Hwf1. by apply wp_ret.
Qed.

(** C7: from every representable state of the virtual machine, and for
    every 5-bit instruction, the dispatch runs to its end without an
    access outside the genome, the output buffer, the RAM, the loop
    stack, the direction map, the counter table or the pond, without a
    division by zero, and leaves a representable state.  This holds for
    the [switch] alone and for the [switch] under its false-loop test. *)
Theorem dispatch_stays_in_bounds inst m :
  wf m -> 0 <= inst < 32 ->
  (exists r m', dispatch inst m = Some (r, m') /\ wf m') /\
  (exists r m', execute inst m = Some (r, m') /\ wf m').
Proof.
  intros Hwf Hinst. split.
  - by apply wp_elim, dispatch_ok.
  - by apply wp_elim, execute_ok.
Qed.

(** [SETP] stores the whole 8-bit register in the I/O pointer; it stays
    below [POND_DEPTH] because the depth is at least 256. *)
Lemma SETP_io_in_range m :
  wf m ->
  exists m', dispatch OP_SETP m = Some (false, m') /\
             ptr_ioPtr m' = reg m /\ 0 <= ptr_ioPtr m' < POND_DEPTH.
Proof.
  intros Hwf. wf_parts Hwf. pose proof depth_holds_reg.
  eexists. split; [reflexivity|]. msimpl. split; [done | lia].
Qed.

(** *** The whole iteration, the core execution loop and the tick *)

Lemma mutate_ok inst m :
  wf m -> 0 <= inst < 32 ->
  wp (mutate inst) (fun i m' => 0 <= i < 32 /\ wf m') m.
Proof.
  intros Hwf Hinst. wf_parts Hwf. unfold mutate. wp_pure.
  assert (Hwf1 : wf (set_rng (getRandom (rng m)).2 m)) by (by apply wf_set_rng).
  destruct (Z.land (getRandom (rng m)).1 4294967295 <? MUTATION_RATE); wp_pure;
    [|done].
  set (s2 := (getRandom (getRandom (rng m)).2).2).
  set (tmp := (getRandom (getRandom (rng m)).2).1). clearbody s2 tmp.
  destruct (negb (Z.land tmp 131072 =? 0)); destruct (negb (Z.land tmp 65536 =? 0));
    wp_pure.
  - split; [apply land31 | wf_tac].
  - split; [done | wf_tac].
  - split; [done | wf_tac].
  - apply store_ram_ok; [wf_tac | done | apply land15 | apply u8_bounds |].
    intros pd Hpd. wp_pure. split; [done | wf_tac].
Qed.

Lemma debit_ok m : wf m -> wp debit (fun _ m' => wf m') m.
Proof.
  intros Hwf. unfold debit. wp_pure.
  apply update_ok; [done | by apply wf_pptr | intros c Hc; cell_tac |].
  intros pd Hpd. by apply wf_set_pond.
Qed.

Lemma advance_ok m : wf m -> wp advance (fun _ m' => wf m') m.
Proof.
  intros Hwf. wf_parts Hwf. pose proof depth_fits. pose proof depth_holds_reg.
  unfold advance. wp_pure. rewrite wrap_small by lia. unfold EXEC_START_INST.
  destruct (Z.leb_spec POND_DEPTH (instPtr m + 1)); wf_tac.
Qed.

(** An iteration of the core execution loop, mutation included, stays in
    bounds and keeps the state representable. *)
Lemma step_ok m : wf m -> wp step (fun _ m' => wf m') m.
Proof.
  intros Hwf. wf_parts Hwf. unfold step. wp_pure.
  apply load_genome_ok; [done..|]. intros inst0 Hinst0. wp_pure.
  eapply wp_mono; [by apply mutate_ok|].
  cbv beta. intros inst m1 [Hinst Hwf1]. wp_pure.
  eapply wp_mono; [by apply debit_ok|].
  cbv beta. intros _ m2 Hwf2. wp_pure.
  eapply wp_mono; [by apply execute_ok|].
  cbv beta. intros continue m3 Hwf3.
  destruct continue; [by apply wp_ret | by apply advance_ok].
Qed.

Lemma running_ok m (Q : bool -> Machine -> Prop) :
  wf m -> (forall b, Q b m) -> wp running Q m.
Proof.
  intros Hwf HQ. unfold running. wp_pure.
  apply load_ok; [done | by apply wf_pptr |]. intros c Hc Hcok. wp_pure. apply HQ.
Qed.

(** The core execution loop stays in bounds for every amount of fuel. *)
Lemma run_ok fuel : forall m, wf m -> wp (run fuel) (fun _ m' => wf m') m.
Proof.
  induction fuel as [|fuel IH]; intros m Hwf; simpl.
  - apply wp_bind. apply running_ok; [done|]. intros b. by apply wp_ret.
  - apply wp_bind. apply running_ok; [done|]. intros [|]; [|by apply wp_ret].
    apply wp_bind. eapply wp_mono; [by apply step_ok|].
    cbv beta. intros _ m1 Hwf1. by apply IH.
Qed.

Lemma cmod_ok (a b : Z) : 0 < b -> cmod a b = Some (a mod b) /\ 0 <= a mod b < b.
Proof.
  intros Hb. unfold cmod. destruct (Z.eqb_spec b 0); [lia|].
  split; [done | by apply Z.mod_pos_bound].
Qed.

Lemma wf_set_x m v : wf m -> 0 <= v < POND_SIZE_X -> wf (set_x v m).
Proof. intros Hwf Hv. wf_parts Hwf. destruct Hxy. wf_tac. split; simpl in *; lia. Qed.

Lemma wf_set_y m v : wf m -> 0 <= v < POND_SIZE_Y -> wf (set_y v m).
Proof. intros Hwf Hv. wf_parts Hwf. destruct Hxy. wf_tac. split; simpl in *; lia. Qed.

Lemma randomize_ram_ok p m :
  wf m -> valid p ->
  wp (randomize_ram p)
     (fun _ m' => wf m' /\ x m' = x m /\ y m' = y m /\ reg m' = reg m /\
                  outputBuf m' = outputBuf m /\ cellIdCounter m' = cellIdCounter m) m.
Proof.
  intros Hwf Hp. unfold randomize_ram.
  apply (for_loop_ok
           (fun m' => wf m' /\ x m' = x m /\ y m' = y m /\ reg m' = reg m /\
                      outputBuf m' = outputBuf m /\ cellIdCounter m' = cellIdCounter m));
    [done|].
  intros i m0 Hi (Hwf0 & Hx0 & Hy0 & Hr0 & Ho0 & Hc0). unfold RAM_SIZE in Hi. wp_pure.
  apply store_ram_ok; [by apply wf_set_rng | done | lia | apply u8_bounds |].
  intros pd Hpd. split; [apply wf_set_pond; [by apply wf_set_rng | done] | done].
Qed.

(** The commands that write one cell, with the cell they leave. *)

Lemma update_track p f m (Q : unit -> Machine -> Prop) c :
  wf m -> pond_get (pond m) p = Some c -> cell_ok (f c) ->
  (forall pd,
     pond_ok pd -> pond_get pd p = Some (f c) ->
     (forall q, q <> p -> pond_get pd q = pond_get (pond m) q) ->
     Q tt (set_pond pd m)) ->
  wp (update p f) Q m.
Proof.
  intros Hwf Hc Hok HQ. wf_parts Hwf.
  eapply wp_update; [done|]. apply HQ.
  - by apply pond_ok_put.
  - by eapply pond_get_put_eq.
  - intros q Hq. by eapply pond_get_put_ne.
Qed.

Lemma store_genome_track p i v m (Q : unit -> Machine -> Prop) c :
  wf m -> pond_get (pond m) p = Some c ->
  0 <= i < POND_DEPTH -> 0 <= v < 32 ->
  (forall pd,
     pond_ok pd ->
     pond_get pd p = Some (set_genome (<[Z.to_nat i := v]> (genome c)) c) ->
     (forall q, q <> p -> pond_get pd q = pond_get (pond m) q) ->
     Q tt (set_pond pd m)) ->
  wp (store_genome p i v) Q m.
Proof.
  intros Hwf Hc Hi Hv HQ. wf_parts Hwf.
  destruct (pond_ok_valid _ _ _ Hpond Hc) as [Hp Hcok].
  unfold store_genome. apply wp_bind. eapply wp_load; [done|].
  apply wp_bind. eapply wp_lift.
  { apply aset_in_bounds. destruct Hcok as (_ & _ & _ & Hlen & _). lia. }
  eapply update_track; [done | done | cell_tac | done].
Qed.

Lemma store_ram_track p i v m (Q : unit -> Machine -> Prop) c :
  wf m -> pond_get (pond m) p = Some c ->
  0 <= i < 16 -> 0 <= v < 256 ->
  (forall pd,
     pond_ok pd ->
     pond_get pd p = Some (set_ram (<[Z.to_nat i := v]> (ram c)) c) ->
     (forall q, q <> p -> pond_get pd q = pond_get (pond m) q) ->
     Q tt (set_pond pd m)) ->
  wp (store_ram p i v) Q m.
Proof.
  intros Hwf Hc Hi Hv HQ. wf_parts Hwf.
  destruct (pond_ok_valid _ _ _ Hpond Hc) as [Hp Hcok].
  unfold store_ram. apply wp_bind. eapply wp_load; [done|].
  apply wp_bind. eapply wp_lift.
  { apply aset_in_bounds. destruct Hcok as (_ & _ & _ & _ & _ & Hlen & _).
    unfold RAM_SIZE in Hlen. lia. }
  eapply update_track; [done | done | cell_tac | done].
Qed.

Lemma scribbled_refl p (J : Cell -> Prop) m c :
  wf m -> pond_get (pond m) p = Some c -> J c -> scribbled p J m m.
Proof.
  intros Hwf Hc HJ. split; [done|]. split; [|split; [done | eauto]].
  exists (pond m), (rng m). by destruct m.
Qed.

Lemma scribbled_step p (J : Cell -> Prop) m m0 pd s c :
  scribbled p J m m0 ->
  pond_ok pd -> pond_get pd p = Some c -> J c ->
  (forall q, q <> p -> pond_get pd q = pond_get (pond m0) q) ->
  scribbled p J m (set_pond pd (set_rng s m0)).
Proof.
  intros (Hwf0 & (pd0 & s0 & ->) & Hframe & _) Hpd Hc HJ Hfr.
  split; [apply wf_set_pond; [by apply wf_set_rng | done]|].
  split; [by exists pd, s|].
  split; [|by exists c].
  intros q Hq. msimpl. rewrite (Hfr q Hq). msimpl. by apply Hframe.
Qed.

Lemma random_genome_spec p (J : Cell -> Prop) m :
  wf m ->
  (forall c g, J c -> J (set_genome g c)) ->
  (exists c, pond_get (pond m) p = Some c /\ J c) ->
  wp (for_loop 0 (Z.to_nat POND_DEPTH)
        (fun i => r <- draw; store_genome p i (u8 (Z.land r INST_MASK))))
     (fun _ m' => scribbled p J m m') m.
Proof.
  intros Hwf HJ (c & Hc & HJc). pose proof depth_holds_reg.
  apply (for_loop_ok (scribbled p J m)); [by eapply scribbled_refl|].
  intros i m0 Hi Hscr. pose proof Hscr as (Hwf0 & _ & _ & c0 & Hc0 & HJ0).
  wp_pure.
  eapply store_genome_track;
    [by apply wf_set_rng | msimpl; exact Hc0 | lia | apply u8_inst |].
  intros pd Hpd Hget Hfr. eapply scribbled_step; eauto.
Qed.

Lemma randomize_ram_spec p (J : Cell -> Prop) m :
  wf m ->
  (forall c r, J c -> J (set_ram r c)) ->
  (exists c, pond_get (pond m) p = Some c /\ J c) ->
  wp (randomize_ram p) (fun _ m' => scribbled p J m m') m.
Proof.
  intros Hwf HJ (c & Hc & HJc). unfold randomize_ram.
  apply (for_loop_ok (scribbled p J m)); [by eapply scribbled_refl|].
  intros i m0 Hi Hscr. pose proof Hscr as (Hwf0 & _ & _ & c0 & Hc0 & HJ0).
  unfold RAM_SIZE in Hi. wp_pure.
  eapply store_ram_track;
    [by apply wf_set_rng | msimpl; exact Hc0 | lia | apply u8_bounds |].
  intros pd Hpd Hget Hfr. eapply scribbled_step; eauto.
Qed.

(** The seeding block stays in bounds; it gives the cell it picks the
    current value of [cellIdCounter] as [ID] and [lineage], clears its
    parent, generation, logo and facing, and increments the counter
    afterwards. *)
Lemma seed_spec m :
  wf m ->
  wp seed
     (fun _ m' =>
        wf m' /\
        cellIdCounter m' = snd (assign_id Seeding (cellIdCounter m)) /\
        exists c, pond_get (pond m') (x m', y m') = Some c /\
                  founder (fst (assign_id Seeding (cellIdCounter m))) c) m.
Proof.
  intros Hwf. unfold seed. wp_pure.
  destruct (cmod_ok (getRandom (rng m)).1 POND_SIZE_X pond_x_pos) as [Hcx Hx].
  eapply wp_lift; [exact Hcx|]. wp_pure.
  set (s1 := (getRandom (rng m)).2). set (x' := (getRandom (rng m)).1 mod POND_SIZE_X) in *.
  destruct (cmod_ok (getRandom s1).1 POND_SIZE_Y pond_y_pos) as [Hcy Hy].
  eapply wp_lift; [exact Hcy|]. wp_pure.
  set (s2 := (getRandom s1).2). set (y' := (getRandom s1).1 mod POND_SIZE_Y) in *.
  clearbody s1 s2 x' y'.
  assert (Hp : valid (x', y')) by (split; simpl; lia).
  set (id := cellIdCounter m).
  set (m1 := set_y y' (set_rng s2 (set_x x' (set_rng s1 m)))).
  assert (Hwf1 : wf m1).
  { apply wf_set_y; [|done]. apply wf_set_rng. apply wf_set_x; [|done].
    by apply wf_set_rng. }
  assert (Hx1 : x m1 = x') by reflexivity.
  assert (Hy1 : y m1 = y') by reflexivity.
  assert (Hid1 : cellIdCounter m1 = id) by reflexivity.
  clearbody m1.
  destruct (pond_ok_get (pond m1) (x', y')) as (c0 & Hc0 & Hok0);
    [by wf_parts Hwf1 | done |].
  eapply update_track; [done | done | cell_tac |]. intros pd1 Hpd1 Hg1 _. wp_pure.
  eapply update_track; [wf_tac | exact Hg1 | cell_tac |].
  intros pd2 Hpd2 Hg2 _. wp_pure.
  eapply update_track; [wf_tac | exact Hg2 | cell_tac |].
  intros pd3 Hpd3 Hg3 _. wp_pure.
  eapply update_track; [wf_tac | exact Hg3 | cell_tac |].
  intros pd4 Hpd4 Hg4 _. wp_pure.
  eapply update_track; [wf_tac | exact Hg4 | cell_tac |].
  intros pd5 Hpd5 Hg5 _. wp_pure.
  eapply update_track; [wf_tac | exact Hg5 | cell_tac |].
  intros pd6 Hpd6 Hg6 _. wp_pure.
  eapply wp_load; [exact Hg6|]. wp_pure.
  set (c6 := set_facing 0 (set_logo 0 (set_generation 0
               (set_lineage id (set_parentID 0 (set_ID id c0)))))) in *.
  assert (Hc6 : cell_ok c6) by (subst c6; cell_tac).
  assert (HJ6 : founder id c6) by (subst c6; by repeat split).
  clearbody c6.
  assert (Hwf6 : wf (set_pond pd6 (set_pond pd5 (set_pond pd4 (set_pond pd3 (set_pond pd2 (set_pond pd1 m1))))))) by wf_tac.
  eapply (wp_mono _ (fun _ m2 =>
            wf m2 /\ x m2 = x' /\ y m2 = y' /\ cellIdCounter m2 = id /\
            exists c, pond_get (pond m2) (x', y') = Some c /\ founder id c)).
  { match goal with |- wp (if ?b then _ else _) _ _ => destruct b end; wp_pure.
    - match goal with |- context [cmod ?r INFLOW_RATE_VARIATION] =>
        destruct (cmod_ok r INFLOW_RATE_VARIATION inflow_var_pos) as [Hcv _] end.
      eapply wp_lift; [exact Hcv|]. wp_pure.
      eapply update_track; [wf_tac | exact Hg6 | cell_tac |].
      intros pd7 Hpd7 Hg7 _. msimpl.
      split; [wf_tac|].
      split; [done|]. split; [done|]. split; [done|].
      eexists. split; [exact Hg7 | exact HJ6].
    - split; [done|]. split; [done|]. split; [done|]. split; [done|].
      eexists. split; [exact Hg6 | exact HJ6]. }
  cbv beta. intros _ m2 (Hwf2 & Hx2 & Hy2 & Hid2 & c & Hc & HJ). wp_pure.
  eapply wp_mono.
  { apply (random_genome_spec (x', y') (founder id)); [by apply wf_set_instPtr; [|wf_parts Hwf2; pose proof depth_holds_reg; lia] | by intros | by exists c]. }
  cbv beta. intros _ m3 (Hwf3 & (pd & s & ->) & _ & c3 & Hc3 & HJ3). wp_pure.
  eapply wp_mono.
  { apply (randomize_ram_spec (x', y') (founder id)); [done | by intros | by exists c3]. }
  cbv beta. intros _ m4 (Hwf4 & (pd' & s' & ->) & _ & c4 & Hc4 & HJ4). wp_pure.
  split; [by apply wf_set_cellIdCounter|]. rewrite Hid2.
  split; [done|]. rewrite Hx2, Hy2. by exists c4.
Qed.

Lemma seed_ok m : wf m -> wp seed (fun _ m' => wf m') m.
Proof.
  intros Hwf. eapply wp_mono; [by apply seed_spec|]. by intros _ m' [Hwf' _].
Qed.

(** The reproduction invariant.  When the executing cell [self] has at
    least [REPRODUCTION_COST] units of energy, the output buffer does not
    start with [STOP], the faced cell [nb] has energy and the access test
    succeeds, the block after the core execution loop replaces [nb] by a
    child: its ID is the incremented [cellIdCounter], which is also the
    value the counter is left with; its parent is [self], its lineage
    that of [self], its generation one more; its genome is the output
    buffer; it keeps the energy of [nb].  [self] pays
    [REPRODUCTION_COST]. *)
Lemma birth_spec m tmpptr self nb o0 :
  wf m ->
  1 < POND_SIZE_X -> 1 < POND_SIZE_Y ->
  pond_get (pond m) (x m, y m) = Some self ->
  REPRODUCTION_COST <= energy self -> energy self <> 0 ->
  aget (outputBuf m) 0 = Some o0 -> o0 <> OP_STOP ->
  faced m = Some (tmpptr, m) ->
  pond_get (pond m) tmpptr = Some nb -> energy nb <> 0 ->
  fst <$> accessAllowed tmpptr (reg m) 0 m = Some true ->
  wp reproduce
     (fun _ m' =>
        wf m' /\
        cellIdCounter m' = snd (assign_id Birth (cellIdCounter m)) /\
        (exists child,
           pond_get (pond m') tmpptr = Some child /\
           newborn (fst (assign_id Birth (cellIdCounter m))) self nb (outputBuf m) child) /\
        pond_get (pond m') (x m, y m)
        = Some (set_energy (wrap (energy self - REPRODUCTION_COST)) self)) m.
Proof.
  intros Hwf HX HY Hs Hcost He Ho0 Hnz Hf Hn Hen Hacc.
  wf_parts Hwf.
  destruct (pond_ok_valid _ _ _ Hpond Hs) as [_ Hsok].
  destruct (pond_ok_valid _ _ _ Hpond Hn) as [Hq Hnok].
  assert (Hne : (x m, y m) <> tmpptr).
  { rewrite (faced_eq _ _ Hs) in Hf.
    destruct (getNeighbor (x m) (y m) (facing self)) as [q|] eqn:Hgq; [|discriminate].
    injection Hf as <-. apply not_eq_sym. by eapply getNeighbor_ne_self. }
  apply (verdict_eq _ _ _ _ _ _ Hn) in Hacc.
  unfold reproduce. wp_pure.
  eapply wp_load; [exact Hs|]. wp_pure.
  destruct (Z.eqb_spec (energy self) 0) as [|_]; [done|].
  destruct (Z.leb_spec REPRODUCTION_COST (energy self)) as [_|]; [|lia].
  rewrite orb_true_r. wp_pure.
  eapply wp_lift; [exact Ho0|]. wp_pure.
  destruct (Z.eqb_spec o0 0) as [|_]; [done|]. wp_pure.
  eapply wp_faced; [exact Hf|]. wp_pure.
  eapply wp_load; [exact Hn|]. wp_pure.
  destruct (Z.eqb_spec (energy nb) 0) as [|_]; [done|]. wp_pure.
  eapply wp_intro; [exact Hacc|]. wp_pure.
  set (s := (getRandom (rng m)).2). clearbody s.
  eapply wp_load; [msimpl; exact Hn|]. wp_pure.
  eapply (wp_mono _ (fun _ m1 =>
            exists st, m1 = set_statCounters st (set_rng s m) /\
                       instructionExecutions st = instructionExecutions (statCounters m))).
  { destruct (2 <? generation nb); wp_pure; eexists; (split; [reflexivity | done]). }
  cbv beta. intros _ m1 (st & -> & Hst). wp_pure.
  set (id := u64 (cellIdCounter m + 1)).
  set (m2 := set_cellIdCounter id (set_statCounters st (set_rng s m))).
  assert (Hwf2 : wf m2) by (subst m2; wf_tac).
  assert (Hp2 : pond m2 = pond m) by reflexivity.
  assert (Hx2 : x m2 = x m) by reflexivity.
  assert (Hy2 : y m2 = y m) by reflexivity.
  assert (Hob2 : outputBuf m2 = outputBuf m) by reflexivity.
  assert (Hid2 : cellIdCounter m2 = id) by reflexivity.
  clearbody m2.
  eapply update_track; [done | by rewrite Hp2 | cell_tac |].
  intros pd1 Hpd1 Hg1 Hfr1. wp_pure.
  assert (Hs1 : pond_get pd1 (x m, y m) = Some self) by (by rewrite Hfr1, Hp2).
  eapply wp_load; [exact Hs1|]. wp_pure.
  eapply update_track; [wf_tac | exact Hg1 | cell_tac |].
  intros pd2 Hpd2 Hg2 Hfr2. wp_pure.
  assert (Hs2 : pond_get pd2 (x m, y m) = Some self) by (by rewrite Hfr2).
  eapply wp_load; [exact Hs2|]. wp_pure.
  eapply update_track; [wf_tac | exact Hg2 | cell_tac |].
  intros pd3 Hpd3 Hg3 Hfr3. wp_pure.
  assert (Hs3 : pond_get pd3 (x m, y m) = Some self) by (by rewrite Hfr3).
  eapply wp_load; [exact Hs3|]. wp_pure.
  eapply update_track; [wf_tac | exact Hg3 | cell_tac |].
  intros pd4 Hpd4 Hg4 Hfr4. wp_pure.
  assert (Hs4 : pond_get pd4 (x m, y m) = Some self) by (by rewrite Hfr4).
  eapply update_track; [wf_tac | exact Hg4 | cell_tac |].
  intros pd5 Hpd5 Hg5 Hfr5. wp_pure.
  assert (Hs5 : pond_get pd5 (x m, y m) = Some self) by (by rewrite Hfr5).
  eapply update_track; [wf_tac | exact Hg5 | cell_tac |].
  intros pd6 Hpd6 Hg6 Hfr6. wp_pure.
  assert (Hs6 : pond_get pd6 (x m, y m) = Some self) by (by rewrite Hfr6).
  eapply wp_load; [exact Hg6|]. wp_pure.
  eapply wp_lift.
  { apply acopy_all; [by destruct Hnok as (_ & _ & _ & Hlen & _) | congruence]. }
  wp_pure.
  eapply update_track; [wf_tac | exact Hg6 | cell_tac |].
  intros pd7 Hpd7 Hg7 Hfr7. wp_pure.
  assert (Hs7 : pond_get pd7 (x m, y m) = Some self) by (by rewrite Hfr7).
  set (m3 := set_pond pd7 (set_pond pd6 (set_pond pd5 (set_pond pd4
               (set_pond pd3 (set_pond pd2 (set_pond pd1 m2))))))).
  assert (Hwf3 : wf m3) by (subst m3; wf_tac).
  assert (Hx3 : x m3 = x m) by (subst m3; msimpl; done).
  assert (Hy3 : y m3 = y m) by (subst m3; msimpl; done).
  assert (Hid3 : cellIdCounter m3 = id) by (subst m3; msimpl; done).
  assert (Hp3 : pond m3 = pd7) by reflexivity.
  clearbody m3.
  eapply wp_mono.
  { apply (randomize_ram_spec tmpptr (newborn id self nb (outputBuf m))); [done | by intros | ].
    eexists. split; [rewrite Hp3; exact Hg7|].
    by repeat split. }
  cbv beta. intros _ m4 (Hwf4 & (pd & s' & ->) & Hfr & child & Hchild & HJ). wp_pure.
  assert (Hs8 : pond_get pd (x m, y m) = Some self).
  { specialize (Hfr (x m, y m) Hne). msimpl. rewrite Hfr, Hp3. exact Hs7. }
  eapply update_track; [wf_tac | msimpl; exact Hs8 | cell_tac |].
  intros pd8 Hpd8 Hg8 Hfr8. msimpl.
  split; [wf_tac|]. split; [done|]. split; [|exact Hg8].
  exists child. split; [|exact HJ].
  rewrite Hfr8 by (by apply not_eq_sym). exact Hchild.
Qed.

(** The block after the core execution loop stays in bounds, whether a
    child is born or not. *)
Lemma reproduce_ok m : wf m -> wp reproduce (fun _ m' => wf m') m.
Proof.
  intros Hwf. wf_parts Hwf. pose proof depth_holds_reg.
  unfold reproduce. wp_pure.
  apply load_ok; [done..|]. intros c Hc Hcok. wp_pure.
  destruct (energy c =? 0); wp_pure; [done|].
  destruct ((REPRODUCTION_COST <=? 0) || (REPRODUCTION_COST <=? energy c)); wp_pure;
    [|done].
  destruct (aget_in_bounds (outputBuf m) 0) as [o0 Ho0]; [lia|].
  eapply wp_lift; [exact Ho0|]. wp_pure.
  destruct (negb (o0 =? 0)); wp_pure; [|done].
  apply faced_ok; [done|]. intros q Hq Hf. wp_pure.
  apply load_ok; [done..|]. intros n Hn Hnok. wp_pure.
  eapply (wp_mono _ (fun _ m1 => exists s, m1 = set_rng s m)).
  { destruct (negb (energy n =? 0)); wp_pure.
    - apply accessAllowed_ok; [done..|]. intros b. by eexists.
    - exists (rng m). by destruct m. }
  cbv beta. intros ok m1 [s ->].
  assert (Hwf1 : wf (set_rng s m)) by (by apply wf_set_rng).
  destruct ok; wp_pure; [|done].
  apply load_ok; [done..|]. intros n1 Hn1 Hn1ok. wp_pure.
  eapply (wp_mono _ (fun _ m1 => wf m1)).
  { destruct (2 <? generation n1); wp_pure; [wf_tac | done]. }
  cbv beta. intros _ m1 Hwf2. wp_pure.
  apply update_ok; [wf_tac | done | intros c' Hc'; cell_tac |]. intros pd1 Hpd1. wp_pure.
  apply load_ok; [wf_tac | done |]. intros c1 Hc1 Hc1ok. wp_pure.
  apply update_ok; [wf_tac | done | intros c' Hc'; cell_tac |]. intros pd2 Hpd2. wp_pure.
  apply load_ok; [wf_tac | done |]. intros c2 Hc2 Hc2ok. wp_pure.
  apply update_ok; [wf_tac | done | intros c' Hc'; cell_tac |]. intros pd3 Hpd3. wp_pure.
  apply load_ok; [wf_tac | done |]. intros c3 Hc3 Hc3ok. wp_pure.
  apply update_ok; [wf_tac | done | intros c' Hc'; cell_tac |]. intros pd4 Hpd4. wp_pure.
  apply update_ok; [wf_tac | done | intros c' Hc'; cell_tac |]. intros pd5 Hpd5. wp_pure.
  apply update_ok; [wf_tac | done | intros c' Hc'; cell_tac |]. intros pd6 Hpd6. wp_pure.
  apply load_ok; [wf_tac | done |]. intros n2 Hn2 Hn2ok. wp_pure.
  eapply wp_lift.
  { apply acopy_all; [by destruct Hn2ok as (_ & _ & _ & Hlen & _) | done]. }
  wp_pure.
  apply update_ok; [wf_tac | done | intros c' Hc'; cell_tac |]. intros pd7 Hpd7. wp_pure.
  eapply wp_mono; [apply randomize_ram_ok; [wf_tac | done]|].
  cbv beta. intros _ m2 (Hwf3 & _). wp_pure.
  apply update_ok; [done | done | intros c' Hc'; cell_tac |]. intros pd8 Hpd8.
  by apply wf_set_pond.
Qed.

(** One iteration of the main loop stays in bounds and keeps the state
    representable, for every amount of fuel. *)
Lemma tick_ok fuel m : wf m -> wp (tick fuel) (fun _ m' => wf m') m.
Proof.
  intros Hwf. unfold tick. wp_pure.
  destruct (cmod_ok (clock m) INFLOW_FREQUENCY inflow_freq_pos) as [Hdue _].
  eapply wp_lift; [exact Hdue|]. wp_pure.
  eapply (wp_mono _ (fun _ m1 => wf m1)).
  { destruct (clock m mod INFLOW_FREQUENCY =? 0); [by apply seed_ok | by apply wp_ret]. }
  cbv beta. intros _ m1 Hwf1. wp_pure.
  destruct (cmod_ok (getRandom (rng m1)).1 POND_SIZE_X pond_x_pos) as [Hcx Hx].
  eapply wp_lift; [exact Hcx|]. wp_pure.
  set (s1 := (getRandom (rng m1)).2). set (x' := (getRandom (rng m1)).1 mod POND_SIZE_X) in *.
  destruct (cmod_ok (getRandom s1).1 POND_SIZE_Y pond_y_pos) as [Hcy Hy].
  eapply wp_lift; [exact Hcy|]. wp_pure.
  set (s2 := (getRandom s1).2). set (y' := (getRandom s1).1 mod POND_SIZE_Y) in *.
  clearbody s1 s2 x' y'.
  wf_parts Hwf1. pose proof depth_holds_reg. pose proof two_pow_word.
  eapply wp_lift; [by apply afill_all|]. wp_pure.
  eapply wp_mono.
  { apply run_ok. unfold wf, valid, EXEC_START_INST. msimpl.
    split_and!; rewrite ?length_replicate; try done; try lia.
    apply Forall_replicate. lia. }
  cbv beta. intros done m2 Hwf2. wp_pure.
  eapply wp_mono; [by apply reproduce_ok|].
  cbv beta. intros _ m3 Hwf3. wp_pure. wf_parts Hwf3. wf_tac.
Qed.

(** Every state the main loop reaches is representable. *)
Lemma main_loop_ok n fuel : forall m m',
  wf m -> main_loop n fuel m = Some m' -> wf m'.
Proof.
  induction n as [|n IH]; intros m m' Hwf; simpl.
  - by intros [= <-].
  - pose proof (tick_ok fuel m Hwf) as Hok. unfold wp in Hok.
    destruct (tick fuel m) as [[[] m1]|]; [|done..]. by apply IH.
Qed.

End Closure.

(** ** LOOP and REP *)

Section Loops.
Context `{Config} `{!ConfigOk}.
Implicit Types (p q : CellPtr) (m : Machine).

(** An iteration whose mutation test fails is the dispatch of the
    fetched instruction from the charged state, followed by the advance
    of the instruction pointer unless the dispatch leaves by [continue]. *)
Lemma step_quiet m c inst :
  pond_get (pond m) (x m, y m) = Some c ->
  aget (genome c) (instPtr m) = Some inst ->
  quiet m ->
  step m
  = bind (execute inst) (fun continue => if continue then ret tt else advance)
         (charged c m).
Proof.
  intros Hc Hinst Hq. unfold quiet in Hq.
  assert (Hfetch : bind (bind pptr (fun p => bind (gets instPtr) (fun ip =>
                     bind (load_genome p ip) (fun inst0 => bind (mutate inst0)
                       (fun i => bind debit (fun _ => ret i)))))) ret m
                   = Some (inst, charged c m)).
  { apply wp_eq. wp_pure. eapply wp_load_genome; [done..|].
    unfold mutate. wp_pure.
    destruct (Z.ltb_spec (Z.land (getRandom (rng m)).1 4294967295) MUTATION_RATE); [lia|].
    wp_pure. unfold debit. wp_pure.
    eapply wp_update; [msimpl; done|]. wp_pure. done. }
  unfold step, bind in *. msimpl.
  destruct (pptr m) as [[p m0]|]; [|done].
  destruct (gets instPtr m0) as [[ip m1]|]; [|done].
  destruct (load_genome p ip m1) as [[i0 m2]|]; [|done].
  destruct (mutate i0 m2) as [[i m3]|]; [|done].
  destruct (debit m3) as [[[] m4]|]; [|done].
  simpl in Hfetch. by injection Hfetch as -> ->.
Qed.

Lemma execute_skipping inst m :
  falseLoopDepth m <> 0 ->
  execute inst m
  = Some (false,
          if inst =? OP_LOOP then set_falseLoopDepth (wrap (falseLoopDepth m + 1)) m
          else if inst =? OP_REP then set_falseLoopDepth (wrap (falseLoopDepth m - 1)) m
          else m).
Proof.
  intros Hd. apply wp_eq. unfold execute. wp_pure.
  destruct (Z.eqb_spec (falseLoopDepth m) 0); [done|]. wp_pure.
  destruct (inst =? 9); wp_pure; [done|].
  destruct (inst =? 10); by wp_pure.
Qed.

Lemma count_inst_eq inst m :
  wf m -> 0 <= inst < 32 -> count_inst inst m = Some (tt, counted inst m).
Proof.
  intros Hwf Hinst. wf_parts Hwf.
  change (Z.to_nat NUM_INST) with 32%nat in Hie.
  destruct (aget_in_bounds (instructionExecutions (statCounters m)) inst) as [n Hn]; [lia|].
  apply wp_eq. unfold count_inst. wp_pure.
  eapply wp_lift; [exact Hn|]. wp_pure.
  eapply wp_lift; [apply aset_in_bounds; lia|]. wp_pure.
  split; [done|]. unfold counted.
  rewrite aget_lookup in Hn by lia.
  by rewrite (list_lookup_total_correct _ _ _ Hn).
Qed.

Lemma wf_charged m c :
  wf m -> pond_get (pond m) (x m, y m) = Some c -> wf (charged c m).
Proof.
  intros Hwf Hc. wf_parts Hwf.
  destruct (pond_ok_valid _ _ _ Hpond Hc) as [_ Hcok].
  unfold charged. apply wf_set_pond; [by apply wf_set_rng|].
  msimpl. apply pond_ok_put; [done|]. cell_tac.
Qed.

Lemma advance_eq m : advance m = Some (tt, set_instPtr (next_ip (instPtr m)) m).
Proof. reflexivity. Qed.

(** An iteration while a false loop is being skipped. *)
Lemma step_skipping m c inst :
  pond_get (pond m) (x m, y m) = Some c ->
  aget (genome c) (instPtr m) = Some inst ->
  quiet m ->
  falseLoopDepth m <> 0 ->
  step m
  = Some (tt, set_instPtr (next_ip (instPtr m))
                (set_falseLoopDepth (skip_depth inst (falseLoopDepth m))
                   (charged c m))).
Proof.
  intros Hc Hinst Hq Hd. rewrite (step_quiet m c inst Hc Hinst Hq). unfold bind.
  rewrite execute_skipping by done. rewrite advance_eq.
  unfold skip_depth. do 2 f_equal.
  destruct (inst =? 9); [reflexivity|]. destruct (inst =? 10); reflexivity.
Qed.

(** The iteration that executes a [LOOP] with a zero register. *)
Lemma step_LOOP_false m c :
  wf m ->
  pond_get (pond m) (x m, y m) = Some c ->
  aget (genome c) (instPtr m) = Some OP_LOOP ->
  quiet m ->
  falseLoopDepth m = 0 -> reg m = 0 ->
  step m
  = Some (tt, set_instPtr (next_ip (instPtr m))
                (set_falseLoopDepth 1 (counted OP_LOOP (charged c m)))).
Proof.
  intros Hwf Hc Hinst Hq Hd Hreg0.
  pose proof (wf_charged m c Hwf Hc) as Hwf1.
  assert (Hc1 : falseLoopDepth (charged c m) = falseLoopDepth m) by reflexivity.
  assert (Hc2 : reg (charged c m) = reg m) by reflexivity.
  rewrite (step_quiet m c _ Hc Hinst Hq). apply wp_eq. apply wp_bind.
  unfold execute. wp_pure. rewrite Hc1, Hd. change (0 =? 0) with true. wp_pure.
  eapply wp_intro; [apply count_inst_eq; [done | lia]|]. unfold counted, dispatch.
  cbv beta iota zeta.
  unfold op_LOOP. wp_pure. rewrite Hc2, Hreg0. change (0 =? 0) with true. wp_pure.
  unfold advance. wp_pure. split; reflexivity.
Qed.

Lemma pond_put_put pd p (a b : Cell) :
  pond_put (pond_put pd p a) p b = pond_put pd p b.
Proof.
  unfold pond_put. rewrite list_insert_insert_eq. f_equal.
  destruct (decide (Z.to_nat (fst p) < length pd)%nat) as [Hlt|Hge].
  - rewrite list_lookup_total_insert_eq by done. by rewrite list_insert_insert_eq.
  - by rewrite (list_insert_ge pd) by lia.
Qed.

Lemma skip_length_pos code : forall d n, skip_length code d = Some n -> (0 < n)%nat.
Proof.
  induction code as [|inst rest IH]; intros d n; simpl; [done|].
  destruct (skip_depth inst d =? 0).
  - intros [= <-]. lia.
  - destruct (skip_length rest (skip_depth inst d)) as [k|]; simpl; [|done].
    intros [= <-]. lia.
Qed.

Lemma skip_length_le code : forall d n,
  skip_length code d = Some n -> (n <= length code)%nat.
Proof.
  induction code as [|inst rest IH]; intros d n; simpl; [done|].
  destruct (skip_depth inst d =? 0).
  - intros [= <-]. lia.
  - destruct (skip_length rest (skip_depth inst d)) as [k|] eqn:Hk; simpl; [|done].
    intros [= <-]. specialize (IH _ _ Hk). lia.
Qed.

(** Skipping a false loop: when the genome of the executing cell [c]
    continues with [code] and the skip of depth [falseLoopDepth m] ends
    at the [n]-th instruction of [code], the next [n] iterations, if no
    mutation is injected, leave everything as it is but the energy of the
    cell ([n] units less), the generator ([n] words further), the
    false-loop depth (zero) and the instruction pointer (the slot after
    the matching [REP]). *)
Lemma skip_to_matching_REP code : forall m c tail n,
  wf m ->
  pond_get (pond m) (x m, y m) = Some c ->
  falseLoopDepth m <> 0 ->
  drop (Z.to_nat (instPtr m)) (genome c) = code ++ tail ->
  skip_length code (falseLoopDepth m) = Some n ->
  quiet_for n (rng m) ->
  steps n m = Some (tt, skipped n c m).
Proof.
  induction code as [|inst rest IH]; intros m c tail n Hwf Hc Hd Hcode Hlen Hq;
    simpl in Hlen; [done|].
  pose proof Hwf as Hwf0. wf_parts Hwf. pose proof depth_fits.
  destruct (pond_ok_valid _ _ _ Hpond Hc) as [Hv Hcok].
  assert (Hglen : length (genome c) = Z.to_nat POND_DEPTH)
    by (by destruct Hcok as (_ & _ & _ & Hl & _)).
  assert (Hinst : aget (genome c) (instPtr m) = Some inst).
  { rewrite aget_lookup by lia.
    rewrite <- (Nat.add_0_r (Z.to_nat (instPtr m))), <- lookup_drop, Hcode. done. }
  destruct (Z.eqb_spec (skip_depth inst (falseLoopDepth m)) 0) as [Hz|Hnz].
  - injection Hlen as <-. destruct Hq as [Hq _].
    cbn [steps]. unfold bind. rewrite (step_skipping m c inst) by done.
    rewrite Hz. unfold skipped, charged, ret. cbn [drawn].
    change (Z.of_nat 1) with 1.
    by replace (instPtr m + 1 - 1) with (instPtr m) by lia.
  - destruct (skip_length rest (skip_depth inst (falseLoopDepth m))) as [k|] eqn:Hk;
      simpl in Hlen; [|done].
    injection Hlen as <-. destruct Hq as [Hq Hqs].
    assert (Hrest : (0 < length rest)%nat).
    { pose proof (skip_length_pos _ _ _ Hk). pose proof (skip_length_le _ _ _ Hk). lia. }
    assert (Hroom : instPtr m + 1 < POND_DEPTH).
    { apply (f_equal length) in Hcode.
      rewrite length_drop, length_app in Hcode. simpl in Hcode. lia. }
    assert (Hnext : next_ip (instPtr m) = instPtr m + 1).
    { unfold next_ip. rewrite wrap_small by lia.
      destruct (Z.leb_spec POND_DEPTH (instPtr m + 1)); [lia | done]. }
    pose proof (step_skipping m c inst Hc Hinst Hq Hd) as Hstep.
    rewrite Hnext in Hstep.
    pose proof (step_ok m Hwf0) as Hok. unfold wp in Hok. rewrite Hstep in Hok.
    set (c1 := set_energy (wrap (energy c - 1)) c).
    set (m1 := set_instPtr (instPtr m + 1)
                 (set_falseLoopDepth (skip_depth inst (falseLoopDepth m))
                    (charged c m))) in *.
    assert (Hc1 : pond_get (pond m1) (x m1, y m1) = Some c1).
    { unfold m1, charged. msimpl. by eapply pond_get_put_eq. }
    assert (Hcode1 : drop (Z.to_nat (instPtr m1)) (genome c1) = rest ++ tail).
    { unfold m1, c1. msimpl.
      replace (Z.to_nat (instPtr m + 1)) with (Z.to_nat (instPtr m) + 1)%nat by lia.
      by rewrite <- drop_drop, Hcode. }
    pose proof (IH m1 c1 tail k Hok Hc1 Hnz Hcode1 Hk Hqs) as Hsteps.
    cbn [steps]. unfold bind. rewrite Hstep, Hsteps. do 2 f_equal.
    unfold skipped, m1, c1, charged. msimpl. rewrite pond_put_put.
    replace (instPtr m + 1 + Z.of_nat k - 1) with (instPtr m + Z.of_nat (S k) - 1) by lia.
    replace (wrap (wrap (energy c - 1) - Z.of_nat k))
      with (wrap (energy c - Z.of_nat (S k)))
      by (unfold wrap; rewrite Zminus_mod_idemp_l; f_equal; lia).
    destruct m. mnorm. reflexivity.
Qed.

(** C6: the control flow of [LOOP] and [REP], for iterations of the core
    execution loop in which no mutation is injected; [c] is the executing
    cell, [inst] the instruction fetched, and [charged c m] the state
    after the fetch and the energy debit.
    - While a false loop is being skipped, an iteration changes nothing
      but the false-loop depth -- one deeper on [LOOP], one less on [REP],
      unchanged on every other instruction -- and advances the instruction
      pointer to the next slot; so when a [REP] brings the depth back to
      zero, execution falls through after it.
    - [LOOP] with [reg = 0] starts a skip of depth 1, and counts as one
      executed [LOOP].
    - [LOOP] with [reg <> 0] and room on the stack pushes its own slot.
    - [REP] with a non-empty stack and [reg <> 0] pops the stack into the
      instruction pointer and the pointer is not advanced: the next
      instruction fetched is the one in the pushed slot, the [LOOP].
    - [LOOP] with [reg = 0], followed in the genome by [code] whose
      [n]-th instruction is the matching [REP]: after the [LOOP] and the
      [n] skipped instructions the state is the one before the [LOOP],
      but for the count of the [LOOP], [n + 1] units of energy,
      [n + 1] words of the generator, and the instruction pointer, which
      is on the slot after the matching [REP]. *)
Theorem LOOP_REP_control_flow m c inst :
  wf m ->
  pond_get (pond m) (x m, y m) = Some c ->
  aget (genome c) (instPtr m) = Some inst ->
  quiet m ->
  (falseLoopDepth m <> 0 ->
   step m
   = Some (tt, set_instPtr (next_ip (instPtr m))
                 (set_falseLoopDepth (skip_depth inst (falseLoopDepth m))
                    (charged c m)))) /\
  (falseLoopDepth m = 0 -> inst = OP_LOOP -> reg m = 0 ->
   step m
   = Some (tt, set_instPtr (next_ip (instPtr m))
                 (set_falseLoopDepth 1 (counted OP_LOOP (charged c m))))) /\
  (falseLoopDepth m = 0 -> inst = OP_LOOP -> reg m <> 0 ->
   loopStackPtr m < POND_DEPTH ->
   step m
   = Some (tt, set_instPtr (next_ip (instPtr m))
                 (set_loopStackPtr (loopStackPtr m + 1)
                    (set_loopStack
                       (<[Z.to_nat (loopStackPtr m) := instPtr m]> (loopStack m))
                       (counted OP_LOOP (charged c m)))))) /\
  (falseLoopDepth m = 0 -> inst = OP_REP -> loopStackPtr m <> 0 -> reg m <> 0 ->
   exists slot,
     aget (loopStack m) (loopStackPtr m - 1) = Some slot /\
     step m
     = Some (tt, set_instPtr slot
                   (set_loopStackPtr (loopStackPtr m - 1)
                      (counted OP_REP (charged c m))))) /\
  (falseLoopDepth m = 0 -> inst = OP_LOOP -> reg m = 0 ->
   forall code tail n,
     drop (Z.to_nat (instPtr m)) (genome c) = OP_LOOP :: code ++ tail ->
     skip_length code 1 = Some n ->
     quiet_for (S n) (rng m) ->
     steps (S n) m = Some (tt, counted OP_LOOP (skipped (S n) c m))).
Proof.
  intros Hwf Hc Hinst Hq.
  pose proof (step_quiet m c inst Hc Hinst Hq) as Hstep.
  pose proof (wf_charged m c Hwf Hc) as Hwf1.
  pose proof Hwf as Hwf0.
  wf_parts Hwf. pose proof depth_fits. pose proof depth_holds_reg.
  assert (Hc1 : falseLoopDepth (charged c m) = falseLoopDepth m) by reflexivity.
  assert (Hc2 : reg (charged c m) = reg m) by reflexivity.
  assert (Hc3 : loopStackPtr (charged c m) = loopStackPtr m) by reflexivity.
  assert (Hc4 : loopStack (charged c m) = loopStack m) by reflexivity.
  assert (Hc5 : instPtr (charged c m) = instPtr m) by reflexivity.
  split_and!.
  - intros Hd. by apply step_skipping.
  - intros Hd -> Hreg0. by apply step_LOOP_false.
  - intros Hd -> Hreg0 Hroom.
    rewrite Hstep. apply wp_eq. apply wp_bind.
    unfold execute. wp_pure. rewrite Hc1, Hd. change (0 =? 0) with true. wp_pure.
    eapply wp_intro; [apply count_inst_eq; [done | lia]|]. unfold counted, dispatch.
  cbv beta iota zeta.
    unfold op_LOOP. wp_pure. rewrite Hc2.
    destruct (Z.eqb_spec (reg m) 0); [done|]. wp_pure. rewrite Hc3.
    destruct (Z.leb_spec POND_DEPTH (loopStackPtr m)); [lia|]. wp_pure.
    rewrite Hc4, Hc5.
    eapply wp_lift; [apply aset_in_bounds; lia|]. wp_pure.
    rewrite wrap_small by lia.
    unfold advance. wp_pure. split; reflexivity.
  - intros Hd -> Hsp0 Hreg0.
    destruct (wf_stack_top m Hwf0) as (slot & Hslot & _); [lia|].
    exists slot. split; [done|].
    rewrite Hstep. apply wp_eq. apply wp_bind.
    unfold execute. wp_pure. rewrite Hc1, Hd. change (0 =? 0) with true. wp_pure.
    eapply wp_intro; [apply count_inst_eq; [done | lia]|]. unfold counted, dispatch.
  cbv beta iota zeta.
    unfold op_REP. wp_pure. rewrite Hc3.
    destruct (Z.eqb_spec (loopStackPtr m) 0); [done|]. wp_pure. rewrite Hc2.
    destruct (Z.eqb_spec (reg m) 0); [done|]. wp_pure.
    rewrite wrap_small by lia. rewrite Hc4.
    eapply wp_lift; [exact Hslot|]. wp_pure. split; reflexivity.
  - intros Hd -> Hreg0 code tail n Hcode Hlen [_ Hqs].
    destruct (pond_ok_valid _ _ _ Hpond Hc) as [Hv Hcok].
    assert (Hrest : (0 < length code)%nat).
    { pose proof (skip_length_pos _ _ _ Hlen). pose proof (skip_length_le _ _ _ Hlen). lia. }
    assert (Hroom : instPtr m + 1 < POND_DEPTH).
    { destruct Hcok as (_ & _ & _ & Hl & _). apply (f_equal length) in Hcode.
      rewrite length_drop in Hcode. simpl in Hcode. rewrite length_app in Hcode. lia. }
    assert (Hnext : next_ip (instPtr m) = instPtr m + 1).
    { unfold next_ip. rewrite wrap_small by lia.
      destruct (Z.leb_spec POND_DEPTH (instPtr m + 1)); [lia | done]. }
    pose proof (step_LOOP_false m c Hwf0 Hc Hinst Hq Hd Hreg0) as Hloop.
    rewrite Hnext in Hloop.
    pose proof (step_ok m Hwf0) as Hok. unfold wp in Hok. rewrite Hloop in Hok.
    set (c1 := set_energy (wrap (energy c - 1)) c).
    set (m1 := set_instPtr (instPtr m + 1)
                 (set_falseLoopDepth 1 (counted OP_LOOP (charged c m)))) in *.
    assert (Hc1' : pond_get (pond m1) (x m1, y m1) = Some c1).
    { unfold m1, charged, counted. msimpl. by eapply pond_get_put_eq. }
    assert (Hcode1 : drop (Z.to_nat (instPtr m1)) (genome c1) = code ++ tail).
    { unfold m1, c1. msimpl.
      replace (Z.to_nat (instPtr m + 1)) with (Z.to_nat (instPtr m) + 1)%nat by lia.
      by rewrite <- drop_drop, Hcode. }
    assert (Hd1 : falseLoopDepth m1 <> 0) by (unfold m1; msimpl; lia).
    pose proof (skip_to_matching_REP code m1 c1 tail n Hok Hc1' Hd1 Hcode1 Hlen Hqs)
      as Hsteps.
    change (steps (S n) m) with (bind step (fun _ => steps n) m).
    unfold bind. rewrite Hloop, Hsteps. do 2 f_equal.
    unfold skipped, m1, c1, charged, counted. msimpl. rewrite pond_put_put.
    replace (instPtr m + 1 + Z.of_nat n - 1) with (instPtr m + Z.of_nat (S n) - 1) by lia.
    replace (wrap (wrap (energy c - 1) - Z.of_nat n))
      with (wrap (energy c - Z.of_nat (S n)))
      by (unfold wrap; rewrite Zminus_mod_idemp_l; f_equal; lia).
    destruct m. mnorm. reflexivity.
Qed.

End Loops.

(** ** Example states are well formed *)

Lemma pond4_ok : @ConfigOk pond4.
Proof. constructor; simpl; lia. Qed.

Lemma pond2_ok : @ConfigOk pond2.
Proof. constructor; simpl; lia. Qed.

Section Examples.
Context `{Config} `{!ConfigOk}.

Lemma cleared_cell_ok : cell_ok cleared_cell.
Proof.
  pose proof depth_holds_reg. pose proof two_pow_word.
  unfold cell_ok, cleared_cell. msimpl. split_and!;
    rewrite ?length_replicate; try lia; try done; apply Forall_replicate; lia.
Qed.

Lemma wf_initial s : wf (initial s).
Proof.
  pose proof depth_holds_reg. pose proof pond_x_pos. pose proof pond_y_pos.
  pose proof two_pow_word.
  unfold wf, initial, pond_ok, valid. msimpl. split_and!;
    rewrite ?length_replicate; try lia; try done.
  - apply Forall_replicate. split; [by rewrite length_replicate|].
    apply Forall_replicate, cleared_cell_ok.
  - apply Forall_replicate. lia.
Qed.

Lemma wf_with_cell p c m : wf m -> cell_ok c -> wf (with_cell p c m).
Proof.
  intros Hwf Hc. unfold with_cell. apply wf_set_pond; [done|].
  apply pond_ok_put; [|done]. by wf_parts Hwf.
Qed.

End Examples.

Lemma cell_with_ok (e gen pid : Z) (code : list Z) :
  0 <= e < 2 ^ 64 -> (length code <= 512)%nat -> Forall (fun v => 0 <= v < 32) code ->
  @cell_ok pond4 (cell_with e gen pid code).
Proof.
  intros He Hlen Hcode. unfold cell_ok, cell_with. msimpl.
  split_and!; rewrite ?length_app, ?length_replicate; simpl; try done; try lia.
  - apply Forall_app. split; [done|]. apply Forall_replicate. lia.
  - repeat constructor; lia.
Qed.

Lemma wf_arena (a b : Cell) (r : Z) :
  @cell_ok pond4 a -> @cell_ok pond4 b -> 0 <= r < 256 -> @wf pond4 (arena a b r).
Proof.
  intros Ha Hb Hr. unfold arena.
  apply wf_set_reg; [|done].
  apply wf_with_cell; [|done].
  apply wf_with_cell; [|done].
  apply (@wf_initial pond4 pond4_ok).
Qed.

(** ** The theorems at example states *)

Ltac example_cell_ok :=
  apply cell_with_ok; [lia | simpl; lia | repeat constructor; lia].

Ltac example_wf := apply wf_arena; [example_cell_ok | example_cell_ok | lia].

Lemma accessAllowed_draws_one_word_witness :
  pond_get (pond (arena attacker orphan 0)) (0, 3) = Some orphan /\
  exists b,
    @accessAllowed pond4 (0, 3) 0 0 (arena attacker orphan 0)
    = Some (b, set_rng (snd (@getRandom pond4 (rng (arena attacker orphan 0))))
                 (arena attacker orphan 0)) /\
    (parentID orphan = 0 -> b = true).
Proof.
  split; [reflexivity|].
  apply (@accessAllowed_draws_one_word pond4 (0, 3) 0 0 (arena attacker orphan 0) orphan).
  reflexivity.
Defined.

Lemma READM_0x02_compressed_energy_witness :
  exists m',
    @dispatch pond4 OP_READM (set_ptr_mem 2 (arena looper victim 0)) = Some (false, m') /\
    reg m' = 2.
Proof.
  destruct (@READM_0x02_compressed_energy pond4 (set_ptr_mem 2 (arena looper victim 0)) looper)
    as (m' & Hrun & Hreg & _); [reflexivity | simpl; lia | reflexivity |].
  exists m'. split; [exact Hrun | exact Hreg].
Defined.

Lemma read_mem_0x03_0x07_not_counted_witness :
  exists v,
    @read_mem pond4 (0, 0) 0 0 0x03 (arena attacker victim 0)
    = Some (v, arena attacker victim 0).
Proof.
  apply (@read_mem_0x03_0x07_not_counted pond4 (0, 0) 0 0 3 (arena attacker victim 0) attacker);
    [reflexivity | lia].
Defined.

Lemma KILL_permitted_keeps_energy_and_ram_witness :
  exists m',
    @dispatch pond4 OP_KILL (arena attacker orphan 0) = Some (false, m') /\
    (energy <$> pond_get (pond m') (0, 3)) = Some 4 /\
    (ram <$> pond_get (pond m') (0, 3)) = Some (ram orphan).
Proof.
  destruct (@KILL_permitted_keeps_energy_and_ram pond4
              (arena attacker orphan 0) (0, 3) orphan)
    as (m' & Hrun & Hcell & _);
    [example_wf | vm_compute; reflexivity | reflexivity | vm_compute; reflexivity |].
  exists m'. split; [exact Hrun|]. rewrite Hcell. split; reflexivity.
Defined.

Lemma KILL_denied_penalty_witness :
  exists m',
    @dispatch pond4 OP_KILL (arena attacker victim 0) = Some (false, m') /\
    pond_get (pond m') (0, 3) = Some victim /\
    pond_get (pond m') (0, 0) = Some (set_energy 60 attacker).
Proof.
  destruct (@KILL_denied_penalty pond4 pond4_ok (arena attacker victim 0) (0, 3)
              attacker victim)
    as (m' & Hrun & Hvictim & Hpen & _);
    [ example_wf | simpl; lia | simpl; lia | reflexivity | vm_compute; reflexivity
    | reflexivity | vm_compute; reflexivity |].
  exists m'. split; [exact Hrun|]. split; [exact Hvictim|].
  destruct Hpen as (_ & _ & H60); [simpl; lia|].
  apply H60; reflexivity.
Defined.

Lemma SHARE_conserves_energy_witness :
  exists m' self' nb',
    @dispatch pond4 OP_SHARE (arena sharer orphan 0) = Some (false, m') /\
    pond_get (pond m') (0, 0) = Some self' /\
    pond_get (pond m') (0, 3) = Some nb' /\
    energy self' = 8 /\ energy nb' = 7.
Proof.
  destruct (@SHARE_conserves_energy pond4 pond4_ok (arena sharer orphan 0) (0, 3)
              sharer orphan)
    as (m' & self' & nb' & Hrun & Hs & Hn & _ & _ & _ & _ & Hex);
    [ example_wf | reflexivity | vm_compute; reflexivity | reflexivity
    | vm_compute; reflexivity |].
  exists m', self', nb'. split; [exact Hrun|]. split; [exact Hs|]. split; [exact Hn|].
  apply Hex; reflexivity.
Defined.

Lemma dispatch_stays_in_bounds_witness :
  (exists r m', @dispatch pond4 OP_SETP (arena attacker victim 255) = Some (r, m')
                /\ @wf pond4 m') /\
  (exists r m', @execute pond4 OP_SETP (arena attacker victim 255) = Some (r, m')
                /\ @wf pond4 m').
Proof.
  apply (@dispatch_stays_in_bounds pond4 pond4_ok OP_SETP (arena attacker victim 255));
    [example_wf | lia].
Defined.

Lemma LOOP_REP_control_flow_witness :
  @step pond4 (arena looper victim 0)
  = Some (tt, set_instPtr 1
                (set_falseLoopDepth 1
                   (@counted OP_LOOP (@charged pond4 looper (arena looper victim 0))))) /\
  @steps pond4 3 (arena looper victim 0)
  = Some (tt, counted OP_LOOP (@skipped pond4 3 looper (arena looper victim 0))).
Proof.
  destruct (@LOOP_REP_control_flow pond4 pond4_ok (arena looper victim 0) looper OP_LOOP)
    as (_ & Hskip & _ & _ & Hthrough);
    [ example_wf | reflexivity | reflexivity | vm_compute; discriminate |].
  split; [apply Hskip; reflexivity|].
  apply (Hthrough eq_refl eq_refl eq_refl [OP_INC; OP_REP] (replicate 509 OP_STOP) 2%nat);
    [vm_compute; reflexivity | reflexivity |].
  clear. vm_compute. repeat split; intros [=].
Defined.

(** ** Cell IDs *)

Lemma u64_small v : 0 <= v < 2 ^ 64 -> u64 v = v.
Proof. intros Hv. unfold u64. by apply Z.mod_small. Qed.

Lemma counter_after_bounds events : forall c,
  0 <= c -> c + Z.of_nat (length events) < 2 ^ 64 ->
  c <= counter_after events c <= c + Z.of_nat (length events).
Proof.
  induction events as [|e rest IH]; intros c Hc Hfit; simpl in *; [lia|].
  assert (Hs : snd (assign_id e c) = c + 1).
  { destruct e; simpl; apply u64_small; lia. }
  rewrite Hs. specialize (IH (c + 1)). lia.
Qed.

Lemma assigned_ids_le_counter events : forall c,
  0 <= c -> c + Z.of_nat (length events) < 2 ^ 64 ->
  Forall (fun id => id <= counter_after events c) (assigned_ids events c).
Proof.
  induction events as [|e rest IH]; intros c Hc Hfit; simpl in *; [constructor|].
  assert (Hs : snd (assign_id e c) = c + 1).
  { destruct e; simpl; apply u64_small; lia. }
  assert (Hf : fst (assign_id e c) <= c + 1).
  { destruct e; simpl; rewrite ?u64_small; lia. }
  rewrite Hs.
  pose proof (counter_after_bounds rest (c + 1)) as Hb.
  constructor; [lia|]. apply IH; lia.
Qed.

(** The part of C1 that holds: as long as the 64-bit counter has not
    wrapped around, the ID a birth assigns is strictly greater than every
    ID assigned before it. *)
Lemma birth_id_above_previous (before : list IdEvent) (c : Z) :
  0 <= c -> c + Z.of_nat (length before) + 1 < 2 ^ 64 ->
  Forall (fun id => id < fst (assign_id Birth (counter_after before c)))
         (assigned_ids before c).
Proof.
  intros Hc Hfit.
  pose proof (counter_after_bounds before c) as Hb.
  pose proof (assigned_ids_le_counter before c) as Hle.
  simpl. rewrite u64_small by lia.
  eapply Forall_impl; [apply Hle; lia|]. simpl. lia.
Qed.

(** The part of C1 that fails: the seeding, or the [KILL] reset, that
    follows a birth assigns the ID of the child once more, because a
    birth assigns the incremented counter and leaves the counter on the
    ID it has just given out. *)
Lemma id_reused_after_birth (c : Z) :
  fst (assign_id Seeding (snd (assign_id Birth c))) = fst (assign_id Birth c) /\
  fst (assign_id KillReset (snd (assign_id Birth c))) = fst (assign_id Birth c).
Proof. split; reflexivity. Qed.

Example ids_of_seeding_birth_seeding :
  assigned_ids [Seeding; Birth; Seeding] 0 = [0; 2; 2].
Proof. reflexivity. Qed.

(** C1, at a failing run: with [INIT_SEED] 3, a 2x2 pond seeded at every
    tick and all other tunables as shipped.  Six iterations of the main
    loop leave [cellIdCounter] at 12 and the cell at (0, 1) with the ID
    12, born as the child of cell 4 in generation 1.  The seeding block
    of the seventh iteration then picks the cell at (1, 0) and gives it
    the ID 12 as well; after the seventh iteration the pond holds both. *)
Theorem run_assigns_ID_12_twice :
  (m6 ← @main_loop pond2 6 (Z.to_nat 20000) (@initial pond2 3);
   born ← pond_get (pond m6) (0, 1);
   m7 ← snd <$> @seed pond2 m6;
   seeded ← pond_get (pond m7) (1, 0);
   Some (cellIdCounter m6, (ID born, parentID born, generation born),
         (x m7, y m7), (ID seeded, parentID seeded, generation seeded)))
  = Some (12, (12, 4, 1), (1, 0), (12, 0, 0)) /\
  (m ← @main_loop pond2 7 (Z.to_nat 20000) (@initial pond2 3);
   born ← pond_get (pond m) (0, 1);
   seeded ← pond_get (pond m) (1, 0);
   Some (ID born, ID seeded))
  = Some (12, 12).
Proof. split; vm_compute; reflexivity. Qed.

(** * Further properties of the engine and of the observers *)

(** ** The grid *)

Section MoreGeometry.
Context `{Config} `{!ConfigOk}.

(** X1: from a cell of the pond, [getNeighbor] returns a cell of the pond
    for every direction code from 0 to 31, so the pointer it returns is
    never outside [pond]; for any other code the read of [dirmap] is out
    of bounds and the model has no result. *)
Theorem getNeighbor_lands_in_pond (px py dir : Z) :
  valid (px, py) ->
  match getNeighbor px py dir with
  | Some q => 0 <= dir < 32 /\ valid q
  | None => ~ (0 <= dir < 32)
  end.
Proof.
  intros Hv. destruct (decide (0 <= dir < 32)) as [Hd|Hd].
  - destruct (getNeighbor_valid px py dir Hv Hd) as (q & -> & Hq). done.
  - unfold getNeighbor.
    destruct (aget dirmap dir) as [d|] eqn:Hget; [|done].
    apply aget_Some_bounds in Hget. simpl in Hget. lia.
Qed.

(** X2: in a pond of at least two columns and two rows the neighbour
    that [getNeighbor] returns is a cell of the pond other than the cell
    itself, so the two cells of an interaction are never aliases. *)
Theorem getNeighbor_is_another_cell (px py dir : Z) (q : CellPtr) :
  1 < POND_SIZE_X -> 1 < POND_SIZE_Y ->
  valid (px, py) -> getNeighbor px py dir = Some q ->
  q <> (px, py) /\ valid q.
Proof.
  intros Hx Hy Hv Hq. split; [by eapply getNeighbor_ne_self|].
  destruct (decide (0 <= dir < 32)) as [Hd|Hd].
  - destruct (getNeighbor_valid px py dir Hv Hd) as (q' & Hq' & Hvq). congruence.
  - unfold getNeighbor in Hq.
    destruct (aget dirmap dir) as [d|] eqn:Hget; [|done].
    apply aget_Some_bounds in Hget. simpl in Hget. lia.
Qed.


Lemma offset_mod (n v o : Z) :
  0 < n -> 0 <= v < n -> 2 * n < 2 ^ SYSWORD_BITS ->
  wrap (n + v + 1) mod n = (if v <? n - 1 then v + 1 else 0) /\
  wrap (n + v + 0) mod n = v /\
  wrap (n + v + -1) mod n = (if negb (v =? 0) then v - 1 else n - 1).
Proof.
  intros Hn Hv Hfit. rewrite !wrap_small by lia. split_and!.
  - destruct (Z.ltb_spec v (n - 1)).
    + replace (n + v + 1) with (v + 1 + 1 * n) by lia.
      rewrite Z_mod_plus_full. apply Z.mod_small. lia.
    + replace (n + v + 1) with (0 + 2 * n) by lia.
      rewrite Z_mod_plus_full. apply Z.mod_small. lia.
  - replace (n + v + 0) with (v + 1 * n) by lia.
    rewrite Z_mod_plus_full. apply Z.mod_small. lia.
  - destruct (Z.eqb_spec v 0); simpl.
    + subst v. replace (n + 0 + -1) with (n - 1) by lia. apply Z.mod_small. lia.
    + replace (n + v + -1) with (v - 1 + 1 * n) by lia.
      rewrite Z_mod_plus_full. apply Z.mod_small. lia.
Qed.

(** X3: the self-test of [main] under [#if TEST_NEIGHBOR] passes: when
    twice each side of the pond fits in a machine word, every [TEST_DIR]
    line holds at every cell and the block returns 0. *)
Theorem TEST_NEIGHBOR_passes :
  2 * POND_SIZE_X < 2 ^ SYSWORD_BITS -> 2 * POND_SIZE_Y < 2 ^ SYSWORD_BITS ->
  TEST_NEIGHBOR = 0.
Proof.
  intros Hfx Hfy. pose proof pond_x_pos. pose proof pond_y_pos.
  unfold TEST_NEIGHBOR.
  destruct (existsb _ _) eqn:Hex; [exfalso | reflexivity].
  apply existsb_exists in Hex as (py & Hpy & Hex).
  apply existsb_exists in Hex as (px & Hpx & Hex).
  apply existsb_exists in Hex as (t & Ht & Hex).
  apply list_elem_of_In, elem_of_seqZ in Hpy. apply list_elem_of_In, elem_of_seqZ in Hpx.
  destruct (offset_mod POND_SIZE_X px 0) as (Hxe & Hxn & Hxw); [lia..|].
  destruct (offset_mod POND_SIZE_Y py 0) as (Hys & Hyn & Hyw); [lia..|].
  unfold test_dirs in Ht.
  destruct (negb (Z.land py 1 =? 0)) eqn:Hpar; simpl in Ht;
    repeat (destruct Ht as [<-|Ht]; [|]); try done;
    unfold TEST_DIR in Hex; apply bool_decide_eq_true in Hex; apply Hex;
    unfold getNeighbor; simpl; rewrite Hpar;
    rewrite ?Hxe, ?Hxn, ?Hxw, ?Hys, ?Hyn, ?Hyw; reflexivity.
Qed.

Lemma land1_mod (v : Z) : Z.land v 1 = v mod 2.
Proof. apply (Z.land_ones v 1). lia. Qed.

(** X4: in a pond with an even number of rows, the neighbour in
    direction [d + 3] (modulo 6) of the neighbour in direction [d] is the
    cell one started from: the six directions of the hexagonal grid come
    in opposite pairs, also across the edges of the torus. *)
Theorem getNeighbor_opposite_returns (px py d : Z) (q : CellPtr) :
  POND_SIZE_Y mod 2 = 0 ->
  valid (px, py) -> 0 <= d < 6 ->
  getNeighbor px py d = Some q ->
  getNeighbor (fst q) (snd q) ((d + 3) mod 6) = Some (px, py).
Proof.
  intros Heven [Hx Hy] Hd Hq. simpl in Hx, Hy.
  pose proof pond_x_pos. pose proof pond_y_pos.
  assert (Hc : d = 0 \/ d = 1 \/ d = 2 \/ d = 3 \/ d = 4 \/ d = 5) by lia.
  unfold getNeighbor in *. rewrite !land1_mod in *.
  destruct_or! Hc; subst d; simpl in Hq;
    destruct (Z.eqb_spec (py mod 2) 0) as [Hp|Hp]; simpl in Hq;
    injection Hq as <-; simpl;
    unfold X_EAST, X_WEST, X_NONE, Y_NORTH, Y_SOUTH, Y_NONE;
    repeat match goal with
           | |- context [?a <? ?b] => destruct (Z.ltb_spec a b)
           | |- context [?a =? ?b] => destruct (Z.eqb_spec a b)
           | _ : context [?a <? ?b] |- _ => destruct (Z.ltb_spec a b)
           | _ : context [?a =? ?b] |- _ => destruct (Z.eqb_spec a b)
           end; simpl in *; try reflexivity;
    first [ exfalso; Z.div_mod_to_equations; lia | f_equal; f_equal; lia ].
Qed.

End MoreGeometry.

(** ** The access oracle *)

Section MoreOracle.
Context `{Config}.

Lemma BITS_IN_FIVEBIT_WORD_popcount (i : Z) :
  0 <= i < 32 -> aget BITS_IN_FIVEBIT_WORD i = Some (popcount5 i).
Proof. intros Hi. cases32 Hi; reflexivity. Qed.

Lemma popcount5_land (v : Z) : popcount5 (Z.land v 0x1f) = popcount5 v.
Proof.
  unfold popcount5. rewrite !Z.land_spec.
  change 31 with (Z.ones 5). rewrite !Z.ones_spec_low by lia.
  by rewrite !andb_true_r.
Qed.

Lemma popcount5_range (v : Z) : 0 <= popcount5 v <= 5.
Proof. unfold popcount5. repeat destruct (Z.testbit v _); simpl; lia. Qed.

Lemma popcount5_zero (v : Z) : Z.land v 0x1f = 0 -> popcount5 v = 0.
Proof. intros Hz. by rewrite <- popcount5_land, Hz. Qed.

(** X5: [accessAllowed] consumes one random word and compares the
    Hamming distance between the five low bits of the guess and of the
    logo with the four low bits of that word: with a positive sense
    access is granted when the distance is at most the draw, with sense 0
    when it is at least the draw, and in both cases when the target has no
    parent.  So a positive-sense access with the right guess is always
    granted, and a sense-0 access to a cell with a parent is refused
    whenever the draw is above 5. *)
Theorem accessAllowed_compares_hamming_distance (c2 : CellPtr) guess sense m c :
  pond_get (pond m) c2 = Some c ->
  let r := Z.land (fst (getRandom (rng m))) 0xf in
  let dist := popcount5 (Z.lxor (logo c) guess) in
  exists b,
    accessAllowed c2 guess sense m = Some (b, set_rng (snd (getRandom (rng m))) m) /\
    b = (if negb (sense =? 0) then dist <=? r else r <=? dist) || (parentID c =? 0) /\
    (sense <> 0 -> Z.land (Z.lxor (logo c) guess) 0x1f = 0 -> b = true) /\
    (sense = 0 -> parentID c <> 0 -> 5 < r -> b = false).
Proof.
  intros Hc r dist.
  destruct (accessAllowed_eq c2 guess sense m c Hc) as (bits & Hbits & Heq).
  rewrite BITS_IN_FIVEBIT_WORD_popcount in Hbits by apply land31.
  rewrite popcount5_land in Hbits. injection Hbits as <-.
  eexists. split; [exact Heq|]. fold r dist.
  pose proof (popcount5_range (Z.lxor (logo c) guess)) as Hrange. fold dist in Hrange.
  pose proof (land15 (fst (getRandom (rng m)))) as Hr. fold r in Hr.
  split_and!; [done | |].
  - intros Hs Hz. apply popcount5_zero in Hz. fold dist in Hz.
    destruct (Z.eqb_spec sense 0); [done|]. simpl.
    destruct (Z.leb_spec dist r); [done | lia].
  - intros -> Hp Hbig. simpl.
    destruct (Z.leb_spec r dist); [lia|].
    destruct (Z.eqb_spec (parentID c) 0); done.
Qed.

End MoreOracle.

(** ** The random number generator *)

Section Generator.

Lemma lxor_range (n a b : Z) :
  0 <= a < 2 ^ n -> 0 <= b < 2 ^ n -> 0 <= Z.lxor a b < 2 ^ n.
Proof.
  intros Ha Hb.
  assert (Hnn : 0 <= Z.lxor a b) by (apply Z.lxor_nonneg; lia).
  split; [done|].
  destruct (Z.eq_dec (Z.lxor a b) 0) as [->|Hne]; [lia|].
  assert (Hn : 0 < n).
  { destruct (Z.le_gt_cases n 0) as [Hle|]; [|done].
    assert (2 ^ n <= 1).
    { destruct (Z.eq_dec n 0) as [->|]; [simpl; lia|].
      rewrite Z.pow_neg_r by lia. lia. }
    assert (a = 0) by lia. assert (b = 0) by lia. subst. done. }
  apply Z.log2_lt_pow2; [lia|].
  pose proof (Z.log2_lxor a b) as Hl.
  assert (Z.log2 a < n).
  { destruct (Z.eq_dec a 0) as [->|]; [simpl; lia|]. apply Z.log2_lt_pow2; lia. }
  assert (Z.log2 b < n).
  { destruct (Z.eq_dec b 0) as [->|]; [simpl; lia|]. apply Z.log2_lt_pow2; lia. }
  lia.
Qed.

Lemma shiftr_range (n a k : Z) : 0 <= k -> 0 <= a < 2 ^ n -> 0 <= Z.shiftr a k < 2 ^ n.
Proof.
  intros Hk Ha. rewrite Z.shiftr_div_pow2 by done.
  assert (0 < 2 ^ k) by (apply Z.pow_pos_nonneg; lia).
  split; [apply Z.div_pos; lia|].
  apply Z.le_lt_trans with a; [|lia].
  apply Z.div_le_upper_bound; [done|]. nia.
Qed.

Lemma land_range_r (a c : Z) : 0 <= c -> 0 <= Z.land a c <= c.
Proof.
  intros Hc. apply Z.ldiff_le; [done|].
  by rewrite Z.ldiff_land, <- Z.land_assoc, <- Z.ldiff_land, Z.ldiff_diag, Z.land_0_r.
Qed.

Lemma lor_range (n a b : Z) :
  0 <= a < 2 ^ n -> 0 <= b < 2 ^ n -> 0 <= Z.lor a b < 2 ^ n.
Proof.
  intros Ha Hb.
  assert (Hnn : 0 <= Z.lor a b) by (apply Z.lor_nonneg; lia).
  split; [done|].
  destruct (Z.eq_dec (Z.lor a b) 0) as [->|Hne]; [lia|].
  assert (Hn : 0 < n).
  { destruct (Z.le_gt_cases n 0) as [Hle|]; [|done].
    assert (2 ^ n <= 1).
    { destruct (Z.eq_dec n 0) as [->|]; [simpl; lia|].
      rewrite Z.pow_neg_r by lia. lia. }
    assert (a = 0) by lia. assert (b = 0) by lia. subst. done. }
  apply Z.log2_lt_pow2; [lia|].
  rewrite Z.log2_lor by lia.
  assert (Z.log2 a < n).
  { destruct (Z.eq_dec a 0) as [->|]; [simpl; lia|]. apply Z.log2_lt_pow2; lia. }
  assert (Z.log2 b < n).
  { destruct (Z.eq_dec b 0) as [->|]; [simpl; lia|]. apply Z.log2_lt_pow2; lia. }
  lia.
Qed.

Lemma words_ok_total (a : list Z) (i : nat) : words_ok a -> 0 <= a !!! i < 2 ^ 32.
Proof.
  intros [_ Hall]. rewrite list_lookup_total_alt.
  destruct (a !! i) as [v|] eqn:Hv; simpl; [|lia].
  by eapply (Forall_lookup_1 _ _ _ _ Hall).
Qed.

Lemma words_ok_insert (a : list Z) (i : nat) (v : Z) :
  words_ok a -> 0 <= v < 2 ^ 32 -> words_ok (<[i := v]> a).
Proof.
  intros [Hlen Hall] Hv. split; [by rewrite length_insert|].
  by apply Forall_insert.
Qed.

Lemma fold_left_inv {A B} (P : A -> Prop) (f : A -> B -> A) (l : list B) :
  (forall a b, P a -> P (f a b)) -> forall a, P a -> P (fold_left f l a).
Proof. intros Hf. induction l as [|b l IH]; simpl; auto. Qed.

Lemma init_genrand_ok (seed : Z) : mt_ok (init_genrand seed).
Proof.
  assert (Hw : words_ok (mt (init_genrand seed))).
  { unfold init_genrand. cbn [mt]. apply fold_left_inv.
    - intros a i Ha. apply words_ok_insert; [done|].
      pose proof (land_range_r
        (1812433253 * Z.lxor (a !!! (i - 1)%nat) (Z.shiftr (a !!! (i - 1)%nat) 30)
         + Z.of_nat i) 0xffffffff). lia.
    - apply words_ok_insert.
      + split; [by rewrite length_replicate|]. apply Forall_replicate. lia.
      + pose proof (land_range_r seed 0xffffffff). lia. }
  destruct Hw as [Hlen Hall]. split_and!; [done | done | |]; simpl; lia.
Qed.


Lemma twist_ok nxt far (a : list Z) (kk : nat) : words_ok a -> words_ok (twist nxt far a kk).
Proof.
  intros Ha. unfold twist. apply words_ok_insert; [done|].
  pose proof (words_ok_total a kk Ha). pose proof (words_ok_total a (nxt kk) Ha).
  pose proof (words_ok_total a (far kk) Ha).
  assert (Hy : 0 <= Z.lor (Z.land (a !!! kk) UPPER_MASK) (Z.land (a !!! nxt kk) LOWER_MASK)
               < 2 ^ 32).
  { apply lor_range.
    - pose proof (land_range_r (a !!! kk) UPPER_MASK). unfold UPPER_MASK in *. lia.
    - pose proof (land_range_r (a !!! nxt kk) LOWER_MASK). unfold LOWER_MASK in *. lia. }
  apply lxor_range; [apply lxor_range; [done|]; apply shiftr_range; [lia | done]|].
  unfold mag01, MATRIX_A. destruct (_ =? 0); lia.
Qed.

Lemma regenerate_ok (a : list Z) : words_ok a -> words_ok (regenerate a).
Proof.
  intros Ha. unfold regenerate. apply twist_ok.
  apply fold_left_inv; [intros; by apply twist_ok|].
  apply fold_left_inv; [intros; by apply twist_ok|]. done.
Qed.

Lemma temper_range (y : Z) : 0 <= y < 2 ^ 32 -> 0 <= temper y < 2 ^ 32.
Proof.
  intros Hy. unfold temper.
  assert (H1 : 0 <= Z.lxor y (Z.shiftr y 11) < 2 ^ 32).
  { apply lxor_range; [done|]. apply shiftr_range; [lia | done]. }
  set (y1 := Z.lxor y (Z.shiftr y 11)) in *.
  assert (H2 : 0 <= Z.lxor y1 (Z.land (u32 (Z.shiftl y1 7)) 0x9d2c5680) < 2 ^ 32).
  { apply lxor_range; [done|].
    pose proof (land_range_r (u32 (Z.shiftl y1 7)) 0x9d2c5680). lia. }
  set (y2 := Z.lxor y1 _) in *.
  assert (H3 : 0 <= Z.lxor y2 (Z.land (u32 (Z.shiftl y2 15)) 0xefc60000) < 2 ^ 32).
  { apply lxor_range; [done|].
    pose proof (land_range_r (u32 (Z.shiftl y2 15)) 0xefc60000). lia. }
  set (y3 := Z.lxor y2 _) in *.
  apply lxor_range; [done|]. apply shiftr_range; [lia | done].
Qed.

Lemma u32_small (v : Z) : 0 <= v < 2 ^ 32 -> u32 v = v.
Proof. intros Hv. unfold u32. by apply Z.mod_small. Qed.

Lemma genrand_int32_ok (s : MTState) :
  mt_ok s ->
  0 <= fst (genrand_int32 s) < 2 ^ 32 /\
  mt_ok (snd (genrand_int32 s)) /\
  exists y, mt (snd (genrand_int32 s)) !! Z.to_nat (mti (snd (genrand_int32 s)) - 1)
            = Some y /\
            fst (genrand_int32 s) = temper y.
Proof.
  intros (Hlen & Hall & Hmti). unfold genrand_int32, mt_ok.
  change (Z.of_nat MT_N) with 624 in *.
  set (s1 := if 624 <=? mti s then _ else s).
  assert (Hs1 : words_ok (mt s1) /\ 0 <= mti s1 < 624).
  { unfold s1. destruct (Z.leb_spec 624 (mti s)); cbn [mt mti].
    - split; [by apply regenerate_ok | lia].
    - split; [done | lia]. }
  destruct Hs1 as [Hw Hi]. cbn [fst snd mt mti].
  assert (Hlt : (Z.to_nat (mti s1) < length (mt s1))%nat).
  { destruct Hw as [Hl _]. rewrite Hl. unfold MT_N. lia. }
  destruct (lookup_lt_is_Some_2 _ _ Hlt) as [y Hy].
  rewrite (list_lookup_total_correct _ _ _ Hy).
  assert (Hyr : 0 <= y < 2 ^ 32)
    by (destruct Hw as [_ Hf]; by eapply (Forall_lookup_1 _ _ _ _ Hf)).
  rewrite u32_small by done.
  split; [apply temper_range; lia|]. split.
  - destruct Hw. split_and!; [done | done | lia | lia].
  - exists y. split; [|done]. by replace (mti s1 + 1 - 1) with (mti s1) by lia.
Qed.

End Generator.

Section GeneratorWord.
Context `{Config} `{!ConfigOk}.

Lemma getRandom_ok (s : MTState) :
  mt_ok s -> 0 <= fst (getRandom s) < 2 ^ SYSWORD_BITS /\ mt_ok (snd (getRandom s)).
Proof.
  intros Hs. unfold getRandom.
  destruct (genrand_int32_ok s Hs) as (Hhi & Hs1 & _).
  destruct (Z.eqb_spec SYSWORD_BITS 64) as [Hw|Hw].
  - destruct (genrand_int32 s) as [hi s1]. cbn [fst snd] in *.
    destruct (genrand_int32_ok s1 Hs1) as (Hlo & Hs2 & _).
    destruct (genrand_int32 s1) as [lo s2]. cbn [fst snd] in *.
    split; [|done]. rewrite Hw. apply lxor_range; [|lia].
    rewrite Z.shiftl_mul_pow2 by lia. lia.
  - destruct word_bits as [Hb|Hb]; [|done]. rewrite Hb. done.
Qed.

(** X6: the Mersenne Twister stays within its array and its word
    size.  [init_genrand] leaves 624 words of 32 bits and an index of
    624; from any such state [genrand_int32] returns a 32-bit value, the
    tempering of the word of [mt] just before the new index, and leaves
    such a state again; [getRandom] returns a machine word. *)
Theorem generator_stays_in_range (seed : Z) :
  mt_ok (init_genrand seed) /\
  forall s, mt_ok s ->
    (0 <= fst (genrand_int32 s) < 2 ^ 32 /\
     mt_ok (snd (genrand_int32 s)) /\
     exists y, mt (snd (genrand_int32 s)) !! Z.to_nat (mti (snd (genrand_int32 s)) - 1)
               = Some y /\
               fst (genrand_int32 s) = temper y) /\
    (0 <= fst (getRandom s) < 2 ^ SYSWORD_BITS /\ mt_ok (snd (getRandom s))).
Proof.
  split; [apply init_genrand_ok|]. intros s Hs.
  split; [by apply genrand_int32_ok | by apply getRandom_ok].
Qed.

End GeneratorWord.

(** ** Energy accounting and termination *)

Section ListSums.

Lemma Zsum_insert (l : list Z) (i : nat) (v w : Z) :
  l !! i = Some v -> Zsum (<[i := w]> l) = Zsum l - v + w.
Proof.
  revert i. induction l as [|a l IH]; intros [|i] Hi; simpl in *; try done.
  - injection Hi as ->. lia.
  - rewrite (IH i Hi). lia.
Qed.

Lemma Zsum_nonneg (l : list Z) : Forall (fun e => 0 <= e) l -> 0 <= Zsum l.
Proof. induction 1; simpl; lia. Qed.

Lemma Zsum_lookup_le (l : list Z) (i : nat) (v : Z) :
  Forall (fun e => 0 <= e) l -> l !! i = Some v -> v <= Zsum l /\ 0 <= Zsum l.
Proof.
  intros Hall. split; [|by apply Zsum_nonneg]. revert i H.
  induction Hall as [|a l Ha Hall IH]; intros [|i] Hi; simpl in *; try done.
  - injection Hi as ->. pose proof (Zsum_nonneg l Hall). lia.
  - specialize (IH i Hi). lia.
Qed.

End ListSums.

Section PondEnergy.
Implicit Types (pd : list (list Cell)) (p : CellPtr) (c : Cell).

Lemma pond_get_lookup pd p c :
  pond_get pd p = Some c ->
  exists col, pd !! Z.to_nat (fst p) = Some col /\ col !! Z.to_nat (snd p) = Some c.
Proof.
  intros (col & Hcol & Hc)%pond_get_Some. exists col.
  pose proof (aget_Some_bounds _ _ _ Hcol). pose proof (aget_Some_bounds _ _ _ Hc).
  rewrite aget_lookup in Hcol by lia. rewrite aget_lookup in Hc by lia. done.
Qed.

Lemma energies_get pd p c :
  pond_get pd p = Some c ->
  exists es, energies pd !! Z.to_nat (fst p) = Some es /\
             es !! Z.to_nat (snd p) = Some (energy c).
Proof.
  intros (col & Hcol & Hc)%pond_get_lookup. exists (energy <$> col). unfold energies.
  by rewrite !list_lookup_fmap, Hcol, Hc.
Qed.

Lemma energies_put pd p c c' :
  pond_get pd p = Some c ->
  energies (pond_put pd p c')
  = <[Z.to_nat (fst p) :=
        <[Z.to_nat (snd p) := energy c']> (energy <$> pd !!! Z.to_nat (fst p))]>
      (energies pd).
Proof.
  intros (col & Hcol & Hc)%pond_get_lookup. unfold energies, pond_put.
  by rewrite list_fmap_insert, list_fmap_insert.
Qed.

Lemma energies_put_same pd p c c' :
  pond_get pd p = Some c -> energy c' = energy c ->
  energies (pond_put pd p c') = energies pd.
Proof.
  intros Hp He. rewrite (energies_put _ _ _ _ Hp).
  destruct (pond_get_lookup _ _ _ Hp) as (col & Hcol & Hc).
  rewrite (list_lookup_total_correct _ _ _ Hcol).
  apply list_insert_id. unfold energies. rewrite list_lookup_fmap, Hcol. simpl.
  f_equal. symmetry. apply list_insert_id. by rewrite list_lookup_fmap, Hc, He.
Qed.

Lemma energies_same_get pd pd' p c c' :
  energies pd' = energies pd ->
  pond_get pd p = Some c -> pond_get pd' p = Some c' -> energy c' = energy c.
Proof.
  intros He (es & Hes & Hc)%energies_get (es' & Hes' & Hc')%energies_get.
  rewrite He in Hes'. congruence.
Qed.

Lemma total_put pd p c c' :
  pond_get pd p = Some c ->
  total_energy (pond_put pd p c') = total_energy pd - energy c + energy c'.
Proof.
  intros Hp. unfold total_energy. rewrite (energies_put _ _ _ _ Hp).
  destruct (pond_get_lookup _ _ _ Hp) as (col & Hcol & Hc).
  rewrite (list_lookup_total_correct _ _ _ Hcol).
  rewrite list_fmap_insert.
  erewrite Zsum_insert;
    [|unfold energies; rewrite !list_lookup_fmap, Hcol; reflexivity].
  erewrite (Zsum_insert (energy <$> col));
    [|rewrite list_lookup_fmap, Hc; reflexivity].
  lia.
Qed.

Lemma nonneg_put pd p c c' :
  pond_get pd p = Some c -> energies_nonneg pd -> 0 <= energy c' ->
  energies_nonneg (pond_put pd p c').
Proof.
  intros Hp Hnn He. unfold energies_nonneg. rewrite (energies_put _ _ _ _ Hp).
  destruct (pond_get_lookup _ _ _ Hp) as (col & Hcol & Hc).
  rewrite (list_lookup_total_correct _ _ _ Hcol).
  apply Forall_insert; [done|]. apply Forall_insert; [|done].
  eapply (Forall_lookup_1 _ _ _ _ Hnn).
  unfold energies. by rewrite list_lookup_fmap, Hcol.
Qed.

Lemma nonneg_get pd p c :
  energies_nonneg pd -> pond_get pd p = Some c ->
  0 <= energy c <= total_energy pd.
Proof.
  intros Hnn (es & Hes & Hc)%energies_get.
  pose proof (Forall_lookup_1 _ _ _ _ Hnn Hes) as Hcol.
  pose proof (Forall_lookup_1 _ _ _ _ Hcol Hc) as He. simpl in He.
  destruct (Zsum_lookup_le es _ _ Hcol Hc) as [Hle _].
  assert (Hsums : Forall (fun e => 0 <= e) (Zsum <$> energies pd)).
  { apply Forall_fmap. eapply Forall_impl; [exact Hnn|]. intros l Hl. simpl.
    by apply Zsum_nonneg. }
  destruct (Zsum_lookup_le (Zsum <$> energies pd) (Z.to_nat (fst p)) (Zsum es) Hsums)
    as [Hle2 _]; [by rewrite list_lookup_fmap, Hes|].
  unfold total_energy. lia.
Qed.

Lemma total_nonneg pd : energies_nonneg pd -> 0 <= total_energy pd.
Proof.
  intros Hnn. apply Zsum_nonneg, Forall_fmap.
  eapply Forall_impl; [exact Hnn|]. intros l Hl. by apply Zsum_nonneg.
Qed.

Lemma pond_ok_nonneg `{Config} pd : pond_ok pd -> energies_nonneg pd.
Proof.
  intros [_ Hall]. unfold energies_nonneg, energies. apply Forall_fmap.
  eapply Forall_impl; [exact Hall|]. intros col [_ Hcol]. simpl.
  apply Forall_fmap. eapply Forall_impl; [exact Hcol|].
  intros c (_ & _ & He & _). simpl. lia.
Qed.

End PondEnergy.

Section PartialLogic.
Context `{Config}.
Implicit Types (m : Machine) (p : CellPtr).

Lemma post_bind {A B} (c : M A) (k : A -> M B) (Q : B -> Machine -> Prop) m :
  post c (fun a m' => post (k a) Q m') m -> post (bind c k) Q m.
Proof.
  unfold post, bind. intros Hc b m'. destruct (c m) as [[a m1]|] eqn:Hcm; [|done].
  by apply Hc.
Qed.

Lemma post_ret {A} (a : A) (Q : A -> Machine -> Prop) m : Q a m -> post (ret a) Q m.
Proof. by intros HQ a' m' [= <- <-]. Qed.

Lemma post_gets {A} (f : Machine -> A) (Q : A -> Machine -> Prop) m :
  Q (f m) m -> post (gets f) Q m.
Proof. by intros HQ a' m' [= <- <-]. Qed.

Lemma post_modify (f : Machine -> Machine) (Q : unit -> Machine -> Prop) m :
  Q tt (f m) -> post (modify f) Q m.
Proof. by intros HQ a' m' [= <- <-]. Qed.

Lemma post_lift {A} (o : option A) (Q : A -> Machine -> Prop) m :
  (forall a, o = Some a -> Q a m) -> post (lift o) Q m.
Proof. unfold post, lift. intros HQ a m'. destruct o; [|done]. intros [= <- <-]. auto. Qed.

Lemma post_draw (Q : Z -> Machine -> Prop) m :
  Q (fst (getRandom (rng m))) (set_rng (snd (getRandom (rng m))) m) -> post draw Q m.
Proof.
  unfold post, draw. intros HQ a m'. destruct (getRandom (rng m)). by intros [= <- <-].
Qed.

Lemma post_load p (Q : Cell -> Machine -> Prop) m :
  (forall c, pond_get (pond m) p = Some c -> Q c m) -> post (load p) Q m.
Proof.
  intros HQ. unfold load. apply post_bind, post_gets, post_lift. auto.
Qed.

Lemma post_update p f (Q : unit -> Machine -> Prop) m :
  (forall c, pond_get (pond m) p = Some c ->
             Q tt (set_pond (pond_put (pond m) p (f c)) m)) ->
  post (update p f) Q m.
Proof.
  intros HQ. unfold update. apply post_bind, post_gets, post_bind, post_lift.
  intros c Hc. apply post_bind, post_lift. intros pd' Hpd'.
  rewrite (pond_set_put _ _ _ _ Hc) in Hpd'. injection Hpd' as <-.
  apply post_modify. auto.
Qed.

Lemma post_follows {A} (R : Machine -> Machine -> Prop) (c : M A)
    (Q : A -> Machine -> Prop) m :
  follows R c -> (forall a m', R m m' -> Q a m') -> post c Q m.
Proof. intros Hc HQ a m' Hrun. apply HQ. by eapply Hc. Qed.

Lemma wp_post {A} (c : M A) (Q R : A -> Machine -> Prop) m :
  wp c Q m -> post c R m -> wp c (fun a m' => Q a m' /\ R a m') m.
Proof.
  unfold wp, post. destruct (c m) as [[a m']|]; [|done]. intros HQ HR. split; auto.
Qed.

(** *** The relations *)

Lemma getRandom_keeps (s : MTState) : mt_ok s -> mt_ok (snd (getRandom s)).
Proof.
  intros Hs. unfold getRandom.
  destruct (genrand_int32_ok s Hs) as (_ & Hs1 & _).
  destruct (SYSWORD_BITS =? 64); [|done].
  destruct (genrand_int32 s) as [hi s1]. cbn [fst snd] in *.
  destruct (genrand_int32_ok s1 Hs1) as (_ & Hs2 & _).
  by destruct (genrand_int32 s1) as [lo s2].
Qed.

Lemma energy_eq_refl m : energy_eq m m.
Proof. by unfold energy_eq. Qed.

Lemma energy_eq_trans m1 m2 m3 : energy_eq m1 m2 -> energy_eq m2 m3 -> energy_eq m1 m3.
Proof.
  intros (He1 & Hx1 & Hy1 & Hr1) (He2 & Hx2 & Hy2 & Hr2).
  split_and!; [congruence.. | auto].
Qed.

Lemma grows_refl m : grows 0 m m.
Proof. unfold grows. split; [|done]. intros. split; [done | lia]. Qed.

Lemma grows_trans k1 k2 m1 m2 m3 :
  grows k1 m1 m2 -> grows k2 m2 m3 -> grows (k1 + k2) m1 m3.
Proof.
  intros [He1 Hr1] [He2 Hr2]. split; [|auto].
  intros Hnn. destruct (He1 Hnn) as [Hnn2 Hle2]. destruct (He2 Hnn2) as [Hnn3 Hle3].
  split; [done | lia].
Qed.

Lemma grows_le k k' m m' : k <= k' -> grows k m m' -> grows k' m m'.
Proof.
  intros Hk [He Hr]. split; [|done]. intros Hnn. destruct (He Hnn). split; [done | lia].
Qed.

Lemma energy_eq_grows m m' : energy_eq m m' -> grows 0 m m'.
Proof.
  intros (He & _ & _ & Hr). split; [|done].
  unfold energies_nonneg, total_energy. rewrite He. intros. split; [done | lia].
Qed.

(** *** Composition *)

Lemma follows_mono {A} (R R' : Machine -> Machine -> Prop) (c : M A) :
  (forall m m', R m m' -> R' m m') -> follows R c -> follows R' c.
Proof. intros HR Hc m a m' Hrun. apply HR. by eapply Hc. Qed.

Lemma neutral_bind {A B} (c : M A) (k : A -> M B) :
  follows energy_eq c -> (forall a, follows energy_eq (k a)) ->
  follows energy_eq (bind c k).
Proof.
  intros Hc Hk m. apply post_bind. intros a m1 Hrun1 b m2 Hrun2.
  eapply energy_eq_trans; [by eapply Hc | by eapply Hk].
Qed.

Lemma grows_bind {A B} k1 k2 (c : M A) (k : A -> M B) :
  follows (grows k1) c -> (forall a, follows (grows k2) (k a)) ->
  follows (grows (k1 + k2)) (bind c k).
Proof.
  intros Hc Hk m. apply post_bind. intros a m1 Hrun1 b m2 Hrun2.
  eapply grows_trans; [by eapply Hc | by eapply Hk].
Qed.

Lemma neutral_ret {A} (a : A) : follows energy_eq (ret a).
Proof. intros m. apply post_ret, energy_eq_refl. Qed.

Lemma neutral_gets {A} (f : Machine -> A) : follows energy_eq (gets f).
Proof. intros m. apply post_gets, energy_eq_refl. Qed.

Lemma neutral_lift {A} (o : option A) : follows energy_eq (lift o).
Proof. intros m. apply post_lift. intros. apply energy_eq_refl. Qed.

Lemma neutral_modify (f : Machine -> Machine) :
  (forall m, pond (f m) = pond m /\ x (f m) = x m /\ y (f m) = y m /\ rng (f m) = rng m) ->
  follows energy_eq (modify f).
Proof.
  intros Hf m. apply post_modify. destruct (Hf m) as (Hp & Hx & Hy & Hr).
  unfold energy_eq. rewrite Hp, Hr. done.
Qed.

Lemma neutral_draw : follows energy_eq draw.
Proof.
  intros m. apply post_draw. unfold energy_eq. msimpl.
  split_and!; [done.. | apply getRandom_keeps].
Qed.

Lemma neutral_incr get set : follows energy_eq (incr get set).
Proof. apply neutral_modify. by intros m. Qed.

Lemma neutral_update p (f : Cell -> Cell) :
  (forall c, energy (f c) = energy c) -> follows energy_eq (update p f).
Proof.
  intros Hf m. apply post_update. intros c Hc. unfold energy_eq. msimpl.
  split_and!; [|done..]. by apply (energies_put_same _ _ c).
Qed.

Lemma neutral_for_loop (body : Z -> M unit) (n : nat) :
  (forall i, follows energy_eq (body i)) ->
  forall from, follows energy_eq (for_loop from n body).
Proof.
  intros Hb. induction n as [|n IH]; intros from; simpl.
  - apply neutral_ret.
  - apply neutral_bind; [apply Hb | intros _; apply IH].
Qed.

End PartialLogic.

Ltac neutral_step :=
  lazymatch goal with
  | |- follows energy_eq (bind _ _) => apply neutral_bind; [|intros ?]
  | |- follows energy_eq (ret _) => apply neutral_ret
  | |- follows energy_eq (gets _) => apply neutral_gets
  | |- follows energy_eq (lift _) => apply neutral_lift
  | |- follows energy_eq draw => apply neutral_draw
  | |- follows energy_eq (incr _ _) => apply neutral_incr
  | |- follows energy_eq pptr => apply neutral_gets
  | |- follows energy_eq (modify _) => apply neutral_modify; by intros ?
  | |- follows energy_eq (update _ _) => apply neutral_update; by intros ?
  | |- follows energy_eq (load _) => unfold load
  | |- follows energy_eq (load_genome _ _) => unfold load_genome
  | |- follows energy_eq (load_ram _ _) => unfold load_ram
  | |- follows energy_eq (store_genome _ _ _) => unfold store_genome
  | |- follows energy_eq (store_ram _ _ _) => unfold store_ram
  | |- follows energy_eq (for_loop _ _ _) => apply neutral_for_loop; intros ?
  | |- follows energy_eq (if ?b then _ else _) => destruct b
  | |- follows energy_eq (let (_, _) := ?v in _) => destruct v
  end.

Ltac neutral := repeat (cbv beta iota; neutral_step); try done.

Section NeutralOps.
Context `{Config}.

Lemma neutral_accessAllowed c2 guess sense : follows energy_eq (accessAllowed c2 guess sense).
Proof. unfold accessAllowed. neutral. Qed.

Lemma neutral_faced : follows energy_eq faced.
Proof. unfold faced. neutral. Qed.

Lemma neutral_mutate inst : follows energy_eq (mutate inst).
Proof. unfold mutate. neutral. Qed.

Lemma neutral_count_inst inst : follows energy_eq (count_inst inst).
Proof. unfold count_inst. neutral. Qed.

Lemma neutral_advance : follows energy_eq advance.
Proof. unfold advance. neutral. Qed.

Lemma neutral_randomize_ram p : follows energy_eq (randomize_ram p).
Proof. unfold randomize_ram. neutral. Qed.

End NeutralOps.

Ltac z_cases v :=
  destruct v as [|v|v]; [ | do 5 (try destruct v as [v|v|]) | ].

Ltac neutral_ops :=
  repeat (cbv beta iota;
          first [ neutral_step
                | apply neutral_accessAllowed
                | apply neutral_faced
                | apply neutral_mutate
                | apply neutral_count_inst
                | apply neutral_advance
                | apply neutral_randomize_ram ]);
  try done.

Section NeutralWindow.
Context `{Config}.

Lemma neutral_getNeighbor_lift px py d : follows energy_eq (lift (getNeighbor px py d)).
Proof. apply neutral_lift. Qed.

Lemma neutral_read_mem c px py mp : follows energy_eq (read_mem c px py mp).
Proof. unfold read_mem. z_cases mp; neutral_ops. Qed.

Lemma neutral_write_mem c px py mp v : follows energy_eq (write_mem c px py mp v).
Proof. unfold write_mem. z_cases mp; neutral_ops. Qed.

Lemma neutral_read_window : follows energy_eq read_window.
Proof. unfold read_window. neutral_ops. apply neutral_read_mem. Qed.

Lemma neutral_op_FWD : follows energy_eq op_FWD.
Proof. unfold op_FWD. neutral_ops. Qed.

Lemma neutral_op_BACK : follows energy_eq op_BACK.
Proof. unfold op_BACK. neutral_ops. Qed.

Lemma neutral_op_DIV : follows energy_eq op_DIV.
Proof.
  unfold op_DIV. apply neutral_bind; [apply neutral_read_window|]. intros tmp.
  destruct (negb (tmp =? 0)); [|neutral_ops].
  apply neutral_bind; [neutral_ops|]. intros r.
  apply neutral_bind; [apply neutral_read_window|]. intros d. neutral_ops.
Qed.

Lemma neutral_op_LOOP : follows energy_eq op_LOOP.
Proof. unfold op_LOOP. neutral_ops. Qed.

Lemma neutral_op_REP : follows energy_eq op_REP.
Proof. unfold op_REP. neutral_ops. Qed.

Lemma neutral_op_TURN : follows energy_eq op_TURN.
Proof. unfold op_TURN. neutral_ops. Qed.

Lemma neutral_op_XCHG : follows energy_eq op_XCHG.
Proof. unfold op_XCHG. neutral_ops. Qed.

End NeutralWindow.

Ltac neutral_all :=
  repeat (cbv beta iota;
          first [ neutral_step
                | apply neutral_accessAllowed
                | apply neutral_faced
                | apply neutral_mutate
                | apply neutral_count_inst
                | apply neutral_advance
                | apply neutral_randomize_ram
                | apply neutral_read_window
                | apply neutral_read_mem
                | apply neutral_write_mem
                | apply neutral_op_FWD
                | apply neutral_op_BACK
                | apply neutral_op_DIV
                | apply neutral_op_LOOP
                | apply neutral_op_REP
                | apply neutral_op_TURN
                | apply neutral_op_XCHG ]);
  try done.

Section EnergyOps.
Context `{Config} `{!ConfigOk}.
Implicit Types (m : Machine) (p : CellPtr).

Lemma wrap_le (v : Z) : 0 <= v -> 0 <= wrap v <= v.
Proof.
  intros Hv. pose proof (wrap_bounds v). split; [lia|].
  unfold wrap. apply Z.mod_le; [done|]. pose proof two_pow_word. lia.
Qed.

Lemma grows_put k m p c c' :
  pond_get (pond m) p = Some c ->
  (0 <= energy c -> 0 <= energy c' <= energy c + k) ->
  grows k m (set_pond (pond_put (pond m) p c') m).
Proof.
  intros Hc Hle. split; [|done]. msimpl. intros Hnn.
  destruct (nonneg_get _ _ _ Hnn Hc) as [He _]. specialize (Hle He).
  split; [by eapply nonneg_put; [done | done | lia]|].
  rewrite (total_put _ _ _ _ Hc). lia.
Qed.

Lemma grows_op_KILL : follows (grows 0) op_KILL.
Proof.
  intros m. unfold op_KILL.
  apply post_bind, post_gets. apply post_bind.
  eapply post_follows; [apply neutral_faced|]. intros tmpptr m1 Heq1.
  apply post_bind, post_gets. apply post_bind.
  eapply post_follows; [apply neutral_accessAllowed|]. intros ok m2 Heq2.
  pose proof (energy_eq_trans _ _ _ Heq1 Heq2) as Heq.
  destruct ok.
  - eapply (post_follows energy_eq); [neutral_all|]. intros ? m3 Heq3.
    apply energy_eq_grows. by eapply energy_eq_trans.
  - apply post_bind, post_load. intros n Hn.
    destruct (2 <? generation n); [|by apply post_ret, energy_eq_grows].
    apply post_bind, post_load. intros c Hc.
    apply post_bind, post_lift. intros tmp Htmp.
    unfold cdiv in Htmp. destruct (FAILED_KILL_PENALTY =? 0); [done|].
    injection Htmp as <-.
    replace 0 with (0 + 0) by lia.
    destruct (Z.ltb_spec (energy c / FAILED_KILL_PENALTY) (energy c)) as [Hlt|Hge];
      apply post_update; intros c' Hc'; msimpl;
      (eapply grows_trans; [by apply energy_eq_grows|]);
      apply (grows_put 0 _ _ c'); try done; msimpl; intros He.
    + assert (c' = c) by congruence. subst c'.
      pose proof (wrap_le (energy c - energy c / FAILED_KILL_PENALTY)).
      assert (0 <= energy c / FAILED_KILL_PENALTY)
        by (apply Z.div_pos; [lia | apply penalty_pos]).
      lia.
    + lia.
Qed.

Lemma grows_op_SHARE : follows (grows 0) op_SHARE.
Proof.
  intros m. unfold op_SHARE.
  apply post_bind, post_gets. apply post_bind.
  eapply post_follows; [apply neutral_faced|]. intros tmpptr m1 Heq1.
  apply post_bind, post_gets. apply post_bind.
  eapply post_follows; [apply neutral_accessAllowed|]. intros ok m2 Heq2.
  pose proof (energy_eq_trans _ _ _ Heq1 Heq2) as Heq.
  destruct ok; [|by apply post_ret, energy_eq_grows].
  apply post_bind, post_load. intros n Hn. apply post_bind.
  eapply (post_follows energy_eq); [neutral_all|]. intros ? m3 Heq3.
  pose proof (energy_eq_trans _ _ _ Heq Heq3) as Heq'.
  apply post_bind, post_load. intros c Hc.
  apply post_bind, post_load. intros n0 Hn0.
  set (tmp := wrap (energy c + energy n0)).
  apply post_bind, post_update. intros c1 Hc1.
  assert (c1 = n0) by congruence. subst c1.
  apply post_bind, post_load. msimpl. intros n' Hn'.
  rewrite (pond_get_put_eq _ _ _ _ Hn0) in Hn'. injection Hn' as <-. msimpl.
  apply post_update. msimpl. intros c2 Hc2.
  replace 0 with (0 + 0) by lia.
  eapply grows_trans; [by apply energy_eq_grows|].
  split; [|done]. msimpl. intros Hnn.
  destruct (nonneg_get _ _ _ Hnn Hc) as [Hec _].
  destruct (nonneg_get _ _ _ Hnn Hn0) as [Hen _].
  pose proof (wrap_le (energy c + energy n0)) as Htmp. fold tmp in Htmp.
  assert (Hhalf : 0 <= tmp / 2 <= tmp) by (Z.div_mod_to_equations; lia).
  pose proof (wrap_le (tmp - tmp / 2)) as Hrest.
  set (pd1 := pond_put (pond m3) tmpptr (set_energy (tmp / 2) n0)) in *.
  assert (Hnn1 : energies_nonneg pd1) by (eapply nonneg_put; [done | done | msimpl; lia]).
  assert (Ht1 : total_energy pd1 = total_energy (pond m3) - energy n0 + tmp / 2)
    by (unfold pd1; by rewrite (total_put _ _ _ _ Hn0)).
  split; [eapply nonneg_put; [done | done | msimpl; lia]|].
  rewrite (total_put _ _ _ _ Hc2). msimpl. rewrite Ht1.
  unfold pd1 in Hc2. rewrite (pond_get_put _ _ _ _ _ Hn0) in Hc2.
  case_decide as Heqp.
  - injection Hc2 as <-. msimpl.
    assert (c = n0) by (rewrite Heqp in Hc; congruence). subst n0.
    Z.div_mod_to_equations. lia.
  - assert (c2 = c) by congruence. subst c2. lia.
Qed.

End EnergyOps.

Section EnergyLoop.
Context `{Config} `{!ConfigOk}.
Implicit Types (m : Machine) (p : CellPtr).

Lemma neutral_grows {A} (c : M A) : follows energy_eq c -> follows (grows 0) c.
Proof. apply follows_mono. intros. by apply energy_eq_grows. Qed.

Lemma grows0_bind {A B} (c : M A) (k : A -> M B) :
  follows (grows 0) c -> (forall a, follows (grows 0) (k a)) ->
  follows (grows 0) (bind c k).
Proof. intros Hc Hk. replace 0 with (0 + 0) by lia. by apply grows_bind. Qed.

Lemma grows_dispatch inst : follows (grows 0) (dispatch inst).
Proof.
  unfold dispatch. z_cases inst; cbv beta iota;
    first [ apply neutral_grows; by neutral_all
          | apply grows0_bind;
            [ first [ apply grows_op_KILL | apply grows_op_SHARE ]
            | intros ?; apply neutral_grows; by neutral_all ] ].
Qed.

Lemma grows_execute inst : follows (grows 0) (execute inst).
Proof.
  unfold execute. apply grows0_bind; [apply neutral_grows; by neutral_all|]. intros fl.
  destruct (negb (fl =? 0)).
  - apply neutral_grows. by neutral_all.
  - apply grows0_bind; [apply neutral_grows; by neutral_all|]. intros _.
    apply grows_dispatch.
Qed.

Lemma post_mono {A} (c : M A) (Q Q' : A -> Machine -> Prop) m :
  post c Q m -> (forall a m', Q a m' -> Q' a m') -> post c Q' m.
Proof. intros Hc HQ a m' Hrun. by apply HQ, Hc. Qed.

Lemma grows_trans0 k m1 m2 m3 : grows k m1 m2 -> grows 0 m2 m3 -> grows k m1 m3.
Proof.
  intros H1 H2. replace k with (k + 0) by lia. by eapply grows_trans.
Qed.

Lemma grows_modify (f : Machine -> Machine) :
  (forall m, pond (f m) = pond m /\ rng (f m) = rng m) -> follows (grows 0) (modify f).
Proof.
  intros Hf m. apply post_modify. destruct (Hf m) as [Hp Hr].
  unfold grows. rewrite Hp, Hr. split; [|done]. intros. split; [done | lia].
Qed.

Lemma grows_update k p (f : Cell -> Cell) :
  (forall c, 0 <= energy c -> 0 <= energy (f c) <= energy c + k) ->
  follows (grows k) (update p f).
Proof. intros Hf m. apply post_update. intros c Hc. apply (grows_put k _ _ c); auto. Qed.

(** One iteration of the core execution loop, started on a cell that
    has energy, takes at least one unit of energy out of the pond. *)
Lemma step_post m c :
  pond_get (pond m) (x m, y m) = Some c -> energy c <> 0 ->
  post step (fun _ m' => grows (-1) m m') m.
Proof.
  intros Hc He. unfold step.
  apply post_bind, post_gets. apply post_bind, post_gets. apply post_bind.
  eapply (post_follows energy_eq); [by neutral_all|]. intros inst0 m1 Heq1.
  apply post_bind.
  eapply (post_follows energy_eq); [by neutral_all|]. intros inst m2 Heq2.
  pose proof (energy_eq_trans _ _ _ Heq1 Heq2) as (Hes & Hx & Hy & Hr).
  apply post_bind. unfold debit. apply post_bind, post_gets, post_update.
  intros c2 Hc2. rewrite Hx, Hy in Hc2.
  pose proof (energies_same_get _ _ _ _ _ Hes Hc Hc2) as Hec.
  set (m3 := set_pond _ m2).
  assert (Hdebit : grows (-1) m m3).
  { replace (-1) with (0 + -1) by lia.
    eapply grows_trans; [apply energy_eq_grows; by split_and!|].
    apply (grows_put (-1) _ _ c2); [by rewrite Hx, Hy|]. msimpl. intros Hnn.
    pose proof (wrap_le (energy c2 - 1)). lia. }
  apply post_bind.
  eapply (post_follows (grows 0)); [apply grows_execute|]. intros continue m4 Hg4.
  eapply (post_follows (grows 0)).
  { destruct continue; apply neutral_grows; by neutral_all. }
  intros _ m5 Hg5.
  eapply grows_trans0; [eapply grows_trans0|]; done.
Qed.

Lemma run_post fuel : forall m,
  energies_nonneg (pond m) -> total_energy (pond m) <= Z.of_nat fuel ->
  post (run fuel) (fun done m' => done = true /\ grows 0 m m') m.
Proof.
  induction fuel as [|fuel IH]; intros m Hnn Hle; cbn [run]; unfold running.
  - apply post_bind, post_bind, post_gets, post_bind, post_load. intros c Hc.
    apply post_bind, post_gets, post_ret, post_ret.
    destruct (nonneg_get _ _ _ Hnn Hc). split; [|apply grows_refl].
    destruct (Z.eqb_spec (energy c) 0); [done | lia].
  - apply post_bind, post_bind, post_gets, post_bind, post_load. intros c Hc.
    apply post_bind, post_gets, post_ret.
    destruct (nonneg_get _ _ _ Hnn Hc).
    destruct (Z.eqb_spec (energy c) 0) as [Hz|Hnz]; cbn [negb andb];
      [apply post_ret; split; [done | apply grows_refl]|].
    destruct (negb (stop m)); [|apply post_ret; split; [done | apply grows_refl]].
    apply post_bind. eapply post_mono; [by eapply step_post|].
    cbv beta. intros _ m1 Hg1. destruct (proj1 Hg1 Hnn) as [Hnn1 Hle1].
    eapply post_mono; [apply IH; [done | lia]|].
    cbv beta. intros done m2 [-> Hg2]. split; [done|].
    apply (grows_le (-1)); [lia|]. by eapply grows_trans0.
Qed.

Ltac peel Hacc :=
  apply post_bind; eapply (post_follows energy_eq); [by neutral_all|];
  let a := fresh "a" in
  let m' := fresh "m" in
  let Hq := fresh "Hq" in
  intros a m' Hq;
  let H' := fresh "Hacc" in
  pose proof (energy_eq_trans _ _ _ Hacc Hq) as H'; clear Hacc Hq; rename H' into Hacc.

Lemma grows_reproduce : 0 <= REPRODUCTION_COST -> follows (grows 0) reproduce.
Proof.
  intros Hcost m. unfold reproduce.
  apply post_bind, post_gets. apply post_bind, post_load. intros c Hc.
  destruct (energy c =? 0); [apply post_ret, grows_refl|].
  destruct ((REPRODUCTION_COST <=? 0) || (REPRODUCTION_COST <=? energy c)) eqn:Hpay;
    [|apply post_ret, grows_refl].
  apply post_bind, post_gets. apply post_bind, post_lift. intros o0 Ho0.
  destruct (negb (o0 =? 0)); [|apply post_ret, grows_refl].
  pose proof (energy_eq_refl m) as Hacc.
  peel Hacc. apply post_bind, post_load. intros n Hn.
  apply post_bind, post_gets.
  apply post_bind. eapply (post_follows energy_eq).
  { destruct (negb (energy n =? 0)); by neutral_all. }
  intros ok m1 Hq. pose proof (energy_eq_trans _ _ _ Hacc Hq) as Hacc1.
  clear Hacc Hq.
  destruct ok; [|by apply post_ret, energy_eq_grows].
  do 17 peel Hacc1.
  apply post_update. intros c' Hc'.
  eapply grows_trans0; [by apply energy_eq_grows|].
  destruct Hacc1 as (Hes & _).
  pose proof (energies_same_get _ _ _ _ _ Hes Hc Hc') as Hec.
  apply (grows_put 0 _ _ c'); [done|]. msimpl. intros He.
  assert (0 <= energy c' - REPRODUCTION_COST).
  { apply orb_true_iff in Hpay as [Hp|Hp]; [apply Z.leb_le in Hp | apply Z.leb_le in Hp];
      lia. }
  pose proof (wrap_le (energy c' - REPRODUCTION_COST)). lia.
Qed.

(** The most energy a seeding adds. *)
Lemma grows_seed :
  0 <= INFLOW_RATE_BASE ->
  follows (grows INFLOW_MAX) seed.
Proof.
  intros Hbase. pose proof inflow_var_pos as Hvar.
  unfold INFLOW_MAX. set (K := INFLOW_RATE_BASE + INFLOW_RATE_VARIATION - 1).
  assert (Hl : forall {A B} (c : M A) (k : A -> M B),
             follows (grows 0) c -> (forall a, follows (grows K) (k a)) ->
             follows (grows K) (bind c k)).
  { intros A B c k Hc Hk. replace K with (0 + K) by lia. by apply grows_bind. }
  assert (Hr : forall {A B} (c : M A) (k : A -> M B),
             follows (grows K) c -> (forall a, follows (grows 0) (k a)) ->
             follows (grows K) (bind c k)).
  { intros A B c k Hc Hk. replace K with (K + 0) by lia. by apply grows_bind. }
  unfold seed.
  do 2 (apply Hl; [apply neutral_grows; by neutral_all|]; intros ?).
  apply Hl; [apply grows_modify; by intros ?|]. intros _.
  do 2 (apply Hl; [apply neutral_grows; by neutral_all|]; intros ?).
  apply Hl; [apply grows_modify; by intros ?|]. intros _.
  do 9 (apply Hl; [apply neutral_grows; by neutral_all|]; intros ?).
  apply Hr.
  - match goal with |- follows _ (if ?b then _ else _) => destruct b end;
      [|apply (follows_mono (grows 0)); [intros; eapply grows_le; [|done]; lia|];
        apply neutral_grows; by neutral_all].
    apply Hl; [apply neutral_grows; by neutral_all|]. intros r.
    intros m. apply post_bind, post_lift. intros v Hv.
    unfold cmod in Hv. destruct (INFLOW_RATE_VARIATION =? 0); [done|].
    injection Hv as <-.
    apply grows_update. intros c Hc. msimpl.
    pose proof (Z.mod_pos_bound r INFLOW_RATE_VARIATION Hvar).
    pose proof (wrap_le (energy c + (INFLOW_RATE_BASE + r mod INFLOW_RATE_VARIATION))).
    unfold K. lia.
  - intros _. apply neutral_grows. by neutral_all.
Qed.

Ltac peel_grows Hacc :=
  apply post_bind; eapply (post_follows (grows 0));
  [ first [ apply neutral_grows; by neutral_all | apply grows_modify; by intros ? ] |];
  let a := fresh "a" in
  let m' := fresh "m" in
  let Hq := fresh "Hq" in
  intros a m' Hq;
  let H' := fresh "Hacc" in
  pose proof (grows_trans0 _ _ _ _ Hacc Hq) as H'; clear Hacc Hq; rename H' into Hacc.

Lemma tick_post fuel m :
  0 <= INFLOW_RATE_BASE -> 0 <= REPRODUCTION_COST ->
  energies_nonneg (pond m) ->
  total_energy (pond m) + inflow (clock m) <= Z.of_nat fuel ->
  post (tick fuel)
       (fun done m' => done = true /\ grows (inflow (clock m)) m m' /\
                       clock m' = u64 (clock m + 1)) m.
Proof.
  intros Hbase Hcost Hnn Hfuel. pose proof inflow_var_pos as Hvar.
  unfold tick.
  apply post_bind, post_gets. apply post_bind, post_lift. intros due Hdue.
  unfold cmod in Hdue. destruct (INFLOW_FREQUENCY =? 0); [done|].
  injection Hdue as <-.
  apply post_bind. eapply (post_follows (grows (inflow (clock m)))).
  { unfold inflow. destruct (clock m mod INFLOW_FREQUENCY =? 0);
      [by apply grows_seed | apply neutral_grows; by neutral_all]. }
  intros _ m1 Hacc.
  assert (Hck : forall m', grows 0 m m' -> True) by done.
  do 17 peel_grows Hacc.
  destruct (proj1 Hacc Hnn) as [Hnn' Hle'].
  apply post_bind. eapply post_mono; [apply run_post; [done | lia]|].
  cbv beta. intros done m' [-> Hrun].
  pose proof (grows_trans0 _ _ _ _ Hacc Hrun) as Hacc'.
  apply post_bind. eapply (post_follows (grows 0)); [by apply grows_reproduce|].
  intros _ m'' Hrep.
  pose proof (grows_trans0 _ _ _ _ Hacc' Hrep) as Hacc''.
  apply post_bind, post_modify, post_ret. split; [done|]. split; [|done].
  eapply grows_trans0; [exact Hacc''|]. split; [|done]. msimpl.
  intros. split; [done | lia].
Qed.

Lemma running_state m go m1 : running m = Some (go, m1) -> m1 = m.
Proof.
  cbv [running bind pptr load gets lift ret].
  destruct (pond_get (pond m) (x m, y m)); [|done]. by intros [= _ <-].
Qed.

Lemma run_exit fuel : forall m m',
  run fuel m = Some (true, m') -> running m' = Some (false, m').
Proof.
  induction fuel as [|fuel IH]; intros m m'; cbn [run]; unfold bind at 1;
    destruct (running m) as [[go m1]|] eqn:Hgo; try done;
    pose proof (running_state _ _ _ Hgo) as ->.
  - unfold ret. intros [= Hneg <-]. destruct go; [done | exact Hgo].
  - destruct go.
    + unfold bind. destruct (step m) as [[[] m2]|]; [|done]. apply IH.
    + unfold ret. by intros [= <-].
Qed.

(** X7: one iteration of the core execution loop on a cell that has
    energy completes, keeps the state well formed, and lowers the energy
    in the pond by at least one unit, whatever the instruction executed. *)
Theorem step_costs_energy m c :
  wf m -> pond_get (pond m) (x m, y m) = Some c -> energy c <> 0 ->
  exists m', step m = Some (tt, m') /\ wf m' /\
             total_energy (pond m') + 1 <= total_energy (pond m).
Proof.
  intros Hwf Hc He.
  destruct (wp_elim _ _ _ (wp_post _ _ _ _ (step_ok m Hwf) (step_post m c Hc He)))
    as ([] & m' & Hrun & Hwf' & Hg).
  exists m'. split; [done|]. split; [done|].
  destruct (proj1 Hg) as [_ Hle]; [apply pond_ok_nonneg; by destruct Hwf|]. lia.
Qed.

(** X8: the core execution loop terminates: run for as many iterations
    as there is energy in the pond, it exits by its own test, having
    added no energy to the pond and without an out-of-bounds access. *)
Theorem core_loop_terminates fuel m :
  wf m -> total_energy (pond m) <= Z.of_nat fuel ->
  exists m', run fuel m = Some (true, m') /\ wf m' /\
             total_energy (pond m') <= total_energy (pond m) /\
             running m' = Some (false, m').
Proof.
  intros Hwf Hfuel.
  assert (Hnn : energies_nonneg (pond m)) by (apply pond_ok_nonneg; by destruct Hwf).
  destruct (wp_elim _ _ _ (wp_post _ _ _ _ (run_ok fuel m Hwf) (run_post fuel m Hnn Hfuel)))
    as (done & m' & Hrun & Hwf' & -> & Hg).
  exists m'. split; [done|]. split; [done|].
  destruct (proj1 Hg Hnn) as [_ Hle]. split; [lia|]. by eapply run_exit.
Qed.

Lemma inflow_range ck : 0 <= INFLOW_RATE_BASE -> 0 <= inflow ck <= INFLOW_MAX.
Proof.
  intros Hb. pose proof inflow_var_pos. unfold inflow, INFLOW_MAX.
  destruct (_ =? 0); lia.
Qed.

Lemma tick_total fuel m :
  0 <= INFLOW_RATE_BASE -> 0 <= REPRODUCTION_COST ->
  wf m ->
  total_energy (pond m) + inflow (clock m) <= Z.of_nat fuel ->
  exists m', tick fuel m = Some (true, m') /\ wf m' /\
             total_energy (pond m') <= total_energy (pond m) + inflow (clock m) /\
             clock m' = u64 (clock m + 1) /\
             (mt_ok (rng m) -> mt_ok (rng m')).
Proof.
  intros Hbase Hcost Hwf Hfuel.
  assert (Hnn : energies_nonneg (pond m)) by (apply pond_ok_nonneg; by destruct Hwf).
  destruct (wp_elim _ _ _ (wp_post _ _ _ _ (tick_ok fuel m Hwf)
                             (tick_post fuel m Hbase Hcost Hnn Hfuel)))
    as (done & m' & Hrun & Hwf' & -> & Hg & Hck).
  exists m'. destruct Hg as [Hg Hmt]. destruct (Hg Hnn) as [_ Hle]. done.
Qed.

(** X9: one iteration of the main loop -- the seeding when it is due,
    the choice of a cell, its execution and the reproduction -- completes
    when the core loop may run for as many iterations as the pond holds
    energy after the seeding.  It adds to the pond at most the inflow of
    one seeding, advances the clock by one and keeps the state well
    formed and the generator within its array. *)
Theorem tick_completes fuel m :
  0 <= INFLOW_RATE_BASE -> 0 <= REPRODUCTION_COST ->
  wf m ->
  total_energy (pond m) + inflow (clock m) <= Z.of_nat fuel ->
  exists m', tick fuel m = Some (true, m') /\ wf m' /\
             total_energy (pond m') <= total_energy (pond m) + inflow (clock m) /\
             clock m' = u64 (clock m + 1) /\
             (mt_ok (rng m) -> mt_ok (rng m')).
Proof. apply tick_total. Qed.

Lemma main_loop_total n fuel :
  0 <= INFLOW_RATE_BASE -> 0 <= REPRODUCTION_COST ->
  forall m,
    wf m -> mt_ok (rng m) -> 0 <= clock m < 2 ^ 64 ->
    total_energy (pond m) + Z.of_nat n * INFLOW_MAX <= Z.of_nat fuel ->
    exists m', main_loop n fuel m = Some m' /\ wf m' /\ mt_ok (rng m') /\
               total_energy (pond m') <= total_energy (pond m) + Z.of_nat n * INFLOW_MAX /\
               clock m' = u64 (clock m + Z.of_nat n).
Proof.
  intros Hbase Hcost. induction n as [|n IH]; intros m Hwf Hmt Hclock Hfuel.
  - exists m. cbn [main_loop]. split_and!; try done; [lia|].
    rewrite Z.add_0_r. unfold u64. by rewrite Z.mod_small.
  - pose proof (inflow_range (clock m) Hbase) as Hin.
    destruct (tick_total fuel m Hbase Hcost Hwf) as (m1 & Hrun & Hwf1 & Hle1 & Hck1 & Hmt1);
      [nia|].
    destruct (IH m1 Hwf1 (Hmt1 Hmt)) as (m' & Hloop & Hwf' & Hmt' & Hle' & Hck');
      [rewrite Hck1; apply Z.mod_pos_bound; lia | nia |].
    exists m'. cbn [main_loop]. rewrite Hrun. split_and!; try done; [nia|].
    rewrite Hck', Hck1. unfold u64. rewrite Zplus_mod_idemp_l. f_equal. lia.
Qed.

Lemma Zsum_replicate_0 (n : nat) : Zsum (replicate n 0) = 0.
Proof. induction n; simpl; lia. Qed.

Lemma total_energy_initial (seed : Z) : total_energy (pond (initial seed)) = 0.
Proof.
  unfold total_energy, energies, initial. cbn [pond].
  rewrite !fmap_replicate. cbn [energy cleared_cell].
  by rewrite !Zsum_replicate_0.
Qed.

Lemma mt_ok_warm_up (n : nat) (s : MTState) :
  mt_ok s -> mt_ok (Nat.iter n (fun st => snd (getRandom st)) s).
Proof. intros Hs. induction n; simpl; [done|]. by apply getRandom_keeps. Qed.

(** X10: from the state in which [main] enters it, the main loop runs
    [n] iterations to the end when the core loop is allowed
    [n * INFLOW_MAX] iterations each time; the state stays well formed,
    the generator within its array, and the pond never holds more than
    [n * INFLOW_MAX] units of energy. *)
Theorem main_loop_completes (seed : Z) (n fuel : nat) :
  0 <= INFLOW_RATE_BASE -> 0 <= REPRODUCTION_COST ->
  Z.of_nat n * INFLOW_MAX <= Z.of_nat fuel ->
  exists m', main_loop n fuel (initial seed) = Some m' /\
             wf m' /\ mt_ok (rng m') /\
             total_energy (pond m') <= Z.of_nat n * INFLOW_MAX /\
             clock m' = u64 (Z.of_nat n).
Proof.
  intros Hbase Hcost Hfuel.
  destruct (main_loop_total n fuel Hbase Hcost (initial seed))
    as (m' & Hrun & Hwf & Hmt & Hle & Hck).
  - apply wf_initial.
  - apply mt_ok_warm_up, init_genrand_ok.
  - simpl. lia.
  - rewrite total_energy_initial. lia.
  - exists m'. rewrite total_energy_initial in Hle. by split_and!.
Qed.

End EnergyLoop.

(** ** Instructions that undo each other *)

Section Inverses.
Context `{Config} `{!ConfigOk}.
Implicit Types (m : Machine).

Lemma land_wrap_mod (v k : Z) :
  0 <= k <= 32 -> Z.land (wrap v) (2 ^ k - 1) = v mod 2 ^ k.
Proof.
  intros Hk. replace (2 ^ k - 1) with (Z.ones k) by (rewrite Z.ones_equiv; lia).
  rewrite Z.land_ones by lia. unfold wrap.
  apply Z.mod_mod_divide.
  exists (2 ^ (SYSWORD_BITS - k)). rewrite <- Z.pow_add_r.
  - f_equal. lia.
  - destruct word_bits as [-> | ->]; lia.
  - lia.
Qed.

Lemma land255_wrap v : Z.land (wrap v) REG_MASK = v mod 256.
Proof. apply (land_wrap_mod v 8). lia. Qed.

Lemma land31_wrap v : Z.land (wrap v) MEM_MASK = v mod 32.
Proof. apply (land_wrap_mod v 5). lia. Qed.

Lemma set_reg_id m : set_reg (reg m) m = m.
Proof. by destruct m. Qed.

Lemma set_ptr_mem_id m : set_ptr_mem (ptr_mem m) m = m.
Proof. by destruct m. Qed.

Lemma set_ptr_ioPtr_id m : set_ptr_ioPtr (ptr_ioPtr m) m = m.
Proof. by destruct m. Qed.

(** X11: the paired instructions undo each other.  In any well-formed
    state, [FWD] then [BACK], [INC] then [DEC], [NEXTM] then [PREVM],
    [NEXTB] then [PREVB], and each pair in the other order, leave the
    whole state as it was, also when the pointer or the register wraps. *)
Theorem moves_undo_each_other m :
  wf m ->
  dispatch2 OP_FWD OP_BACK m = Some (false, m) /\
  dispatch2 OP_BACK OP_FWD m = Some (false, m) /\
  dispatch2 OP_INC OP_DEC m = Some (false, m) /\
  dispatch2 OP_DEC OP_INC m = Some (false, m) /\
  dispatch2 OP_NEXTM OP_PREVM m = Some (false, m) /\
  dispatch2 OP_PREVM OP_NEXTM m = Some (false, m) /\
  dispatch2 OP_NEXTB OP_PREVB m = Some (false, m) /\
  dispatch2 OP_PREVB OP_NEXTB m = Some (false, m).
Proof.
  intros Hwf. wf_parts Hwf. pose proof depth_fits. pose proof depth_holds_reg.
  unfold dispatch2, dispatch.
  assert (Hmod256 : forall v, 0 <= v < 256 -> v mod 256 = v)
    by (intros; by apply Z.mod_small).
  assert (Hmod32 : forall v, 0 <= v < 32 -> v mod 32 = v)
    by (intros; by apply Z.mod_small).
  split_and!; apply wp_eq; unfold op_FWD, op_BACK; wp_pure.
  - rewrite (wrap_small (ptr_ioPtr m + 1)) by lia.
    destruct (Z.leb_spec POND_DEPTH (ptr_ioPtr m + 1)); wp_pure.
    + split; [done|]. replace (POND_DEPTH - 1) with (ptr_ioPtr m) by lia.
      by destruct m.
    + destruct (Z.eqb_spec (ptr_ioPtr m + 1) 0); [lia|]. wp_pure.
      split; [done|]. rewrite wrap_small by lia.
      replace (ptr_ioPtr m + 1 - 1) with (ptr_ioPtr m) by lia. by destruct m.
  - destruct (Z.eqb_spec (ptr_ioPtr m) 0) as [Hz|Hnz]; wp_pure.
    + rewrite (wrap_small (POND_DEPTH - 1 + 1)) by lia.
      destruct (Z.leb_spec POND_DEPTH (POND_DEPTH - 1 + 1)); [|lia].
      split; [done|]. rewrite <- Hz. by destruct m.
    + rewrite (wrap_small (ptr_ioPtr m - 1)) by lia.
      rewrite (wrap_small (ptr_ioPtr m - 1 + 1)) by lia.
      destruct (Z.leb_spec POND_DEPTH (ptr_ioPtr m - 1 + 1)); [lia|].
      split; [done|]. replace (ptr_ioPtr m - 1 + 1) with (ptr_ioPtr m) by lia.
      by destruct m.
  - split; [done|]. rewrite !land255_wrap, Zminus_mod_idemp_l.
    replace (reg m + 1 - 1) with (reg m) by lia. rewrite Hmod256 by done. by destruct m.
  - split; [done|]. rewrite !land255_wrap, Zplus_mod_idemp_l.
    replace (reg m - 1 + 1) with (reg m) by lia. rewrite Hmod256 by done. by destruct m.
  - split; [done|]. rewrite !land31_wrap, Zminus_mod_idemp_l.
    replace (ptr_mem m + 1 - 1) with (ptr_mem m) by lia. rewrite Hmod32 by done.
    by destruct m.
  - split; [done|]. rewrite !land31_wrap, Zplus_mod_idemp_l.
    replace (ptr_mem m - 1 + 1) with (ptr_mem m) by lia. rewrite Hmod32 by done.
    by destruct m.
  - split; [done|]. rewrite !land31_wrap, Zminus_mod_idemp_l.
    replace (ptr_mem m + 8 - 8) with (ptr_mem m) by lia. rewrite Hmod32 by done.
    by destruct m.
  - split; [done|]. rewrite !land31_wrap, Zplus_mod_idemp_l.
    replace (ptr_mem m - 8 + 8) with (ptr_mem m) by lia. rewrite Hmod32 by done.
    by destruct m.
Qed.

End Inverses.

(** ** What is written is read back *)

Section RoundTrips.
Context `{Config} `{!ConfigOk}.
Implicit Types (m : Machine).

Lemma self_cell m : wf m -> exists c, pond_get (pond m) (x m, y m) = Some c /\ cell_ok c.
Proof. intros Hwf. wf_parts Hwf. by apply pond_ok_get. Qed.

(** X12: what [WRITEG] stores in the genome [READG] reads back, and
    what [WRITEO] stores in the output buffer [READO] reads back: the
    register holds its five low bits afterwards, and the pair on the
    output buffer leaves the pond as it was. *)
Theorem genome_and_output_round_trip m :
  wf m ->
  exists m1 m2,
    dispatch2 OP_WRITEG OP_READG m = Some (false, m1) /\
    reg m1 = Z.land (reg m) INST_MASK /\
    dispatch2 OP_WRITEO OP_READO m = Some (false, m2) /\
    reg m2 = Z.land (reg m) INST_MASK /\
    pond m2 = pond m.
Proof.
  intros Hwf. wf_parts Hwf. destruct (self_cell m Hwf) as (c & Hc & Hcok).
  assert (Hglen : length (genome c) = Z.to_nat POND_DEPTH)
    by (by destruct Hcok as (_ & _ & _ & Hl & _)).
  pose proof (land31 (reg m)) as Hr31. change 31 with INST_MASK in Hr31.
  assert (Hu8 : u8 (Z.land (reg m) INST_MASK) = Z.land (reg m) INST_MASK)
    by (apply u8_small; lia).
  assert (HG : wp (dispatch2 OP_WRITEG OP_READG)
                  (fun r m' => r = false /\ reg m' = Z.land (reg m) INST_MASK) m).
  { unfold dispatch2, dispatch. wp_pure.
    eapply wp_store_genome; [exact Hc | lia |]. wp_pure.
    eapply wp_load_genome; [by eapply pond_get_put_eq | |].
    - msimpl. rewrite aget_insert by lia. by rewrite decide_True.
    - wp_pure. done. }
  assert (HO : wp (dispatch2 OP_WRITEO OP_READO)
                  (fun r m' => r = false /\ reg m' = Z.land (reg m) INST_MASK /\
                               pond m' = pond m) m).
  { unfold dispatch2, dispatch. wp_pure.
    eapply wp_lift; [apply aset_in_bounds; lia|]. wp_pure.
    eapply wp_lift; [rewrite aget_insert by lia; by rewrite decide_True|]. wp_pure.
    done. }
  apply wp_elim' in HG as (m1 & HG1 & HG2). apply wp_elim' in HO as (m2 & HO1 & HO2 & HO3).
  exists m1, m2. by split_and!.
Qed.

Lemma ram_slot c (i : Z) :
  cell_ok c -> 0 <= i < 16 -> exists v, aget (ram c) i = Some v /\ 0 <= v < 256.
Proof.
  intros (_ & _ & _ & _ & _ & Hlen & Hall) Hi.
  change (Z.to_nat RAM_SIZE) with 16%nat in Hlen.
  destruct (aget_in_bounds (ram c) i) as [v Hv]; [rewrite Hlen; lia|].
  exists v. split; [done|]. exact (aget_Forall _ _ _ _ Hall Hv).
Qed.

Ltac slot_tac :=
  match goal with |- context [Z.land ?a 7] => pose proof (land7 a) end; lia.

(** X13: [WRITEM] then [READM] through the memory window.  On the
    private and output RAM (addresses 8 to 23) the register gets its own
    value back; on the logo and facing slots (0 and 1) it gets its five
    low bits; on the slots 2 to 7 the write is ignored: the pond is as it
    was and the register holds what a read of the window would have
    returned before the write. *)
Theorem window_write_then_read m :
  wf m ->
  (8 <= ptr_mem m < 24 ->
   exists m', dispatch2 OP_WRITEM OP_READM m = Some (false, m') /\ reg m' = reg m) /\
  (0 <= ptr_mem m < 2 ->
   exists m', dispatch2 OP_WRITEM OP_READM m = Some (false, m') /\
              reg m' = Z.land (reg m) 31) /\
  (2 <= ptr_mem m < 8 ->
   exists m', dispatch2 OP_WRITEM OP_READM m = Some (false, m') /\
              Some (reg m') = fst <$> read_window m /\ pond m' = pond m).
Proof.
  intros Hwf. wf_parts Hwf. destruct (self_cell m Hwf) as (c & Hc & Hcok).
  assert (Hrlen : length (ram c) = 16%nat)
    by (by destruct Hcok as (_ & _ & _ & _ & _ & Hl & _)).
  assert (Hu8 : u8 (Z.land (reg m) REG_MASK) = reg m).
  { change REG_MASK with (2 ^ 8 - 1). replace (2 ^ 8 - 1) with (Z.ones 8) by done.
    rewrite Z.land_ones by lia. rewrite Z.mod_small by lia. apply u8_small. lia. }
  pose proof (land31 (reg m)) as Hr31.
  split_and!.
  - intros Hband.
    assert (Hcases : ptr_mem m = 8 \/ ptr_mem m = 9 \/ ptr_mem m = 10 \/ ptr_mem m = 11 \/
                     ptr_mem m = 12 \/ ptr_mem m = 13 \/ ptr_mem m = 14 \/ ptr_mem m = 15 \/
                     ptr_mem m = 16 \/ ptr_mem m = 17 \/ ptr_mem m = 18 \/ ptr_mem m = 19 \/
                     ptr_mem m = 20 \/ ptr_mem m = 21 \/ ptr_mem m = 22 \/ ptr_mem m = 23)
      by lia.
    apply wp_elim'. unfold dispatch2, dispatch, read_window. wp_pure.
    destruct_or! Hcases; rewrite Hcases; unfold write_mem, read_mem; wp_pure;
      (eapply wp_store_ram; [exact Hc | rewrite Hrlen; slot_tac |]); wp_pure;
      rewrite Hcases; wp_pure;
      (eapply wp_load_ram;
         [ by eapply pond_get_put_eq
         | msimpl; rewrite aget_insert by (rewrite Hrlen; slot_tac);
           by rewrite decide_True
         | ]); wp_pure; done.
  - intros Hband.
    assert (Hcases : ptr_mem m = 0 \/ ptr_mem m = 1) by lia.
    apply wp_elim'. unfold dispatch2, dispatch, read_window. wp_pure.
    destruct_or! Hcases; rewrite Hcases; unfold write_mem, read_mem; wp_pure;
      (eapply wp_update; [exact Hc|]); wp_pure; rewrite Hcases; wp_pure;
      (eapply wp_load; [by eapply pond_get_put_eq|]); wp_pure;
      (split; [done|]); msimpl; apply u8_small; unfold LOGO_MASK, FACING_MASK; simpl;
      lia.
  - intros Hband.
    assert (Hcases : ptr_mem m = 2 \/ ptr_mem m = 3 \/ ptr_mem m = 4 \/ ptr_mem m = 5 \/
                     ptr_mem m = 6 \/ ptr_mem m = 7) by lia.
    apply wp_elim'. unfold dispatch2, dispatch. wp_pure.
    set (m1 := set_statCounters
                 (set_memSpecialWrites (wrap (memSpecialWrites (statCounters m) + 1))
                    (statCounters m)) m).
    assert (Hw : write_mem (x m, y m) (x m) (y m) (ptr_mem m) (reg m) m = Some (tt, m1))
      by (destruct_or! Hcases; rewrite Hcases; reflexivity).
    eapply wp_intro; [exact Hw|]. wp_pure.
    assert (Hwf1 : wf m1) by (by apply wf_set_stats).
    destruct (wp_elim _ _ _ (read_window_ok m1 Hwf1))
      as (v & m2 & Hread & _ & st & -> & _).
    eapply wp_intro; [exact Hread|]. wp_pure. split; [done|]. split; [|done].
    rewrite <- (read_window_pond_only m1 m) by done. by rewrite Hread.
Qed.

Lemma faced_getNeighbor m c q :
  pond_get (pond m) (x m, y m) = Some c -> faced m = Some (q, m) ->
  getNeighbor (x m) (y m) (facing c) = Some q.
Proof.
  intros Hc Hf. rewrite (faced_eq m c Hc) in Hf.
  destruct (getNeighbor (x m) (y m) (facing c)); simpl in Hf; congruence.
Qed.

Lemma verdict_stats (c2 : CellPtr) guess sense m st nb b :
  pond_get (pond m) c2 = Some nb ->
  fst <$> accessAllowed c2 guess sense m = Some b ->
  accessAllowed c2 guess sense (set_statCounters st m)
  = Some (b, set_rng (snd (getRandom (rng m))) (set_statCounters st m)).
Proof.
  intros Hn Hv.
  destruct (accessAllowed_eq c2 guess sense m nb Hn) as (bits & Hb & Heq).
  destruct (accessAllowed_eq c2 guess sense (set_statCounters st m) nb Hn)
    as (bits' & Hb' & Heq').
  rewrite Heq in Hv. simpl in Hv. injection Hv as <-.
  rewrite Hb in Hb'. injection Hb' as <-. by rewrite Heq'.
Qed.

Ltac norm_addr :=
  match goal with
  | |- context [read_mem _ _ _ ?a] =>
      let a' := eval vm_compute in a in change a with a'
  end.

Lemma read_output_band q (px py j v : Z) m nbc :
  0 <= j < 8 ->
  pond_get (pond m) q = Some nbc -> aget (ram nbc) (8 + j) = Some v ->
  fst <$> read_mem q px py (16 + j) m = Some v.
Proof.
  intros Hj Hq Hv.
  assert (Hcases : j = 0 \/ j = 1 \/ j = 2 \/ j = 3 \/ j = 4 \/ j = 5 \/ j = 6 \/ j = 7)
    by lia.
  assert (Hw : wp (read_mem q px py (16 + j)) (fun r _ => r = v) m).
  { destruct_or! Hcases; subst j; norm_addr; unfold read_mem; wp_pure;
      (eapply wp_load_ram; [exact Hq | exact Hv |]); done. }
  apply wp_elim in Hw as (r & m' & Hrun & ->). by rewrite Hrun.
Qed.

Lemma read_input_band p q (px py j v : Z) m c nbc :
  0 <= j < 8 ->
  pond_get (pond m) p = Some c -> getNeighbor px py (facing c) = Some q ->
  pond_get (pond m) q = Some nbc -> aget (ram nbc) (8 + j) = Some v ->
  fst <$> read_mem p px py (24 + j) m = Some v.
Proof.
  intros Hj Hp Hn Hq Hv.
  assert (Hcases : j = 0 \/ j = 1 \/ j = 2 \/ j = 3 \/ j = 4 \/ j = 5 \/ j = 6 \/ j = 7)
    by lia.
  assert (Hw : wp (read_mem p px py (24 + j)) (fun r _ => r = v) m).
  { destruct_or! Hcases; subst j; norm_addr; unfold read_mem; wp_pure;
      (eapply wp_load; [exact Hp|]); wp_pure;
      (eapply wp_lift; [exact Hn|]); wp_pure;
      (eapply wp_load_ram; [exact Hq | exact Hv |]); done. }
  apply wp_elim in Hw as (r & m' & Hrun & ->). by rewrite Hrun.
Qed.

(** X14: a [WRITEM] on the input band (addresses 24 to 31) goes through
    the access oracle to the RAM of the neighbour the cell faces.  When
    access is granted the register is stored in byte [8 + (address & 7)]
    of that neighbour's RAM, where the neighbour reads it on its own
    output band and the writer on its input band; when it is refused the
    pond is as it was.  No other cell changes in either case. *)
Theorem input_band_reaches_the_neighbour m c q nb b :
  wf m ->
  24 <= ptr_mem m < 32 ->
  pond_get (pond m) (x m, y m) = Some c ->
  faced m = Some (q, m) ->
  pond_get (pond m) q = Some nb ->
  fst <$> accessAllowed q (logo c) 1 m = Some b ->
  exists m',
    dispatch OP_WRITEM m = Some (false, m') /\
    (forall q', q' <> q -> pond_get (pond m') q' = pond_get (pond m) q') /\
    (b = false -> pond m' = pond m) /\
    (b = true ->
     pond_get (pond m') q
     = Some (set_ram (<[Z.to_nat (8 + Z.land (ptr_mem m) 7) := reg m]> (ram nb)) nb) /\
     fst <$> read_mem q (fst q) (snd q) (ptr_mem m - 8) m' = Some (reg m) /\
     fst <$> read_mem (x m, y m) (x m) (y m) (ptr_mem m) m' = Some (reg m)).
Proof.
  intros Hwf Hband Hc Hf Hnb Hacc. wf_parts Hwf.
  pose proof (faced_getNeighbor m c q Hc Hf) as Hq.
  destruct (pond_ok_valid _ _ _ Hpond Hnb) as [Hvq Hnbok].
  assert (Hrlen : length (ram nb) = 16%nat)
    by (by destruct Hnbok as (_ & _ & _ & _ & _ & Hl & _)).
  assert (Hu8 : u8 (Z.land (reg m) REG_MASK) = reg m).
  { change REG_MASK with (2 ^ 8 - 1). replace (2 ^ 8 - 1) with (Z.ones 8) by done.
    rewrite Z.land_ones by lia. rewrite Z.mod_small by lia. apply u8_small. lia. }
  assert (Hcases : ptr_mem m = 24 \/ ptr_mem m = 25 \/ ptr_mem m = 26 \/ ptr_mem m = 27 \/
                   ptr_mem m = 28 \/ ptr_mem m = 29 \/ ptr_mem m = 30 \/ ptr_mem m = 31)
    by lia.
  set (st := set_memInputWrites (wrap (memInputWrites (statCounters m) + 1))
               (statCounters m)).
  pose proof (verdict_stats q (logo c) 1 m st nb b Hnb Hacc) as Hverdict.
  assert (Hj : exists j, 0 <= j < 8 /\ ptr_mem m = 24 + j /\ Z.land (ptr_mem m) 7 = j).
  { destruct_or! Hcases; rewrite Hcases;
      [exists 0 | exists 1 | exists 2 | exists 3 | exists 4 | exists 5 | exists 6 | exists 7];
      by split_and!. }
  destruct Hj as (j & Hj & Hmpj & Hland).
  assert (HW : wp (write_mem (x m, y m) (x m) (y m) (ptr_mem m) (reg m))
                  (fun _ m' =>
                     exists s,
                       m' = set_pond
                              (if b then
                                 pond_put (pond m) q
                                   (set_ram (<[Z.to_nat (8 + Z.land (ptr_mem m) 7) := reg m]>
                                               (ram nb)) nb)
                               else pond m)
                              (set_rng s (set_statCounters st m))) m).
  { destruct_or! Hcases; rewrite Hcases; unfold write_mem; wp_pure;
      (eapply wp_load; [exact Hc|]); wp_pure;
      (eapply wp_lift; [exact Hq|]); wp_pure;
      (eapply wp_load; [exact Hc|]); wp_pure;
      (eapply wp_intro; [exact Hverdict|]); wp_pure;
      (destruct b; wp_pure;
       [ eapply wp_store_ram; [exact Hnb | rewrite Hrlen; slot_tac |]; wp_pure;
         rewrite Hu8; eexists; reflexivity
       | exists (snd (getRandom (rng m))); subst st; destruct m; reflexivity ]). }
  apply wp_elim'. unfold dispatch. wp_pure.
  eapply wp_mono; [exact HW|]. cbv beta. intros _ m' [s ->]. wp_pure.
  split; [done|]. rewrite Hland. split_and!.
  - intros q' Hq'. destruct b; [by erewrite pond_get_put_ne | done].
  - by intros ->.
  - intros ->. msimpl.
    set (nb' := set_ram (<[Z.to_nat (8 + j) := reg m]> (ram nb)) nb).
    assert (Hnb' : pond_get (pond_put (pond m) q nb') q = Some nb')
      by (by eapply pond_get_put_eq).
    assert (Hslot : aget (ram nb') (8 + j) = Some (reg m)).
    { unfold nb'. msimpl. rewrite aget_insert by (rewrite Hrlen; lia).
      by rewrite decide_True. }
    split_and!; [done | |].
    + replace (ptr_mem m - 8) with (16 + j) by lia.
      by eapply (read_output_band q _ _ j).
    + rewrite Hmpj.
      destruct (decide ((x m, y m) = q)) as [Heq|Hne].
      * eapply (read_input_band (x m, y m) q _ _ j _ _ nb'); try done.
        -- msimpl. by rewrite Heq.
        -- unfold nb'. msimpl. rewrite Heq in Hc.
           assert (c = nb) by congruence. by subst c.
      * eapply (read_input_band (x m, y m) q _ _ j _ _ c); try done.
        msimpl. by erewrite pond_get_put_ne.
Qed.

End RoundTrips.

(** ** Edge cases of the instruction set *)

Section EdgeCases.
Context `{Config} `{!ConfigOk}.
Implicit Types (m : Machine).

(** X15: [DIV] reads the memory window once to test the divisor and,
    when it is not zero, once more to divide; a divisor of zero gives 0
    and no division is performed.  The second read runs from the state
    the first one has left and returns the same value. *)
Theorem DIV_reads_twice_and_never_divides_by_zero m :
  wf m ->
  exists v m1,
    read_window m = Some (v, m1) /\
    (v = 0 -> dispatch OP_DIV m = Some (false, set_reg 0 m1)) /\
    (v <> 0 ->
     exists m2, read_window m1 = Some (v, m2) /\
                dispatch OP_DIV m = Some (false, set_reg (reg m / v) m2)).
Proof.
  intros Hwf. wf_parts Hwf.
  destruct (wp_elim _ _ _ (read_window_ok m Hwf)) as (v & m1 & Hr1 & Hv & st & -> & Hst).
  exists v, (set_statCounters st m). split; [done|].
  assert (Hwf1 : wf (set_statCounters st m)) by (by apply wf_set_stats).
  split.
  - intros ->. apply wp_eq. unfold dispatch, op_DIV. wp_pure.
    eapply wp_intro; [exact Hr1|]. wp_pure. done.
  - intros Hnz.
    destruct (wp_elim _ _ _ (read_window_ok _ Hwf1)) as (d & m2 & Hr2 & _ & st2 & -> & _).
    assert (d = v).
    { pose proof (read_window_pond_only (set_statCounters st m) m) as Hsame.
      rewrite Hr1, Hr2 in Hsame. simpl in Hsame.
      assert (Some d = Some v) by (by apply Hsame). congruence. }
    subst d. eexists. split; [exact Hr2|].
    apply wp_eq. unfold dispatch, op_DIV. wp_pure.
    eapply wp_intro; [exact Hr1|]. wp_pure.
    destruct (Z.eqb_spec v 0); [done|]. wp_pure.
    eapply wp_intro; [exact Hr2|]. wp_pure.
    eapply wp_lift; [unfold cdiv; destruct (Z.eqb_spec v 0); [done | reflexivity]|].
    wp_pure. split; [done|]. f_equal.
    change REG_MASK with (2 ^ 8 - 1). replace (2 ^ 8 - 1) with (Z.ones 8) by done.
    rewrite Z.land_ones by lia. apply Z.mod_small.
    split; [apply Z.div_pos; lia|].
    apply Z.le_lt_trans with (reg m); [|lia].
    apply Z.div_le_upper_bound; [lia|]. nia.
Qed.

(** X16: [STOP], and a [LOOP] taken with a full loop stack, set [stop];
    the core execution loop then exits at its next test without
    executing anything more, however many iterations it is allowed. *)
Theorem STOP_and_stack_overflow_end_the_loop m inst fuel :
  wf m ->
  inst = OP_STOP \/
  (inst = OP_LOOP /\ reg m <> 0 /\ loopStackPtr m = POND_DEPTH) ->
  dispatch inst m = Some (false, set_stop true m) /\
  run fuel (set_stop true m) = Some (true, set_stop true m).
Proof.
  intros Hwf Hcase. destruct (self_cell m Hwf) as (c & Hc & _). split.
  - destruct Hcase as [-> | (-> & Hreg & Hsp)]; [reflexivity|].
    apply wp_eq. unfold dispatch, op_LOOP. wp_pure.
    destruct (Z.eqb_spec (reg m) 0); [done|]. wp_pure. rewrite Hsp.
    destruct (Z.leb_spec POND_DEPTH POND_DEPTH); [|lia]. by wp_pure.
  - assert (Hgo : running (set_stop true m) = Some (false, set_stop true m)).
    { apply wp_eq. unfold running. wp_pure. eapply wp_load; [exact Hc|]. wp_pure.
      split; [|done]. apply andb_false_r. }
    destruct fuel; cbn [run]; unfold bind; rewrite Hgo; reflexivity.
Qed.

(** X17: a [REP] executed with an empty loop stack is not an error: the
    iteration charges the cell, counts the instruction and goes on with
    the next instruction. *)
Theorem REP_on_an_empty_stack_falls_through m c :
  wf m ->
  pond_get (pond m) (x m, y m) = Some c ->
  aget (genome c) (instPtr m) = Some OP_REP ->
  quiet m -> falseLoopDepth m = 0 -> loopStackPtr m = 0 ->
  step m = Some (tt, set_instPtr (next_ip (instPtr m)) (counted OP_REP (charged c m))).
Proof.
  intros Hwf Hc Hinst Hq Hfl Hsp.
  rewrite (step_quiet m c _ Hc Hinst Hq). apply wp_eq. apply wp_bind.
  unfold execute. wp_pure.
  assert (Hc1 : falseLoopDepth (charged c m) = 0) by exact Hfl.
  rewrite Hc1. change (0 =? 0) with true. wp_pure.
  eapply wp_intro; [apply count_inst_eq; [by apply wf_charged | lia]|].
  unfold counted, dispatch. cbv beta iota zeta. unfold op_REP. wp_pure.
  assert (Hc3 : loopStackPtr (charged c m) = 0) by exact Hsp.
  rewrite Hc3. change (0 =? 0) with true. wp_pure.
  unfold advance. wp_pure. split; reflexivity.
Qed.

(** X18: for a cell of generation 2 or less [TURN] does not turn the
    cell: it behaves exactly as [READG] and loads the register from the
    genome at the I/O pointer. *)
Theorem TURN_of_a_young_cell_is_READG m c :
  wf m ->
  pond_get (pond m) (x m, y m) = Some c ->
  generation c <= 2 ->
  dispatch OP_TURN m = dispatch OP_READG m /\
  exists v, dispatch OP_TURN m = Some (false, set_reg v m) /\
            aget (genome c) (ptr_ioPtr m) = Some v.
Proof.
  intros Hwf Hc Hgen. wf_parts Hwf.
  destruct (pond_ok_valid _ _ _ Hpond Hc) as [_ Hcok].
  assert (Hglen : length (genome c) = Z.to_nat POND_DEPTH)
    by (by destruct Hcok as (_ & _ & _ & Hl & _)).
  destruct (aget_in_bounds (genome c) (ptr_ioPtr m)) as [v Hv]; [lia|].
  assert (HT : dispatch OP_TURN m = Some (false, set_reg v m)).
  { apply wp_eq. unfold dispatch, op_TURN. wp_pure.
    eapply wp_load; [exact Hc|]. wp_pure.
    destruct (Z.ltb_spec 2 (generation c)); [lia|]. wp_pure.
    eapply wp_load_genome; [exact Hc | exact Hv |]. by wp_pure. }
  assert (HR : dispatch OP_READG m = Some (false, set_reg v m)).
  { apply wp_eq. unfold dispatch. wp_pure.
    eapply wp_load_genome; [exact Hc | exact Hv |]. by wp_pure. }
  split; [congruence|]. by exists v.
Qed.

(** X19: [CLEARM] sets the 16 bytes of the executing cell's RAM to zero
    and changes nothing else, in the cell or in the state. *)
Theorem CLEARM_zeroes_the_ram m c :
  wf m ->
  pond_get (pond m) (x m, y m) = Some c ->
  dispatch OP_CLEARM m
  = Some (false,
          set_pond (pond_put (pond m) (x m, y m)
                      (set_ram (replicate (Z.to_nat RAM_SIZE) 0) c)) m).
Proof.
  intros Hwf Hc. wf_parts Hwf.
  destruct (pond_ok_valid _ _ _ Hpond Hc) as [_ Hcok].
  assert (Hrlen : length (ram c) = 16%nat)
    by (by destruct Hcok as (_ & _ & _ & _ & _ & Hl & _)).
  destruct (ram c) as [|r0 [|r1 [|r2 [|r3 [|r4 [|r5 [|r6 [|r7 [|r8 [|r9 [|r10 [|r11
             [|r12 [|r13 [|r14 [|r15 [|? ?]]]]]]]]]]]]]]]]] eqn:Hram; try done.
  apply wp_eq. unfold dispatch. wp_pure.
  change (Z.to_nat RAM_SIZE) with 16%nat. cbn [for_loop]. wp_pure.
  eapply wp_store_ram; [exact Hc | rewrite Hram; simpl; lia |]. rewrite Hram. wp_pure.
  do 15 (eapply wp_store_ram; [pget | msimpl; simpl; lia |]; msimpl; wp_pure).
  split; [done|]. rewrite !pond_put_put. simpl. by destruct m.
Qed.

(** X20: when no birth takes place.  If the parent has no energy or
    not enough for [REPRODUCTION_COST], if the output buffer starts with
    [STOP], or if the neighbour faced has no energy, the reproduction
    step leaves the whole state as it was and draws no random word.  If
    all of these tests pass and the access oracle refuses, the only
    change is the one random word the oracle has drawn: the parent pays
    nothing. *)
Theorem reproduce_without_birth m c q nb :
  wf m ->
  pond_get (pond m) (x m, y m) = Some c ->
  faced m = Some (q, m) ->
  pond_get (pond m) q = Some nb ->
  (energy c = 0 \/
   (0 < REPRODUCTION_COST /\ energy c < REPRODUCTION_COST) \/
   aget (outputBuf m) 0 = Some OP_STOP \/
   energy nb = 0 ->
   reproduce m = Some (tt, m)) /\
  (energy c <> 0 -> REPRODUCTION_COST <= energy c ->
   aget (outputBuf m) 0 <> Some OP_STOP -> energy nb <> 0 ->
   fst <$> accessAllowed q (reg m) 0 m = Some false ->
   reproduce m = Some (tt, set_rng (snd (getRandom (rng m))) m)).
Proof.
  intros Hwf Hc Hf Hnb. wf_parts Hwf. pose proof depth_holds_reg.
  destruct (aget_in_bounds (outputBuf m) 0) as [o0 Ho0]; [lia|].
  split.
  - intros Hcase. apply wp_eq. unfold reproduce. wp_pure.
    eapply wp_load; [exact Hc|]. wp_pure.
    destruct (Z.eqb_spec (energy c) 0); [by wp_pure|].
    destruct (Z.leb_spec REPRODUCTION_COST 0); simpl;
      [|destruct (Z.leb_spec REPRODUCTION_COST (energy c)); simpl]; wp_pure;
      try (eapply wp_lift; [exact Ho0|]; wp_pure;
           destruct (Z.eqb_spec o0 0); simpl; wp_pure; [done|];
           eapply wp_faced; [exact Hf|]; wp_pure;
           eapply wp_load; [exact Hnb|]; wp_pure;
           destruct (Z.eqb_spec (energy nb) 0); simpl; wp_pure; [done|];
           destruct_or! Hcase; try lia; congruence);
      try done.
  - intros He Hpay Hout Hen Hacc. apply (verdict_eq _ _ _ _ _ _ Hnb) in Hacc.
    apply wp_eq. unfold reproduce. wp_pure.
    eapply wp_load; [exact Hc|]. wp_pure.
    destruct (Z.eqb_spec (energy c) 0); [done|].
    destruct (Z.leb_spec REPRODUCTION_COST (energy c)); [|lia].
    rewrite orb_true_r. wp_pure.
    eapply wp_lift; [exact Ho0|]. wp_pure.
    destruct (Z.eqb_spec o0 0); [congruence|]. wp_pure.
    eapply wp_faced; [exact Hf|]. wp_pure.
    eapply wp_load; [exact Hnb|]. wp_pure.
    destruct (Z.eqb_spec (energy nb) 0); [done|]. wp_pure.
    eapply wp_intro; [exact Hacc|]. wp_pure. done.
Qed.

End EdgeCases.

(** ** The observers *)

Section Scan.
Context `{Config}.

Lemma scan_column_fold {T} (body : T -> Cell -> T) pd (px : Z) col (n : nat) :
  0 <= px -> pd !! Z.to_nat px = Some col ->
  forall (k : nat) (t : T),
    (k + n <= length col)%nat ->
    scan_column body pd px (Z.of_nat k) n t = Some (foldl body t (take n (drop k col))).
Proof.
  intros Hpx Hcol. induction n as [|n IH]; intros k t Hlen; cbn [scan_column].
  - by rewrite take_0.
  - assert (Hk : (k < length col)%nat) by lia.
    destruct (lookup_lt_is_Some_2 col k Hk) as [c Hc].
    assert (Hget : pond_get pd (px, Z.of_nat k) = Some c).
    { unfold pond_get. cbn [fst snd]. rewrite !aget_lookup by lia.
      rewrite Hcol. simpl. by rewrite aget_lookup, Nat2Z.id by lia. }
    rewrite Hget. simpl.
    replace (Z.of_nat k + 1) with (Z.of_nat (S k)) by lia.
    rewrite IH by lia. f_equal.
    rewrite (drop_S _ _ _ Hc). simpl. done.
Qed.

Lemma scan_pond_fold {T} (body : T -> Cell -> T) pd (n : nat) :
  Forall (fun col => length col = Z.to_nat POND_SIZE_Y) pd ->
  forall (k : nat) (t : T),
    (k + n <= length pd)%nat ->
    scan_pond body pd (Z.of_nat k) n t
    = Some (foldl body t (concat (take n (drop k pd)))).
Proof.
  intros Hcols. induction n as [|n IH]; intros k t Hlen; cbn [scan_pond].
  - by rewrite take_0.
  - assert (Hk : (k < length pd)%nat) by lia.
    destruct (lookup_lt_is_Some_2 pd k Hk) as [col Hcol].
    pose proof (Forall_lookup_1 _ _ _ _ Hcols Hcol) as Hclen. simpl in Hclen.
    rewrite (scan_column_fold body pd (Z.of_nat k) col _ ltac:(lia)
               ltac:(by rewrite Nat2Z.id) 0%nat t) by lia.
    simpl. rewrite drop_0, <- Hclen, firstn_all.
    replace (Z.of_nat k + 1) with (Z.of_nat (S k)) by lia.
    rewrite IH by lia. f_equal.
    rewrite (drop_S _ _ _ Hcol). simpl. by rewrite foldl_app.
Qed.

Lemma scan_whole_pond {T} (body : T -> Cell -> T) pd (t : T) :
  pond_ok pd ->
  scan_pond body pd 0 (Z.to_nat POND_SIZE_X) t = Some (foldl body t (concat pd)).
Proof.
  intros [Hlen Hall].
  rewrite (scan_pond_fold body pd _ (Forall_impl _ _ _ Hall (fun _ H => proj1 H)) 0%nat t)
    by lia.
  by rewrite drop_0, <- Hlen, firstn_all.
Qed.

End Scan.

Section Report.
Context `{Config} `{!ConfigOk}.

Lemma count_of_snoc {A} (P : A -> Prop) `{!forall x, Decision (P x)} (l : list A) (a : A) :
  count_of P (l ++ [a]) = count_of P l + (if decide (P a) then 1 else 0).
Proof.
  unfold count_of. rewrite filter_app, length_app.
  rewrite filter_cons, filter_nil. destruct (decide (P a)); simpl; lia.
Qed.

Lemma count_of_le {A} (P : A -> Prop) `{!forall x, Decision (P x)} (l : list A) :
  0 <= count_of P l <= Z.of_nat (length l).
Proof. unfold count_of. pose proof (length_filter P l). lia. Qed.

Lemma tally_fold (l : list Cell) :
  Z.of_nat (length l) < 2 ^ 64 ->
  tally_of l (foldl tally_cell empty_tally l).
Proof.
  induction l as [|c l IH] using rev_ind; intros Hlen.
  - unfold tally_of, count_of. simpl. split_and!; try done; try lia; by left.
  - rewrite length_app in Hlen. simpl in Hlen.
    destruct IH as (Ha & Hl & Hv & Hmax & Hmaxl & Hatt & Hrange); [lia|].
    rewrite foldl_app. simpl. set (t := foldl tally_cell empty_tally l) in *.
    pose proof (count_of_le active l). pose proof (count_of_le living l).
    pose proof (count_of_le viable l).
    assert (Hin : forall c', c' ∈ l -> c' ∈ l ++ [c])
      by (intros; apply elem_of_app; by left).
    assert (Hlast : c ∈ l ++ [c]) by (apply elem_of_app; right; by constructor).
    unfold tally_of. rewrite !count_of_snoc.
    destruct (decide (active c)) as [A|A]; destruct (decide (living c)) as [L|L];
      destruct (decide (viable c)) as [V|V];
      unfold active, living, viable in A, L, V; try (exfalso; lia);
      unfold tally_cell;
      destruct (Z.eqb_spec (energy c) 0); cbn [negb]; try (exfalso; tauto);
      cbn [totalActiveCells totalLivingCells totalViableReplicators t_maxCellEnergy
           t_maxLivingCellEnergy];
      destruct (Z.ltb_spec 1 (generation c));
      destruct (Z.ltb_spec 2 (generation c)); cbn [andb]; try (exfalso; lia);
      destruct (Z.ltb_spec (t_maxCellEnergy t) (energy c));
      destruct (Z.ltb_spec (t_maxLivingCellEnergy t) (energy c));
      unfold u64; rewrite ?Z.mod_small by lia;
      (split_and!;
       [ lia | lia | lia
       | apply Forall_app; split;
         [ eapply Forall_impl; [exact Hmax|]; simpl; intros; lia
         | constructor; [lia | done] ]
       | apply Forall_app; split;
         [ eapply Forall_impl; [exact Hmaxl|]; simpl; intros ? Hi Hliv;
           specialize (Hi Hliv); lia
         | constructor; [unfold living; intros; lia | done] ]
       | first [ right; exists c; split; [done | lia]
               | destruct Hatt as [?|(c' & Hc'in & Hc')];
                 [by left | right; exists c'; split; [by apply Hin | done]] ]
       | lia | lia ]).
Qed.

Lemma count_of_mono {A} (P Q : A -> Prop) `{!forall x, Decision (P x)}
    `{!forall x, Decision (Q x)} (l : list A) :
  (forall a, P a -> Q a) -> count_of P l <= count_of Q l.
Proof.
  intros HPQ. induction l as [|a l IH] using rev_ind.
  - done.
  - rewrite !count_of_snoc. repeat case_decide; try lia. exfalso; auto.
Qed.

Lemma length_concat_cols {A} (pd : list (list A)) (n : nat) :
  Forall (fun col => length col = n) pd ->
  length (concat pd) = (length pd * n)%nat.
Proof.
  induction 1 as [|col pd Hc _ IH]; simpl; [done|].
  rewrite length_app, IH, Hc. lia.
Qed.

Lemma pond_cells (pd : list (list Cell)) :
  pond_ok pd ->
  Z.of_nat (length (concat pd)) = POND_SIZE_X * POND_SIZE_Y /\
  Forall cell_ok (concat pd).
Proof.
  intros [Hlen Hall]. split.
  - rewrite (length_concat_cols pd (Z.to_nat POND_SIZE_Y)).
    + rewrite Hlen. pose proof pond_x_pos. pose proof pond_y_pos. lia.
    + eapply Forall_impl; [exact Hall|]. by intros ? [? _].
  - apply Forall_concat. eapply Forall_impl; [exact Hall|]. by intros ? [_ ?].
Qed.

(** X21: the report counts what it says.  On a well-formed state whose
    pond has fewer than [2 ^ 64] cells, [doReport] completes; its three
    counts are the numbers of cells with energy, of those past generation
    1 and of those past generation 2, each at most the one before and
    none above the size of the pond; the two maxima it stores bound the
    energy of every cell and of every living cell; it clears the
    per-report counters and changes nothing else of the state; and it
    announces an extinction or an appearance exactly when the number of
    viable replicators has fallen to zero or risen from zero since the
    last report. *)
Theorem doReport_counts_the_cells (m : Machine) (o : Observer) :
  wf m -> POND_SIZE_X * POND_SIZE_Y < 2 ^ 64 ->
  exists t ev o',
    doReport m o = Some (t, ev, set_statCounters cleared_stats m, o') /\
    totalActiveCells t = count_of active (concat (pond m)) /\
    totalLivingCells t = count_of living (concat (pond m)) /\
    totalViableReplicators t = count_of viable (concat (pond m)) /\
    totalViableReplicators t <= totalLivingCells t /\
    totalLivingCells t <= totalActiveCells t /\
    totalActiveCells t <= POND_SIZE_X * POND_SIZE_Y /\
    Forall (fun c => energy c <= maxCellEnergy o') (concat (pond m)) /\
    Forall (fun c => living c -> energy c <= maxLivingCellEnergy o')
           (concat (pond m)) /\
    maxLivingCellEnergy o' <= maxCellEnergy o' /\
    colorScheme o' = colorScheme o /\
    lastTotalViableReplicators o' = totalViableReplicators t /\
    (ev = Some Extinct <->
     0 < lastTotalViableReplicators o /\ totalViableReplicators t = 0) /\
    (ev = Some Appeared <->
     lastTotalViableReplicators o = 0 /\ 0 < totalViableReplicators t).
Proof.
  intros Hwf Hsize. destruct Hwf as [Hpond _].
  destruct (pond_cells _ Hpond) as [Hcells _].
  unfold doReport. rewrite (scan_whole_pond tally_cell _ _ Hpond). simpl.
  set (t := foldl tally_cell empty_tally (concat (pond m))).
  destruct (tally_fold (concat (pond m)) ltac:(lia))
    as (Ha & Hl & Hv & Hmax & Hmaxl & _ & Hrange).
  fold t in Ha, Hl, Hv, Hmax, Hmaxl, Hrange.
  pose proof (count_of_le active (concat (pond m))).
  pose proof (count_of_le viable (concat (pond m))).
  pose proof (count_of_mono viable living (concat (pond m))
                ltac:(unfold viable, living; intros; lia)).
  pose proof (count_of_mono living active (concat (pond m))
                ltac:(unfold active, living; intros; tauto)).
  eexists _, _, _. split; [reflexivity|]. cbn [maxCellEnergy maxLivingCellEnergy
    colorScheme lastTotalViableReplicators].
  split_and!; try done; try lia.
  - destruct (Z.ltb_spec 0 (lastTotalViableReplicators o));
      destruct (Z.eqb_spec (totalViableReplicators t) 0);
      destruct (Z.eqb_spec (lastTotalViableReplicators o) 0);
      destruct (Z.ltb_spec 0 (totalViableReplicators t)); cbn [andb];
      split; try done; try lia; intros [? ?]; lia.
  - destruct (Z.ltb_spec 0 (lastTotalViableReplicators o));
      destruct (Z.eqb_spec (totalViableReplicators t) 0);
      destruct (Z.eqb_spec (lastTotalViableReplicators o) 0);
      destruct (Z.ltb_spec 0 (totalViableReplicators t)); cbn [andb];
      split; try done; try lia; intros [? ?]; lia.
Qed.

End Report.

Section Colours.
Context `{Config} `{!ConfigOk}.

Lemma sum_loop_total (a : list Z) (n : nat) :
  forall (from : nat) (sum : Z),
    (from + n <= length a)%nat ->
    exists s, sum_loop a (Z.of_nat from) n sum = Some s.
Proof.
  induction n as [|n IH]; intros from sum Hlen; cbn [sum_loop]; [by eexists|].
  destruct (lookup_lt_is_Some_2 a from ltac:(lia)) as [v Hv].
  rewrite aget_lookup, Nat2Z.id, Hv by lia. simpl.
  replace (Z.of_nat from + 1) with (Z.of_nat (S from)) by lia.
  apply IH. lia.
Qed.

(** X22: in the colour schemes that do not use floating point
    ([KINSHIP], [LINEAGE], [LOGO], [FACING], [RAM0], [RAM1]), [getColor]
    reads inside the genome and the RAM, returns a byte, and returns the
    black of empty cells, 0, exactly for the cells that have no energy or
    are of generation 1 or less.  A living cell gets a colour of at least
    64 in [KINSHIP], an odd one in [LINEAGE], [73 + logo] in [LOGO],
    [157 + facing] in [FACING] and at least 128 in [RAM0] and [RAM1]. *)
Theorem getColor_black_means_not_living (shade : Z -> Z -> Z) (o : Observer) (c : Cell) :
  cell_ok c ->
  colorScheme o <> ENERGY1 -> colorScheme o <> ENERGY2 ->
  colorScheme o <> MAX_COLOR_SCHEME ->
  exists v,
    getColor shade o c = Some v /\ 0 <= v < 256 /\
    (v = 0 <-> ~ living c) /\
    (living c ->
     match colorScheme o with
     | KINSHIP => 64 <= v
     | LINEAGE => Z.odd v = true
     | LOGO => v = 73 + logo c
     | FACING => v = 157 + facing c
     | _ => 128 <= v
     end).
Proof.
  intros (Hlogo & Hfacing & He & Hg & _ & Hr & _) H1 H2 H3.
  assert (Hword : 2 ^ 32 <= 2 ^ SYSWORD_BITS)
    by (destruct word_bits as [-> | ->]; lia).
  unfold getColor, living.
  destruct (Z.eqb_spec (energy c) 0) as [He0|He0]; cbn [negb].
  { exists 0. split; [destruct (colorScheme o); done|]. split; [lia|].
    split; [split; [intros _ [? _]; done | done] | intros [? _]; done]. }
  destruct (Z.ltb_spec 1 (generation c)) as [Hgen|Hgen].
  2:{ exists 0. split; [destruct (colorScheme o); done|]. split; [lia|].
      split; [split; [intros _ [_ ?]; lia | done] | intros [_ ?]; lia]. }
  destruct (colorScheme o) eqn:Hs; try done.
  - destruct (sum_loop_total (genome c) (Z.to_nat POND_DEPTH) 0 0 ltac:(lia))
      as [s Hsum].
    change (Z.of_nat 0) with 0 in Hsum. rewrite Hsum. simpl.
    pose proof (Z.mod_pos_bound s 192 ltac:(lia)).
    exists (u8 (s mod 192 + 64)). unfold u8. rewrite Z.mod_small by lia.
    split_and!; try done; try lia; try (split; [lia | intros Hn; exfalso; apply Hn; lia]).
  - exists (Z.lor (u8 (lineage c)) 1).
    pose proof (Z.mod_pos_bound (lineage c) (2 ^ 8) ltac:(lia)) as Hb.
    assert (Hodd : Z.odd (Z.lor (u8 (lineage c)) 1) = true).
    { rewrite <- Z.bit0_odd, Z.lor_spec. simpl. by rewrite orb_true_r. }
    assert (Hrange : 0 <= Z.lor (u8 (lineage c)) 1 < 256).
    { unfold u8. apply (lor_range 8); lia. }
    split_and!; try done; try lia;
      try (split; [intros Hz; rewrite Hz in Hodd; done | intros Hn; exfalso; apply Hn; lia]).
  - exists (u8 (wrap (73 + logo c))). unfold u8, wrap.
    rewrite (Z.mod_small (73 + logo c)) by lia. rewrite Z.mod_small by lia.
    split_and!; try done; try lia; try (split; [lia | intros Hn; exfalso; apply Hn; lia]).
  - exists (u8 (wrap (157 + facing c))). unfold u8, wrap.
    rewrite (Z.mod_small (157 + facing c)) by lia. rewrite Z.mod_small by lia.
    split_and!; try done; try lia; try (split; [lia | intros Hn; exfalso; apply Hn; lia]).
  - destruct (sum_loop_total (ram c) 8 0 0 ltac:(rewrite Hr; unfold RAM_SIZE; lia))
      as [s Hsum].
    change (Z.of_nat 0) with 0 in Hsum. rewrite Hsum. simpl.
    assert (0 <= Z.land s 127 < 128).
    { change 127 with (Z.ones 7). rewrite Z.land_ones by lia.
      apply Z.mod_pos_bound. lia. }
    exists (u8 (Z.land s 127 + 128)). unfold u8. rewrite Z.mod_small by lia.
    split_and!; try done; try lia; try (split; [lia | intros Hn; exfalso; apply Hn; lia]).
  - destruct (sum_loop_total (ram c) 8 8 0 ltac:(rewrite Hr; unfold RAM_SIZE; lia))
      as [s Hsum].
    change (Z.of_nat 8) with 8 in Hsum. rewrite Hsum. simpl.
    assert (0 <= Z.land s 127 < 128).
    { change 127 with (Z.ones 7). rewrite Z.land_ones by lia.
      apply Z.mod_pos_bound. lia. }
    exists (u8 (Z.land s 127 + 128)). unfold u8. rewrite Z.mod_small by lia.
    split_and!; try done; try lia; try (split; [lia | intros Hn; exfalso; apply Hn; lia]).
Qed.

End Colours.

Section Dumps.
Context `{Config} `{!ConfigOk}.

Lemma inst_chars_lookup (i : Z) :
  0 <= i < 32 -> aget inst_chars i = Some (if i <? 10 then 48 + i else 87 + i).
Proof. intros Hi. cases32 Hi; reflexivity. Qed.

Lemma dump_genome_shift (a : Z) (g : list Z) (n : nat) :
  forall from sc, 0 <= from ->
    dump_genome (a :: g) (from + 1) n sc = dump_genome g from n sc.
Proof.
  induction n as [|n IH]; intros from sc Hfrom; cbn [dump_genome]; [done|].
  rewrite !aget_lookup by lia.
  replace (Z.to_nat (from + 1)) with (S (Z.to_nat from)) by lia. simpl.
  destruct (g !! Z.to_nat from) as [inst|]; [|done]. simpl.
  rewrite IH by lia. done.
Qed.

(** The dump of [g1 ++ g2] is the dump of [g1] followed by the dump of
    [g2], which starts from a count of 0 when [g1] ends with another
    instruction than [STOP]. *)
Lemma dump_genome_app (g1 g2 : list Z) (n : nat) :
  Forall (fun v => 0 <= v < 32) g1 ->
  forall sc, exists out1 sc',
    dump_genome g1 0 (length g1) sc = Some out1 /\
    (length out1 <= length g1)%nat /\
    (g1 = [] -> sc' = sc) /\
    (g1 <> [] -> last g1 <> Some OP_STOP -> sc' = 0) /\
    dump_genome (g1 ++ g2) 0 (length g1 + n) sc
    = (out2 ← dump_genome g2 0 n sc'; Some (out1 ++ out2)).
Proof.
  induction 1 as [|a g1 Ha Hg1 IH]; intros sc.
  - exists [], sc. simpl. split_and!; try done.
    destruct (dump_genome g2 0 n sc); done.
  - set (sc1 := if a =? OP_STOP then wrap (sc + 1) else 0).
    destruct (IH sc1) as (out1 & sc' & Hout1 & Hlen1 & Hnil & Hlast & Happ).
    assert (Hchar : exists out,
      (if sc1 <? 5 then
         if 1 <? sc1 then Some [Chr 46]
         else b ← aget inst_chars a; Some [Chr b]
       else Some []) = Some out /\ (length out <= 1)%nat).
    { rewrite (inst_chars_lookup a Ha).
      destruct (sc1 <? 5); [destruct (1 <? sc1)|]; eexists; split; try done;
        simpl; lia. }
    destruct Hchar as (out & Hout & Hlen).
    exists (out ++ out1), sc'. split_and!.
    + cbn [length dump_genome]. change (aget (a :: g1) 0) with (Some a).
      cbn [mbind option_bind]. fold sc1. rewrite Hout. cbn [mbind option_bind].
      rewrite (dump_genome_shift a g1 _ 0 sc1) by lia. rewrite Hout1. done.
    + rewrite length_app. simpl. lia.
    + done.
    + intros _ Hl. destruct g1 as [|b g1].
      * rewrite Hnil by done. unfold sc1.
        destruct (Z.eqb_spec a OP_STOP) as [->|]; [by exfalso; apply Hl | done].
      * apply Hlast; [done|]. by rewrite last_cons_cons in Hl.
    + cbn [length app Nat.add dump_genome]. change (aget (a :: g1 ++ g2) 0) with (Some a).
      cbn [mbind option_bind]. fold sc1. rewrite Hout. cbn [mbind option_bind].
      rewrite (dump_genome_shift a (g1 ++ g2) _ 0 sc1) by lia. rewrite Happ.
      destruct (dump_genome g2 0 n sc'); simpl; [|done]. by rewrite app_assoc.
Qed.

(** A run of [k] [STOP]s after [j] of them. *)
Lemma dump_stops (k : nat) :
  forall j : nat,
    Z.of_nat j + Z.of_nat k < 2 ^ SYSWORD_BITS ->
    dump_genome (replicate k OP_STOP) 0 k (Z.of_nat j)
    = Some (take k (drop j [Chr 48; Chr 46; Chr 46; Chr 46])).
Proof.
  induction k as [|k IH]; intros j Hj; [done|].
  cbn [replicate dump_genome]. change (aget (OP_STOP :: replicate k OP_STOP) 0)
    with (Some OP_STOP). cbn [mbind option_bind].
  rewrite Z.eqb_refl. unfold wrap. rewrite Z.mod_small by lia.
  rewrite (dump_genome_shift OP_STOP _ _ 0) by lia.
  replace (Z.of_nat j + 1) with (Z.of_nat (S j)) by lia.
  rewrite IH by lia.
  destruct j as [|[|[|[|j]]]]; try reflexivity.
  match goal with |- context [?a <? 5] => destruct (Z.ltb_spec a 5); [lia|] end.
  simpl. by rewrite drop_nil, !take_nil.
Qed.

(** X23: [dumpCell] indexes [inst_chars] within its 32 characters, and
    elides the [STOP]s a genome ends with: if the genome is [g] followed
    by [k] [STOP]s, [g] not ending in [STOP], the line is the six header
    fields, the characters of [g], then of the trailing [STOP]s only
    [0...] (the first [k] characters of it when [k < 4]), then the
    newline. *)
Theorem dumpCell_elides_trailing_STOPs (c : Cell) (g : list Z) (k : nat) :
  cell_ok c ->
  genome c = g ++ replicate k OP_STOP -> last g <> Some OP_STOP ->
  exists lg fc body,
    aget inst_chars (logo c) = Some lg /\
    aget inst_chars (facing c) = Some fc /\
    dump_genome g 0 (length g) 0 = Some body /\
    (length body <= length g)%nat /\
    dumpCell c
    = Some ([ Num (ID c); Chr 44; Num (parentID c); Chr 44; Num (lineage c);
              Chr 44; Num (generation c); Chr 44; Chr lg; Chr 44; Chr fc;
              Chr 44 ]
            ++ (body ++ take k [Chr 48; Chr 46; Chr 46; Chr 46]) ++ [Chr 10]).
Proof.
  intros (Hlogo & Hfacing & _ & Hlen & Hcodons & _) Hg Hlast.
  rewrite Hg in Hlen, Hcodons. rewrite length_app, length_replicate in Hlen.
  apply Forall_app in Hcodons as [Hcodons _].
  pose proof depth_fits. pose proof depth_holds_reg.
  destruct (dump_genome_app g (replicate k OP_STOP) k Hcodons 0)
    as (body & sc' & Hbody & Hblen & Hnil & Hnz & Happ).
  assert (Hsc : sc' = 0).
  { destruct g as [|a g]; [by apply Hnil | by apply Hnz]. }
  subst sc'. pose proof (dump_stops k 0 ltac:(lia)) as Hstops.
  change (Z.of_nat 0) with 0 in Hstops. rewrite Hstops in Happ. simpl in Happ.
  eexists _, _, body. unfold dumpCell.
  rewrite (inst_chars_lookup _ Hlogo), (inst_chars_lookup _ Hfacing).
  split; [reflexivity|]. split; [reflexivity|]. split; [done|]. split; [done|].
  cbn [mbind option_bind]. rewrite Hg, <- Hlen, Happ. done.
Qed.

Lemma dumpCell_total (c : Cell) : cell_ok c -> exists l, dumpCell c = Some l.
Proof.
  intros (Hlogo & Hfacing & _ & Hlen & Hcodons & _).
  destruct (dump_genome_app (genome c) [] 0 Hcodons 0)
    as (body & sc' & Hbody & _).
  unfold dumpCell.
  rewrite (inst_chars_lookup _ Hlogo), (inst_chars_lookup _ Hfacing).
  cbn [mbind option_bind]. rewrite <- Hlen, Hbody. by eexists.
Qed.

Lemma dump_fold (l : list Cell) :
  Forall cell_ok l ->
  forall acc, exists ls,
    foldl dump_cell_if_viable (Some acc) l = Some (acc ++ ls) /\
    Forall2 (fun c ln => dumpCell c = Some ln) (filter viable l) ls.
Proof.
  induction 1 as [|c l Hc Hl IH]; intros acc.
  - exists []. rewrite app_nil_r. split; [done | constructor].
  - cbn [foldl]. unfold dump_cell_if_viable at 2. rewrite filter_cons.
    destruct (decide (viable c)) as [V|V]; unfold viable in V;
      destruct (Z.eqb_spec (energy c) 0); destruct (Z.ltb_spec 2 (generation c));
      cbn [negb andb]; try (exfalso; lia); try (exfalso; tauto).
    + destruct (dumpCell_total c Hc) as [ln Hln]. rewrite Hln. simpl.
      destruct (IH (acc ++ [ln])) as (ls & Hfold & Hall).
      exists (ln :: ls). rewrite Hfold, <- app_assoc. split; [done|].
      by constructor.
    + apply IH.
    + apply IH.
    + apply IH.
Qed.

(** X24: when the file opens, [doDump] writes one line per viable cell
    (energy, generation above 2), the line [dumpCell] gives for it, in
    the order of the scan of the pond; the number of lines is the number
    of viable replicators that [doReport] reports for the same state. *)
Theorem doDump_writes_the_viable_cells (m : Machine) (o : Observer) :
  wf m -> POND_SIZE_X * POND_SIZE_Y < 2 ^ 64 ->
  exists lines t ev o',
    doDump true (pond m) = Some lines /\
    Forall2 (fun c ln => dumpCell c = Some ln)
            (filter viable (concat (pond m))) lines /\
    doReport m o = Some (t, ev, set_statCounters cleared_stats m, o') /\
    Z.of_nat (length lines) = totalViableReplicators t.
Proof.
  intros [Hpond _] Hsize.
  destruct (pond_cells _ Hpond) as [Hcells Hall].
  destruct (dump_fold _ Hall []) as (lines & Hfold & Hlines).
  destruct (tally_fold (concat (pond m)) ltac:(lia)) as (_ & _ & Hv & _).
  exists lines. unfold doDump, doReport.
  rewrite (scan_whole_pond dump_cell_if_viable _ _ Hpond).
  rewrite (scan_whole_pond tally_cell _ _ Hpond). rewrite Hfold. simpl.
  eexists _, _, _. split; [done|]. split; [done|]. split; [reflexivity|].
  rewrite Hv. unfold count_of. by rewrite (Forall2_length _ _ _ Hlines).
Qed.

End Dumps.

(** ** The further theorems at example states *)

Lemma getNeighbor_lands_in_pond_witness :
  match @getNeighbor pond4 0 0 1 with
  | Some q => 0 <= 1 < 32 /\ @valid pond4 q
  | None => ~ (0 <= 1 < 32)
  end.
Proof.
  apply (@getNeighbor_lands_in_pond pond4 pond4_ok 0 0 1). unfold valid; simpl; lia.
Defined.

Lemma getNeighbor_is_another_cell_witness :
  (0, 3) <> (0, 0) /\ @valid pond4 (0, 3).
Proof.
  apply (@getNeighbor_is_another_cell pond4 pond4_ok 0 0 0 (0, 3));
    [simpl; lia | simpl; lia | unfold valid; simpl; lia | reflexivity].
Defined.

Lemma TEST_NEIGHBOR_passes_witness : @TEST_NEIGHBOR pond4 = 0.
Proof. apply (@TEST_NEIGHBOR_passes pond4 pond4_ok); simpl; lia. Defined.

Lemma getNeighbor_opposite_returns_witness :
  @getNeighbor pond4 0 3 ((0 + 3) mod 6) = Some (0, 0).
Proof.
  apply (@getNeighbor_opposite_returns pond4 pond4_ok 0 0 0 (0, 3));
    [reflexivity | unfold valid; simpl; lia | lia | reflexivity].
Defined.

Lemma accessAllowed_compares_hamming_distance_witness :
  exists b,
    @accessAllowed pond4 (0, 3) 0 1 (arena attacker victim 0)
    = Some (b, set_rng (snd (@getRandom pond4 (rng (arena attacker victim 0))))
                 (arena attacker victim 0)) /\
    b = true.
Proof.
  destruct (@accessAllowed_compares_hamming_distance pond4 (0, 3) 0 1
              (arena attacker victim 0) victim)
    as (b & Hrun & _ & Hsame & _); [reflexivity|].
  exists b. split; [exact Hrun|]. apply Hsame; [lia | reflexivity].
Defined.

Lemma generator_stays_in_range_witness :
  mt_ok (init_genrand 1) /\
  0 <= fst (@getRandom pond4 (init_genrand 1)) < 2 ^ 64.
Proof.
  destruct (@generator_stays_in_range pond4 pond4_ok 1) as [Hinit Hstep].
  split; [exact Hinit|].
  destruct (Hstep _ Hinit) as [_ [Hr _]]. exact Hr.
Defined.

Lemma step_costs_energy_witness :
  exists m',
    @step pond4 (arena sharer orphan 0) = Some (tt, m') /\ @wf pond4 m' /\
    total_energy (pond m') + 1 <= total_energy (pond (arena sharer orphan 0)).
Proof.
  apply (@step_costs_energy pond4 pond4_ok (arena sharer orphan 0) sharer);
    [example_wf | reflexivity | simpl; lia].
Defined.

Lemma core_loop_terminates_witness :
  exists m',
    @run pond4 15 (arena sharer orphan 0) = Some (true, m') /\ @wf pond4 m' /\
    total_energy (pond m') <= total_energy (pond (arena sharer orphan 0)) /\
    running m' = Some (false, m').
Proof.
  apply (@core_loop_terminates pond4 pond4_ok 15 (arena sharer orphan 0));
    [example_wf | vm_compute; intros [=]].
Defined.

Lemma tick_completes_witness :
  exists m',
    @tick pond4 (Z.to_nat 5999) (@initial pond4 1) = Some (true, m') /\ @wf pond4 m' /\
    total_energy (pond m')
    <= total_energy (pond (@initial pond4 1)) + @inflow pond4 (clock (@initial pond4 1)) /\
    clock m' = u64 (clock (@initial pond4 1) + 1) /\
    (mt_ok (rng (@initial pond4 1)) -> mt_ok (rng m')).
Proof.
  apply (@tick_completes pond4 pond4_ok (Z.to_nat 5999) (@initial pond4 1));
    [ simpl; lia | simpl; lia | apply (@wf_initial pond4 pond4_ok)
    | vm_compute; intros [=] ].
Defined.

Lemma main_loop_completes_witness :
  exists m',
    @main_loop pond4 2 (Z.to_nat 11998) (@initial pond4 1) = Some m' /\
    @wf pond4 m' /\ mt_ok (rng m') /\
    total_energy (pond m') <= Z.of_nat 2 * @INFLOW_MAX pond4 /\
    clock m' = u64 (Z.of_nat 2).
Proof.
  apply (@main_loop_completes pond4 pond4_ok 1 2%nat (Z.to_nat 11998));
    [simpl; lia | simpl; lia | vm_compute; intros [=]].
Defined.

Lemma moves_undo_each_other_witness :
  @dispatch2 pond4 OP_FWD OP_BACK (arena attacker victim 0)
  = Some (false, arena attacker victim 0) /\
  @dispatch2 pond4 OP_DEC OP_INC (arena attacker victim 0)
  = Some (false, arena attacker victim 0).
Proof.
  destruct (@moves_undo_each_other pond4 pond4_ok (arena attacker victim 0))
    as (Hfb & _ & _ & Hdi & _); [example_wf|].
  split; [exact Hfb | exact Hdi].
Defined.

Lemma genome_and_output_round_trip_witness :
  exists m1 m2,
    @dispatch2 pond4 OP_WRITEG OP_READG (arena attacker victim 77) = Some (false, m1) /\
    reg m1 = Z.land (reg (arena attacker victim 77)) INST_MASK /\
    @dispatch2 pond4 OP_WRITEO OP_READO (arena attacker victim 77) = Some (false, m2) /\
    reg m2 = Z.land (reg (arena attacker victim 77)) INST_MASK /\
    pond m2 = pond (arena attacker victim 77).
Proof.
  apply (@genome_and_output_round_trip pond4 (arena attacker victim 77)). example_wf.
Defined.

Lemma window_write_then_read_witness :
  (exists m',
     @dispatch2 pond4 OP_WRITEM OP_READM (set_ptr_mem 9 (arena attacker victim 77))
     = Some (false, m') /\ reg m' = 77) /\
  (exists m',
     @dispatch2 pond4 OP_WRITEM OP_READM (arena attacker victim 77)
     = Some (false, m') /\ reg m' = 13).
Proof.
  split.
  - destruct (@window_write_then_read pond4 pond4_ok
                (set_ptr_mem 9 (arena attacker victim 77))) as (Hram & _ & _);
      [apply wf_set_ptr_mem; [example_wf | lia] |].
    apply Hram. simpl; lia.
  - destruct (@window_write_then_read pond4 pond4_ok (arena attacker victim 77))
      as (_ & Hspecial & _); [example_wf|].
    apply Hspecial. simpl; lia.
Defined.

Lemma input_band_reaches_the_neighbour_witness :
  exists m',
    @dispatch pond4 OP_WRITEM (set_ptr_mem 24 (arena attacker orphan 5))
    = Some (false, m') /\
    fst <$> @read_mem pond4 (0, 3) 0 3 16 m' = Some 5 /\
    fst <$> @read_mem pond4 (0, 0) 0 0 24 m' = Some 5.
Proof.
  destruct (@input_band_reaches_the_neighbour pond4
              (set_ptr_mem 24 (arena attacker orphan 5)) attacker (0, 3) orphan true)
    as (m' & Hrun & _ & _ & Hgranted);
    [ apply wf_set_ptr_mem; [example_wf | lia] | simpl; lia | reflexivity
    | vm_compute; reflexivity | reflexivity | vm_compute; reflexivity |].
  exists m'. split; [exact Hrun|].
  destruct (Hgranted eq_refl) as (_ & Hnb & Hself). split; [exact Hnb | exact Hself].
Defined.

Lemma DIV_reads_twice_and_never_divides_by_zero_witness :
  exists v m1,
    @read_window pond4 (arena attacker victim 77) = Some (v, m1) /\
    (v = 0 -> @dispatch pond4 OP_DIV (arena attacker victim 77)
              = Some (false, set_reg 0 m1)) /\
    (v <> 0 ->
     exists m2, @read_window pond4 m1 = Some (v, m2) /\
                @dispatch pond4 OP_DIV (arena attacker victim 77)
                = Some (false, set_reg (reg (arena attacker victim 77) / v) m2)).
Proof.
  apply (@DIV_reads_twice_and_never_divides_by_zero pond4 pond4_ok
           (arena attacker victim 77)).
  example_wf.
Defined.

Lemma STOP_and_stack_overflow_end_the_loop_witness :
  @dispatch pond4 OP_STOP (arena attacker victim 0)
  = Some (false, set_stop true (arena attacker victim 0)) /\
  @run pond4 7 (set_stop true (arena attacker victim 0))
  = Some (true, set_stop true (arena attacker victim 0)).
Proof.
  apply (@STOP_and_stack_overflow_end_the_loop pond4 (arena attacker victim 0) OP_STOP 7);
    [example_wf | left; reflexivity].
Defined.

Lemma REP_on_an_empty_stack_falls_through_witness :
  @step pond4 (arena (cell_with 5000 3 1 [OP_REP]) victim 0)
  = Some (tt, set_instPtr (@next_ip pond4 0)
                (counted OP_REP
                   (@charged pond4 (cell_with 5000 3 1 [OP_REP])
                      (arena (cell_with 5000 3 1 [OP_REP]) victim 0)))).
Proof.
  apply (@REP_on_an_empty_stack_falls_through pond4 pond4_ok
           (arena (cell_with 5000 3 1 [OP_REP]) victim 0) (cell_with 5000 3 1 [OP_REP]));
    [ example_wf | reflexivity | reflexivity | vm_compute; intros [=]
    | reflexivity | reflexivity ].
Defined.

Lemma TURN_of_a_young_cell_is_READG_witness :
  @dispatch pond4 OP_TURN (arena orphan victim 0)
  = @dispatch pond4 OP_READG (arena orphan victim 0) /\
  exists v, @dispatch pond4 OP_TURN (arena orphan victim 0)
            = Some (false, set_reg v (arena orphan victim 0)) /\
            aget (genome orphan) (ptr_ioPtr (arena orphan victim 0)) = Some v.
Proof.
  apply (@TURN_of_a_young_cell_is_READG pond4 (arena orphan victim 0) orphan);
    [example_wf | reflexivity | simpl; lia].
Defined.

Lemma CLEARM_zeroes_the_ram_witness :
  @dispatch pond4 OP_CLEARM (arena attacker victim 0)
  = Some (false,
          set_pond (pond_put (pond (arena attacker victim 0)) (0, 0)
                      (set_ram (replicate (Z.to_nat RAM_SIZE) 0) attacker))
                   (arena attacker victim 0)).
Proof.
  apply (@CLEARM_zeroes_the_ram pond4 (arena attacker victim 0) attacker);
    [example_wf | reflexivity].
Defined.

Lemma reproduce_without_birth_witness :
  @reproduce pond4 (arena attacker victim 0) = Some (tt, arena attacker victim 0).
Proof.
  destruct (@reproduce_without_birth pond4 pond4_ok (arena attacker victim 0)
              attacker (0, 3) victim) as [Hnone _];
    [example_wf | reflexivity | vm_compute; reflexivity | reflexivity |].
  apply Hnone. right. right. left. reflexivity.
Defined.

Lemma doReport_counts_the_cells_witness :
  exists t ev o',
    @doReport pond4 (arena attacker orphan 0) (Build_Observer KINSHIP 0 0 0 0)
    = Some (t, ev, set_statCounters cleared_stats (arena attacker orphan 0), o') /\
    totalActiveCells t = 2 /\ totalLivingCells t = 1 /\
    totalViableReplicators t = 1 /\ ev = Some Appeared.
Proof.
  destruct (@doReport_counts_the_cells pond4 pond4_ok (arena attacker orphan 0)
              (Build_Observer KINSHIP 0 0 0 0))
    as (t & ev & o' & Hrun & Ha & Hl & Hv & _ & _ & _ & _ & _ & _ & _ & _ & _ & Hev);
    [example_wf | simpl; lia |].
  exists t, ev, o'. split; [exact Hrun|].
  split; [rewrite Ha; reflexivity|]. split; [rewrite Hl; reflexivity|].
  split; [rewrite Hv; reflexivity|].
  apply Hev. split; [reflexivity | rewrite Hv; reflexivity].
Defined.

Lemma getColor_black_means_not_living_witness :
  exists v,
    @getColor pond4 (fun _ _ => 0) (Build_Observer LOGO 0 0 0 0) attacker = Some v /\
    v = 73 + logo attacker.
Proof.
  destruct (@getColor_black_means_not_living pond4 pond4_ok (fun _ _ => 0)
              (Build_Observer LOGO 0 0 0 0) attacker)
    as (v & Hrun & _ & _ & Hshade);
    [example_cell_ok | intros [=] | intros [=] | intros [=] |].
  exists v. split; [exact Hrun|]. apply Hshade. unfold living; simpl; lia.
Defined.

Lemma dumpCell_elides_trailing_STOPs_witness :
  exists lg fc body,
    aget inst_chars (logo looper) = Some lg /\
    aget inst_chars (facing looper) = Some fc /\
    @dump_genome pond4 [OP_LOOP; OP_INC; OP_REP] 0 3 0 = Some body /\
    (length body <= 3)%nat /\
    @dumpCell pond4 looper
    = Some ([ Num (ID looper); Chr 44; Num (parentID looper); Chr 44;
              Num (lineage looper); Chr 44; Num (generation looper); Chr 44;
              Chr lg; Chr 44; Chr fc; Chr 44 ]
            ++ (body ++ take 509 [Chr 48; Chr 46; Chr 46; Chr 46]) ++ [Chr 10]).
Proof.
  apply (@dumpCell_elides_trailing_STOPs pond4 pond4_ok looper
           [OP_LOOP; OP_INC; OP_REP] 509%nat);
    [example_cell_ok | reflexivity | simpl; intros [=]].
Defined.

Lemma doDump_writes_the_viable_cells_witness :
  exists lines t ev o',
    @doDump pond4 true (pond (arena attacker orphan 0)) = Some lines /\
    Forall2 (fun c ln => @dumpCell pond4 c = Some ln)
            (filter viable (concat (pond (arena attacker orphan 0)))) lines /\
    @doReport pond4 (arena attacker orphan 0) (Build_Observer KINSHIP 0 0 0 0)
    = Some (t, ev, set_statCounters cleared_stats (arena attacker orphan 0), o') /\
    Z.of_nat (length lines) = totalViableReplicators t.
Proof.
  apply (@doDump_writes_the_viable_cells pond4 pond4_ok (arena attacker orphan 0)
           (Build_Observer KINSHIP 0 0 0 0));
    [example_wf | simpl; lia].
Defined.
